(* ===== verification/_CoqProject ===== *)
-Q . S2P
Prelude.v
Types.v
Remote.v
JsonServer.v
Service.v
ServiceSpec.v
Slice.v
Sort.v
World.v
ListPage.v
ListView.v
DetailPage.v
DetailView.v
Async.v
ListAsync.v
DetailAsync.v
Sync.v
App.v
AppAsync.v
AppRefine.v
Scenarios.v
