(* ===== verification/Prelude.v ===== *)
(** * ShopApp: a verification development of the product catalog front-end

    The repository (src/src) is a React + Redux front-end for a product
    catalog backed by a REST service:
    - [types/product.ts]: the records [Size], [Product], [CommentModel];
    - [features/products/ProductService.ts] (the "Sync Client" of the spec):
      eight async functions, each one [axios] call to the backend;
    - [pages/ProductListPage.tsx]: loads the list into the Redux store,
      adds a product (validation, client-computed id, POST, re-fetch),
      deletes one (DELETE, local removal), sorts the list by name or count;
    - [pages/ProductDetailPage.tsx]: loads one product and its comments,
      edits the product (PATCH), adds and deletes comments.
    The pages share the Redux store (slice [productSlice], not in the
    sources) and the network; the backend (json-server at
    localhost:3001) is external.

    Files, in dependency order:
    - [Prelude]: the state-and-error monad [St] that models an async
      function (with stdpp's [mret]/[≫=]), [catch], [zoom]; JS [Number]
      and [String] on integers ([js_Number], [js_String], round trip
      [js_Number_js_String]); [Math.max] ([js_max]); shared list lemmas;
      the hint databases [shop] and [shop_rw]; [keeps I R m], the
      invariant judgement of a computation, with its composition rules
      along [≫=] and [catch]; [wp m Q R], the weakest precondition of a
      computation (postcondition [Q] on success, [R] on rejection), whose
      rules are equations; JS double arithmetic on integers ([js_round],
      [js_add], [js_sub]: exact up to [2^53], rounded to nearest-even
      beyond); computations agree ([≡]) when they agree on every state,
      with [Proper] instances so that handlers are rewritten up to it.
    - [Types]: the records of [types/product.ts] and the derived types
      [Omit<Product,"id">], [Partial<Product>], [Omit<CommentModel,"id">].
    - [Remote]: the HTTP wire format, the backend's router [route], and the
      interface between client and backend: the class [RemoteService]
      (state and [dispatch]) with the laws [RemoteLaws] (the contract of
      spec §6).  All client theorems are proved against these laws.
    - [JsonServer]: an instance of the interface after json-server
      (truthy body ids kept, duplicates rejected with 500, max+1 ids,
      dependent comments removed on product delete); it discharges every law.
    - [Service]: [ProductService.ts].  The network is explicit: [net S]
      holds the backend, a delivery [schedule] (each request is delivered,
      lost, or has its reply lost; an empty schedule is a reliable network)
      and the log [sent].  Theorems: one request per call, transport errors
      surface once, delivered calls return what the contract says,
      update-then-get; and, for any schedule, [fetchProducts],
      [addProduct] and [deleteProduct] keep the backend's laws
      ([keeps_fetchProducts] also: the list returned has distinct ids).
    - [ServiceSpec]: a weakest-precondition rule for each of the eight
      operations on a reliable network, one postcondition per answer the
      contract allows, and rules for any network: a call rejects or returns
      what the contract says.
    - [Slice]: the Redux slice (modelled from spec §4.2, as its file is not
      in the sources) and its id-uniqueness invariant.
    - [Sort]: [Array.prototype.sort] as a stable insertion sort; sorted,
      permutation, stable, idempotent, and unique among stable sorts (so it
      stands for any conforming engine).
    - [World]: a page's local state together with the shared network,
      store and output log, and the lifts of service calls, [dispatch] and
      [setState] into a handler, with their [wp] rules; the world invariant
      [world_ok] (distinct ids in the store, backend well formed) and the
      lifts that keep it; invariants of a page's own state ([local_ok]);
      the [Modal] component as its use shows it ([modal]).
    - [ListPage], [DetailPage]: the pages' state records, every handler as
      written, the render decisions, and their theorems: create, delete,
      validation, sorting (against the order the page promises, [sort_le]
      and [same_key]: ascending names or counts, ties in store order),
      stale-id collision, a lost reply that blocks every resubmission
      ([lost_reply_blocks_resubmit]), the id computed in doubles
      ([new_id_bounds]), sorting by count with a rounded difference, the
      store invariant of the list handlers under any network behaviour;
      load, missing product, lost comments, add/delete comment, edit, link
      round trip, and the same invariant for the detail handlers.
    - [ListView]: the list page as a user interface: its render (sort
      select, list or "No products available.", the two modals through
      [modal], the [Modal] component as its use shows it), the events of
      its elements and which are on screen ([enabled]), one event as a step
      ([list_step]) and the states reachable from the mount.  By rule
      induction every reachable state keeps [world_ok] and has a product
      selected whenever the confirmation modal is open, so its "Confirm"
      always sends the [DELETE] of the chosen product; from any state both
      modals can be closed, and the rendered React keys are distinct.
    - [DetailView]: the same for the detail page: its render ("Loading...",
      product, edit modal, comments or "No comments yet.", comment input),
      its events, and its reachable states, in which, whatever the network
      does, the edit modal needs a product and every comment shown belongs
      to the product shown.
    - [Async]: the concurrency model of spec §5.  A handler cut at its
      awaits ([aprog]: read the page, update it, reject, or send a request
      and wait) with two readings: [run_sync], where each await completes
      at once (the service functions cut this way are those of
      [Service]); and a machine (the page plus the handlers parked on a
      request in flight) in which a user event starts a handler
      ([m_start]) and any pending answer may arrive next ([m_deliver]).
      The backend handles a request when it is sent; what varies is the
      order in which the page sees the answers.  [drain]: answering each
      request at once is the sequential run; [reachable_minv]: an
      invariant kept between awaits holds in every reachable state;
      [deliveries_bounded]: answers alone settle the page; [run_schedule]
      runs a concrete schedule of events and answers on either page, and
      [run_schedule_sound] shows that each run it accepts is a path of the
      machine; invariants combine by [seg_ok_and] and [akeeps_and].
    - [ListAsync]: the list page's three async handlers cut at their
      awaits, equal to [ListPage]'s handlers when run without overlap; the
      sequential model is the schedule with nothing in flight between
      events ([list_sequential_refines]); under every interleaving the store
      ids stay distinct and the confirmation modal keeps its selection
      ([list_interleaved_ok]); answers alone settle the page after at most
      two per request in flight ([list_deliveries_bounded]);
      [list_schedule] runs a concrete schedule of events and answers.
      The mount's answer is computed when its [GET] is sent and applied
      without a check: in every state in which it is still in flight it
      replaces the store with the list of the mount's time
      ([stale_answer_overwrites_store]).
    - [DetailAsync]: the same for the detail page's async code (the mount
      effect with its two awaits, edit, add and delete comment), with the
      backend's answers read through the contract ([fetchComments_answer],
      ...): under every interleaving the edit modal needs a product and
      every comment shown belongs to the product shown
      ([detail_interleaved_ok]); the invariant is indexed by the route's
      id because a resumed handler applies what it captured at the click.
      Every detail handler keeps the world invariant ([detail_world]).
      Two races of the code, in general form: a second click on "Add
      Comment" before the answer sends the same comment again
      ([double_click_adds_twice]), and the mount's comments answer,
      computed when the product arrived, replaces whatever comments the
      page shows when it lands ([late_comments_hide_new_comment]).
    - [Sync]: the Catalog Store as a cache of the server: on a reliable
      network every handler of both pages keeps the store equal to the
      server's list ([handlers_keep_synced]), proved with the rules of
      [ServiceSpec].
    - [App]: the two pages together.  A session starts on the list; the
      list's product [Link] mounts the detail page on its route and
      "← Back" ([navigate(-1)]) mounts the list again, each on the same
      world (network, store, log), with the new page's mount effect.
      Along any session the world invariant and each page's own invariant
      hold ([app_reachable_ok]); on a reliable network the store stays the
      server's list across navigation ([app_synced]).
    - [AppAsync]: the two pages and the navigation between them on one
      interleaving machine.  Each mount is a new page instance ([view]).
      A parked handler ([athread]) remembers its instance.  When its
      answer arrives ([deliver_app], [resume]) it runs on the page on
      screen if that is its instance.  Otherwise its page has been
      unmounted: it still runs, its [dispatch] and network calls take
      effect, and its [setState] calls are dropped (it runs on its own
      [ghost] state, which is then discarded).  Under every interleaving
      of events, answers and navigations, the world invariant and the
      invariant of the page on screen hold ([app_interleaved_ok]);
      an answer to the mount of a list the user has left still replaces
      the shared store with the list of that mount's time, undoing later
      edits, and leaves the page on screen as it is
      ([unmounted_answer_reverts_edit]); [app_schedule] runs a concrete
      schedule.
    - [AppRefine]: how [AppAsync] relates to the models it extends.  While
      a page is mounted, its own machine is simulated step by step by the
      application's ([list_embed_step], [detail_embed_step]).  The
      sequential application of [App] is the schedule with nothing in
      flight ([app_sequential_refines]), proved by lifting each page's
      drained runs ([list_step_drains], [detail_step_drains]) through
      those simulations.  Answers alone settle the application
      ([app_answers_settle]): every handler in flight, mounted or not,
      awaits at most once more, so at most two answers per request in
      flight arrive, and answering them reaches a state with none left.
    - [Scenarios]: concrete instances of every theorem with hypotheses
      (the [_witness] lemmas) on the json-server backend, a user session
      on each page, and concrete runs of the races above: a schedule in
      which the mount's late answer puts an old list back
      ([race_session_overwrites_store]), a double click
      ([double_click_session]), late comments ([late_comments_session]),
      and a session across pages in which the unmounted list's answer
      reverts an edit ([cross_session_reverts_edit]).

    Modelling choices and bounds.  JS numbers are integers [Z]: ids are
    server-assigned integers and counts are quantities; where the code
    does arithmetic on them ([maxId + 1], [a.count - b.count]) it is the
    double operation, [js_add]/[js_sub], exact below [2^53] and rounded
    above (results beyond [2^1024], [Infinity], are outside the model);
    [Number(s)] returns [None] where JavaScript gives [NaN] or a
    non-integer, and such inputs are outside the model (an input event
    with such a value is not [enabled]).  [Math.max(...ids)] is a fold: the
    engine's limit on the number of spread arguments is not modelled.  The
    sequential files run each handler to completion; [Async],
    [ListAsync], [DetailAsync] and [AppAsync] add interleavings for both
    pages and across navigation.  No fuel is needed:
    every definition is structurally recursive (a cut handler is a finite
    tree, each resumption consumes one await); reachability is [rtc] of
    the event step or of the machine step.  The delivery bounds count
    awaits: handlers await at most twice (the add form's POST then GET,
    the detail mount's product then comments), so a reachable state
    settles after at most two answers per request in flight; that a
    settled state is reached is proved by induction on a bound of this
    count, not by fuel.
    Not modelled, and why:
    - styling and layout: the inline [style] objects decide nothing the
      theorems speak of;
    - the [Modal] component beyond showing its children while open: its
      file is not in the sources, and the pages only pass it [isOpen],
      [onClose] and children;
    - the router beyond what the pages use: the [/product/:id] parameter,
      the [Link] on each product and one [navigate(-1)].  Its history
      stack beyond one "← Back" step and direct URL entry are
      react-router's, not in the sources;
    - [localeCompare]: the browser's locale collation.  The theorems take
      it as a parameter, and [Sort] proves them for any engine's stable
      sort;
    - the browser clock: an argument [now];
    - the generation-token fix proposed in spec §9: it is not code of the
      repository. *)

From Stdlib Require Import ZArith Lia Ascii String.
From Stdlib Require Import DecimalString DecimalZ DecimalPos.
From stdpp Require Import strings.
From stdpp Require Import base list.

Declare Scope shop_scope.
Delimit Scope shop_scope with shop.
Open Scope Z_scope.

(** ** Results of a computation that may fail: a rejected promise is [Err]. *)

Inductive res (E A : Type) : Type :=
| Ok (a : A)
| Err (e : E).
Arguments Ok {E A} a.
Arguments Err {E A} e.

(** ** The state-and-error monad of the development.

    An [async] function of the program that reads and writes some state
    [σ] and may reject with an error of type [E] is a value of [St σ E A]:
    it takes the state before the call and returns its result and the state
    after it.  The whole await chain of a handler is a composition of such
    values, so the order of its effects is the order of the binds. *)

Definition St (σ E A : Type) : Type := σ → res E A * σ.

Section monad.
Context {σ E : Type}.

Definition st_ret {A} (a : A) : St σ E A := λ s, (Ok a, s).

Definition st_bind {A B} (f : A → St σ E B) (m : St σ E A) : St σ E B :=
  λ s, match m s with
       | (Ok a, s') => f a s'
       | (Err e, s') => (Err e, s')
       end.

Definition throw {A} (e : E) : St σ E A := λ s, (Err e, s).

(** [try { m } catch (e) { h(e) }] *)
Definition catch {A} (m : St σ E A) (h : E → St σ E A) : St σ E A :=
  λ s, match m s with
       | (Ok a, s') => (Ok a, s')
       | (Err e, s') => h e s'
       end.

Definition get_st : St σ E σ := λ s, (Ok s, s).
Definition gets {A} (f : σ → A) : St σ E A := λ s, (Ok (f s), s).
Definition modify (f : σ → σ) : St σ E unit := λ s, (Ok tt, f s).
End monad.

#[export] Instance St_ret {σ E} : MRet (St σ E) := λ A, st_ret.
#[export] Instance St_bind {σ E} : MBind (St σ E) := λ A B, st_bind.

(** [zoom get set m] runs [m] on the part [get s] of a larger state [s]:
    a call from a page into the service layer acts on the network part of
    the world only. *)
Definition zoom {σ τ E A} (get : σ → τ) (set : τ → σ → σ) (m : St τ E A)
  : St σ E A :=
  λ s, let '(r, t) := m (get s) in (r, set t s).

(** Running a computation and projecting. *)
Definition run_res {σ E A} (m : St σ E A) (s : σ) : res E A := fst (m s).
Definition run_state {σ E A} (m : St σ E A) (s : σ) : σ := snd (m s).

Section monad_laws.
Context {σ E : Type}.

Lemma st_bind_ret_l {A B} (a : A) (f : A → St σ E B) :
  (mret a ≫= f) = f a.
Proof. reflexivity. Qed.

Lemma st_bind_run {A B} (m : St σ E A) (f : A → St σ E B) s :
  (m ≫= f) s = match m s with
               | (Ok a, s') => f a s'
               | (Err e, s') => (Err e, s')
               end.
Proof. reflexivity. Qed.

Lemma st_bind_assoc {A B C} (m : St σ E A) (f : A → St σ E B)
      (g : B → St σ E C) s :
  ((m ≫= f) ≫= g) s = (m ≫= (λ a, f a ≫= g)) s.
Proof.
  unfold mbind, St_bind, st_bind. by destruct (m s) as [[a|e] s'].
Qed.
End monad_laws.

(** [st_run] unfolds the monad combinators of a goal so that the
    computation is exposed as nested matches. *)
Ltac st_unfold :=
  unfold mbind, mret, St_bind, St_ret, st_bind, st_ret, throw, catch, get_st,
    gets, modify, zoom, run_res, run_state in *.

Create HintDb shop discriminated.
Create Rewrite HintDb shop_rw.
#[export] Hint Constants Transparent : shop.
#[export] Hint Variables Opaque : shop.

(** ** Generic list lemmas shared by the components. *)

Section lists.
Context {A : Type}.

Lemma filter_true_id (f : A → bool) (l : list A) :
  Forall (λ x, f x = true) l → List.filter f l = l.
Proof. induction 1 as [|x l Hx _ IH]; simpl; [done|]. by rewrite Hx, IH. Qed.

Lemma filter_false_nil (f : A → bool) (l : list A) :
  Forall (λ x, f x = false) l → List.filter f l = [].
Proof. induction 1 as [|x l Hx _ IH]; simpl; [done|]. by rewrite Hx. Qed.

Lemma filter_app_distr (f : A → bool) (l1 l2 : list A) :
  List.filter f (l1 ++ l2) = List.filter f l1 ++ List.filter f l2.
Proof. induction l1 as [|x l1 IH]; simpl; [done|]. destruct (f x); by rewrite IH. Qed.

Lemma NoDup_filter_bool (f : A → bool) (l : list A) :
  NoDup l → NoDup (List.filter f l).
Proof.
  induction 1 as [|x l Hx _ IH]; simpl; [constructor|].
  destruct (f x); [|done]. constructor; [|done].
  rewrite list_elem_of_In, filter_In, <-list_elem_of_In. intros [Hin _]. by apply Hx.
Qed.
End lists.

#[export] Hint Resolve NoDup_filter_bool : shop.
#[export] Hint Rewrite @filter_app_distr : shop_rw.

(** ** JavaScript numbers and their string forms.

    The model keeps every JS number the program handles (ids, counts,
    sizes) as an integer [Z]: the ids are integers assigned by the server
    and the counts are quantities.  [Number(s)] on a string is modelled by
    [js_Number], which returns [None] where the JavaScript value would be
    [NaN] or a non-integer.  [String(n)] and the template literal
    [`${n}`] on an integer are [js_String]. *)

Definition is_js_ws (c : ascii) : bool :=
  match Ascii.nat_of_ascii c with
  | 9 | 10 | 11 | 12 | 13 | 32 => true
  | _ => false
  end%nat.

Fixpoint trim_start (s : string) : string :=
  match s with
  | EmptyString => EmptyString
  | String c r => if is_js_ws c then trim_start r else s
  end.

Fixpoint trim_end (s : string) : string :=
  match s with
  | EmptyString => EmptyString
  | String c r =>
      match trim_end r with
      | EmptyString => if is_js_ws c then EmptyString else String c EmptyString
      | r' => String c r'
      end
  end.

Lemma string_app_nil_l (s : string) : "" +:+ s = s.
Proof. reflexivity. Qed.

(** [String.prototype.trim] on ASCII strings. *)
Definition js_trim (s : string) : string := trim_end (trim_start s).

(** Unsigned decimal digits of a non-empty string. *)
Definition digits_of (s : string) : option Z :=
  match s with
  | EmptyString => None
  | _ => Z.of_uint <$> NilEmpty.uint_of_string s
  end.

(** [Number(s)]: surrounding white space is ignored, the empty string is
    [0], an optional sign precedes the decimal digits. *)
Definition js_Number (s : string) : option Z :=
  match js_trim s with
  | EmptyString => Some 0
  | String c r =>
      if Ascii.eqb c "-" then Z.opp <$> digits_of r
      else if Ascii.eqb c "+" then digits_of r
      else digits_of (String c r)
  end.

(** [String(n)] on an integer: its shortest decimal form. *)
Definition js_String (z : Z) : string := NilEmpty.string_of_int (Z.to_int z).

Fixpoint all_chars (p : ascii → bool) (s : string) : bool :=
  match s with
  | EmptyString => true
  | String c r => p c && all_chars p r
  end.

Lemma trim_start_id s :
  all_chars (λ c, negb (is_js_ws c)) s = true → trim_start s = s.
Proof. destruct s as [|c r]; simpl; [done|]. by destruct (is_js_ws c). Qed.

Lemma trim_end_id s : all_chars (λ c, negb (is_js_ws c)) s = true → trim_end s = s.
Proof.
  induction s as [|c r IH]; simpl; [done|].
  intros [Hc Hr]%andb_prop. rewrite IH by done.
  destruct r; [|done]. by destruct (is_js_ws c).
Qed.

Lemma js_trim_id s : all_chars (λ c, negb (is_js_ws c)) s = true → js_trim s = s.
Proof. intros H. unfold js_trim. by rewrite trim_start_id, trim_end_id. Qed.

Lemma string_of_uint_no_ws d :
  all_chars (λ c, negb (is_js_ws c)) (NilEmpty.string_of_uint d) = true.
Proof. induction d; simpl; by rewrite ?IHd. Qed.

Lemma digits_of_uint d :
  d ≠ Decimal.Nil → digits_of (NilEmpty.string_of_uint d) = Some (Z.of_uint d).
Proof.
  intros Hd. unfold digits_of.
  destruct (NilEmpty.string_of_uint d) eqn:E.
  - by destruct d.
  - rewrite <-E, NilEmpty.usu. done.
Qed.

Lemma js_Number_uint d :
  js_Number (NilEmpty.string_of_uint d) = Some (Z.of_uint d).
Proof.
  unfold js_Number. rewrite js_trim_id by apply string_of_uint_no_ws.
  destruct d; simpl; by rewrite ?NilEmpty.usu.
Qed.

(** [String(n)] is read back by [Number]: the id a page prints into a route
    is the id the next page parses from it. *)
Lemma js_Number_js_String z : js_Number (js_String z) = Some z.
Proof.
  rewrite <-(DecimalZ.of_to z) at 2. unfold js_String.
  destruct z as [|p|p]; simpl Z.to_int; simpl NilEmpty.string_of_int.
  - reflexivity.
  - apply js_Number_uint.
  - unfold js_Number. rewrite js_trim_id by apply string_of_uint_no_ws.
    simpl. by rewrite digits_of_uint by apply DecimalPos.Unsigned.to_uint_nonnil.
Qed.

(** ** [Math.max(...xs)] on a non-empty array of integers. *)

Definition js_max (x : Z) (xs : list Z) : Z := foldl Z.max x xs.

Lemma js_max_acc x xs : x ≤ js_max x xs.
Proof.
  unfold js_max. revert x. induction xs as [|z xs IH]; intros x; simpl; [lia|].
  specialize (IH (Z.max x z)). lia.
Qed.

Lemma js_max_ge x xs y : y ∈ x :: xs → y ≤ js_max x xs.
Proof.
  revert x. induction xs as [|z xs IH]; intros x Hy.
  - apply list_elem_of_singleton in Hy as ->. apply js_max_acc.
  - change (js_max x (z :: xs)) with (js_max (Z.max x z) xs).
    pose proof (js_max_acc (Z.max x z) xs).
    apply elem_of_cons in Hy as [->|[->|Hy]%elem_of_cons]; [lia|lia|].
    apply IH, list_elem_of_further, Hy.
Qed.

Lemma js_max_fresh x xs : js_max x xs + 1 ∉ x :: xs.
Proof. intros H%js_max_ge. lia. Qed.

Lemma js_max_elem x xs : js_max x xs ∈ x :: xs.
Proof.
  unfold js_max. revert x. induction xs as [|y xs IH]; intros x; simpl; [by left|].
  specialize (IH (Z.max x y)). apply elem_of_cons in IH as [->|H]; [|by right; right].
  destruct (Z.max_spec x y) as [[_ ->]|[_ ->]]; [right; left|left].
Qed.

#[export] Hint Resolve js_max_ge js_max_fresh : shop.

Section nodup.
Context {A B : Type}.

Lemma NoDup_snoc (l : list A) x : NoDup l → x ∉ l → NoDup (l ++ [x]).
Proof.
  intros Hl Hx. apply NoDup_app. split; [done|]. split; [|apply NoDup_singleton].
  intros y Hy ->%list_elem_of_singleton. done.
Qed.

Lemma NoDup_map_filter (g : A → B) (f : A → bool) (l : list A) :
  NoDup (map g l) → NoDup (map g (List.filter f l)).
Proof.
  induction l as [|x l IH]; simpl; [done|].
  intros [Hx Hl]%list.NoDup_cons. destruct (f x); simpl; [|by apply IH].
  constructor; [|by apply IH]. intros Hin. apply Hx.
  apply list_elem_of_In in Hin. apply list_elem_of_In.
  apply in_map_iff in Hin as [y [Hy Hin]]. apply filter_In in Hin as [Hin _].
  apply in_map_iff. eauto.
Qed.
End nodup.

#[export] Hint Resolve NoDup_snoc NoDup_map_filter : shop.

Lemma st_bind_err {σ E A B} (m : St σ E A) (k : A → St σ E B) s e s' :
  m s = (Err e, s') → (m ≫= k) s = (Err e, s').
Proof. intros Hm. unfold mbind, St_bind, st_bind. by rewrite Hm. Qed.

Lemma st_bind_ok {σ E A B} (m : St σ E A) (k : A → St σ E B) s a s' :
  m s = (Ok a, s') → (m ≫= k) s = k a s'.
Proof. intros Hm. unfold mbind, St_bind, st_bind. by rewrite Hm. Qed.

Lemma st_bind_ok_eq {σ E A B} (m : St σ E A) (k : A → St σ E B) s a s' r :
  m s = (Ok a, s') → k a s' = r → (m ≫= k) s = r.
Proof. intros Hm Hk. unfold mbind, St_bind, st_bind. by rewrite Hm. Qed.

Lemma catch_ok {σ E A} (m : St σ E A) (h : E → St σ E A) s a s' :
  m s = (Ok a, s') → catch m h s = (Ok a, s').
Proof. intros Hm. unfold catch. by rewrite Hm. Qed.

Lemma catch_err {σ E A} (m : St σ E A) (h : E → St σ E A) s e s' :
  m s = (Err e, s') → catch m h s = h e s'.
Proof. intros Hm. unfold catch. by rewrite Hm. Qed.

Lemma js_String_nonempty z : js_String z ≠ "".
Proof.
  unfold js_String. destruct z as [|p|p]; simpl; [discriminate| |discriminate].
  pose proof (DecimalPos.Unsigned.to_uint_nonnil p) as H.
  destruct (Pos.to_uint p); simpl; congruence.
Qed.

(** ** Invariants of stateful computations.

    [keeps I R m]: run from a state satisfying the invariant [I], the
    computation [m] ends in a state satisfying [I], and when it succeeds its
    value satisfies [R].  The rules below compose such facts along the
    binds of a handler, so that a handler keeps [I] whatever each of its
    steps returns. *)
Section keeps.
Context {σ E : Type} (I : σ → Prop).

Definition keeps {A} (R : A → Prop) (m : St σ E A) : Prop :=
  ∀ s, I s → I (snd (m s)) ∧ ∀ a, fst (m s) = Ok a → R a.

Lemma keeps_ret {A} (R : A → Prop) a : R a → keeps R (mret a).
Proof. intros Ha s Hs. split; [done|]. by intros ? [= <-]. Qed.

Lemma keeps_bind {A B} (R : A → Prop) (R' : B → Prop) m (k : A → St σ E B) :
  keeps R m → (∀ a, R a → keeps R' (k a)) → keeps R' (m ≫= k).
Proof.
  intros Hm Hk s Hs. unfold mbind, St_bind, st_bind.
  destruct (Hm s Hs) as [Hs' Ha]. destruct (m s) as [[a|e] s']; simpl in *.
  - by apply Hk; [apply Ha|].
  - split; [done|]. by intros ? [=].
Qed.

Lemma keeps_catch {A} (R : A → Prop) m (h : E → St σ E A) :
  keeps R m → (∀ e, keeps R (h e)) → keeps R (catch m h).
Proof.
  intros Hm Hh s Hs. unfold catch.
  destruct (Hm s Hs) as [Hs' Ha]. destruct (m s) as [[a|e] s']; simpl in *.
  - split; [done|]. intros ? [= <-]. by apply Ha.
  - by apply Hh.
Qed.

Lemma keeps_modify (f : σ → σ) : (∀ s, I s → I (f s)) → keeps (λ _, True) (modify f).
Proof. intros Hf s Hs. split; [by apply Hf|done]. Qed.

(** Reading the state yields a state that satisfies the invariant. *)
Lemma keeps_get : keeps I get_st.
Proof. intros s Hs. split; [done|]. by intros ? [= <-]. Qed.

Lemma keeps_weaken {A} (R R' : A → Prop) m :
  keeps R m → (∀ a, R a → R' a) → keeps R' m.
Proof. intros Hm HR s Hs. destruct (Hm s Hs) as [? Ha]. split; [done|]. eauto. Qed.
End keeps.

#[export] Hint Resolve keeps_ret keeps_get : shop.

(** ** Weakest preconditions.

    [wp m Q R s]: run from [s], the computation [m] either succeeds with a
    value [a] in a state [s'] with [Q a s'], or rejects with [e] in a
    state [s'] with [R e s'].  As the monad is deterministic, [wp] is the
    postcondition applied to the unique outcome; its rules are equations
    that follow the structure of a handler. *)
Definition wp {σ E A} (m : St σ E A) (Q : A → σ → Prop) (R : E → σ → Prop)
  (s : σ) : Prop :=
  match m s with
  | (Ok a, s') => Q a s'
  | (Err e, s') => R e s'
  end.

Section wp_rules.
Context {σ E : Type}.

Lemma wp_ret {A} (a : A) Q (R : E → σ → Prop) s : wp (mret a) Q R s = Q a s.
Proof. reflexivity. Qed.

Lemma wp_bind {A B} (m : St σ E A) (k : A → St σ E B) Q R s :
  wp (m ≫= k) Q R s = wp m (λ a s', wp (k a) Q R s') R s.
Proof. unfold wp, mbind, St_bind, st_bind. by destruct (m s) as [[]]. Qed.

Lemma wp_catch {A} (m : St σ E A) h Q R s :
  wp (catch m h) Q R s = wp m Q (λ e s', wp (h e) Q R s') s.
Proof. unfold wp, catch. by destruct (m s) as [[]]. Qed.

Lemma wp_modify f Q (R : E → σ → Prop) s : wp (modify f) Q R s = Q tt (f s).
Proof. reflexivity. Qed.

Lemma wp_get Q (R : E → σ → Prop) s : wp get_st Q R s = Q s s.
Proof. reflexivity. Qed.

Lemma wp_zoom {τ A} (get : σ → τ) set (m : St τ E A) Q R s :
  wp (zoom get set m) Q R s =
  wp m (λ a t, Q a (set t s)) (λ e t, R e (set t s)) (get s).
Proof. unfold wp, zoom. by destruct (m (get s)) as [[]]. Qed.

Lemma wp_mono {A} (m : St σ E A) Q Q' R R' s :
  (∀ a s', Q a s' → Q' a s') → (∀ e s', R e s' → R' e s') →
  wp m Q R s → wp m Q' R' s.
Proof. unfold wp. destruct (m s) as [[]]; eauto. Qed.

(** A computation that resolves with [a] meets the success postcondition. *)
Lemma wp_ok_inv {A} (m : St σ E A) Q R s a s' : wp m Q R s → m s = (Ok a, s') → Q a s'.
Proof. unfold wp. intros H Hm. by rewrite Hm in H. Qed.

(** A property of every final state follows from a [wp] whose two
    postconditions imply it. *)
Lemma wp_run_state {A} (m : St σ E A) Q R (P : σ → Prop) s :
  wp m Q R s → (∀ a s', Q a s' → P s') → (∀ e s', R e s' → P s') →
  P (run_state m s).
Proof. unfold wp, run_state. destruct (m s) as [[]]; eauto. Qed.
End wp_rules.

#[export] Hint Rewrite @wp_ret @wp_bind @wp_catch @wp_modify @wp_get : shop_rw.

(** ** JavaScript arithmetic on integers.

    A JS number is an IEEE-754 double.  Every integer of magnitude at most
    [2^53] is exact; beyond, a result is rounded to the nearest double
    whose last [e] bits are zero, ties to even.  [js_round] is that
    rounding on integers (results of magnitude [2^1024] and more, which
    are [Infinity], are outside the model); [js_add] and [js_sub] are [+]
    and [-] on integer-valued numbers. *)
Definition js_max_safe : Z := 2 ^ 53 - 1.

Definition js_round (z : Z) : Z :=
  let a := Z.abs z in
  if a <=? 2 ^ 53 then z
  else
    let e := Z.log2 a - 52 in
    let q := Z.shiftr a e in
    let r := a - Z.shiftl q e in
    let h := Z.shiftl 1 (e - 1) in
    let q' := if r <? h then q else if h <? r then q + 1
              else if Z.even q then q else q + 1 in
    Z.sgn z * Z.shiftl q' e.

Definition js_add (x y : Z) : Z := js_round (x + y).
Definition js_sub (x y : Z) : Z := js_round (x - y).

Lemma js_round_small z : Z.abs z ≤ 2 ^ 53 → js_round z = z.
Proof. intros H. unfold js_round. by rewrite (proj2 (Z.leb_le _ _) H). Qed.

(** Rounding keeps the sign: a nonzero integer never rounds to zero. *)
Lemma js_round_sgn z : Z.sgn (js_round z) = Z.sgn z.
Proof.
  unfold js_round. destruct (Z.leb_spec (Z.abs z) (2 ^ 53)) as [|Hbig]; [done|].
  set (a := Z.abs z). set (e := Z.log2 a - 52).
  assert (0 < a) as Ha by lia.
  assert (0 ≤ e ≤ Z.log2 a) as He.
  { unfold e. pose proof (Z.log2_le_mono (2 ^ 53) a ltac:(lia)) as H.
    rewrite Z.log2_pow2 in H by lia. lia. }
  assert (0 < Z.shiftr a e) as Hq.
  { rewrite Z.shiftr_div_pow2 by lia. apply Z.div_str_pos. split; [apply Z.pow_pos_nonneg; lia|].
    pose proof (Z.log2_spec a Ha) as [Hl _]. pose proof (Z.pow_le_mono_r 2 e (Z.log2 a)). lia. }
  set (q := Z.shiftr a e) in *.
  set (q' := if _ <? _ then q else _).
  assert (0 < q') as Hq'.
  { unfold q'. repeat match goal with |- context [if ?b then _ else _] => destruct b end; lia. }
  rewrite Z.shiftl_mul_pow2 by lia. rewrite Z.sgn_mul.
  rewrite (Z.sgn_pos (q' * 2 ^ e)); [lia|]. apply Z.mul_pos_pos; [done|apply Z.pow_pos_nonneg; lia].
Qed.

Lemma js_round_nonpos z : js_round z ≤ 0 ↔ z ≤ 0.
Proof. pose proof (js_round_sgn z). destruct (js_round z), z; simpl in *; split; lia. Qed.

Lemma js_round_pos z : 0 < z → 0 < js_round z.
Proof. intros H. pose proof (js_round_sgn z). rewrite (Z.sgn_pos z H) in *. destruct (js_round z); simpl in *; lia. Qed.

Lemma keeps_and {σ E A} (I1 I2 : σ → Prop) (m : St σ E A) :
  keeps I1 (λ _, True) m → keeps I2 (λ _, True) m → keeps (λ s, I1 s ∧ I2 s) (λ _, True) m.
Proof. intros H1 H2 s [Hs1 Hs2]. split; [split; [apply H1|apply H2]|]; done. Qed.

Lemma wp_any {σ E A} (m : St σ E A) Q R s :
  (∀ a s', Q a s') → (∀ e s', R e s') → wp m Q R s.
Proof. unfold wp. destruct (m s) as [[]]; auto. Qed.

Lemma keeps_run {σ E A} (I : σ → Prop) R (m : St σ E A) s : keeps I R m → I s → I (run_state m s).
Proof. intros Hm Hs. apply (Hm s Hs). Qed.

(** ** Equivalence of computations

    Two computations are equivalent when they agree on every start state:
    the same outcome and the same final state.  Binding and catching
    respect it, so [setoid_rewrite] replaces a computation by an
    equivalent one anywhere in a handler, under binders included. *)
Section st_equiv.
Context {σ E : Type}.

#[export] Instance St_equiv {A} : Equiv (St σ E A) := λ m m', ∀ s, m s = m' s.

#[export] Instance St_equivalence {A} : Equivalence (≡@{St σ E A}).
Proof. split; [by intros m s|by intros m m' H s|by intros m1 m2 m3 H1 H2 s; rewrite H1]. Qed.

#[export] Instance St_bind_proper {A B} :
  Proper (pointwise_relation A (≡) ==> (≡) ==> (≡)) (@mbind (St σ E) _ A B).
Proof.
  intros f f' Hf m m' Hm s. unfold mbind, St_bind, st_bind.
  rewrite Hm. destruct (m' s) as [[a|e] s']; [apply Hf|done].
Qed.

#[export] Instance catch_proper {A} :
  Proper ((≡) ==> pointwise_relation E (≡) ==> (≡)) (@catch σ E A).
Proof.
  intros m m' Hm h h' Hh s. unfold catch.
  rewrite Hm. destruct (m' s) as [[a|e] s']; [done|apply Hh].
Qed.
End st_equiv.

#[export] Instance run_state_proper {σ E A} : Proper ((≡) ==> (=) ==> (=)) (@run_state σ E A).
Proof. intros m m' Hm s ? <-. unfold run_state. by rewrite (Hm s). Qed.
