(* ===== verification/Types.v ===== *)
(** * The data model of [src/src/types/product.ts]

    [Size], [Product] and [CommentModel] are the TypeScript interfaces as
    records; JS numbers are integers [Z] (see [Prelude]).  The derived types
    the service signatures use, [Omit<Product, "id">], [Partial<Product>]
    and [Omit<CommentModel, "id">], are the records [ProductDraft],
    [ProductPatch] and [CommentDraft].  The file also holds the lookups by
    id that every component shares. *)

From Stdlib Require Import ZArith.
From stdpp Require Import strings.
From stdpp Require Import base list decidable.
From S2P Require Import Prelude.
Open Scope Z_scope.

(** [interface Size { width: number; height: number }] *)
Record Size := mkSize { width : Z; height : Z }.

(** [interface Product] *)
Record Product := mkProduct {
  id : Z;
  imageUrl : string;
  name : string;
  count : Z;
  size : Size;
  weight : string;
  comments : list Z
}.

(** [interface CommentModel]; its fields live in module [CM] so that its
    [id] does not shadow [Product]'s. *)
Module CM.
Record CommentModel := mkComment {
  id : Z;
  productId : Z;
  description : string;
  date : string
}.
End CM.
Abbreviation CommentModel := CM.CommentModel.

(** [Omit<Product, "id">] *)
Record ProductDraft := mkDraft {
  d_imageUrl : string;
  d_name : string;
  d_count : Z;
  d_size : Size;
  d_weight : string;
  d_comments : list Z
}.

(** [Partial<Product>]: every field optional. *)
Record ProductPatch := mkPatch {
  pa_id : option Z;
  pa_imageUrl : option string;
  pa_name : option string;
  pa_count : option Z;
  pa_size : option Size;
  pa_weight : option string;
  pa_comments : option (list Z)
}.

(** [Omit<CommentModel, "id">] *)
Record CommentDraft := mkCommentDraft {
  cd_productId : Z;
  cd_description : string;
  cd_date : string
}.

#[export] Instance Size_eq_dec : EqDecision Size.
Proof. solve_decision. Defined.
#[export] Instance Product_eq_dec : EqDecision Product.
Proof. solve_decision. Defined.
#[export] Instance CommentModel_eq_dec : EqDecision CommentModel.
Proof. solve_decision. Defined.

(** The fields of a product other than its id, and a product built from a
    draft and an id. *)
Definition draft_of (p : Product) : ProductDraft :=
  mkDraft p.(imageUrl) p.(name) p.(count) p.(size) p.(weight) p.(comments).

Definition with_id (i : Z) (d : ProductDraft) : Product :=
  mkProduct i d.(d_imageUrl) d.(d_name) d.(d_count) d.(d_size) d.(d_weight)
            d.(d_comments).

Definition comment_with_id (i : Z) (d : CommentDraft) : CommentModel :=
  CM.mkComment i d.(cd_productId) d.(cd_description) d.(cd_date).

(** The spread [{ ...p, ...patch }]: every field the patch carries replaces
    the product's, the others are kept. *)
Definition apply_patch (p : Product) (pa : ProductPatch) : Product :=
  mkProduct (default p.(id) pa.(pa_id))
            (default p.(imageUrl) pa.(pa_imageUrl))
            (default p.(name) pa.(pa_name))
            (default p.(count) pa.(pa_count))
            (default p.(size) pa.(pa_size))
            (default p.(weight) pa.(pa_weight))
            (default p.(comments) pa.(pa_comments)).

(** ** Lookups by id *)

Definition ids (l : list Product) : list Z := map id l.
Definition comment_ids (l : list CommentModel) : list Z := map CM.id l.

Definition find_product (i : Z) (l : list Product) : option Product :=
  List.find (λ p, bool_decide (p.(id) = i)) l.

Definition remove_product (i : Z) (l : list Product) : list Product :=
  List.filter (λ p, negb (bool_decide (p.(id) = i))) l.

(** Count of the products of [l] that carry the id [i]. *)
Definition id_count (i : Z) (l : list Product) : nat :=
  length (List.filter (λ p, bool_decide (p.(id) = i)) l).

Lemma draft_of_with_id i d : draft_of (with_id i d) = d.
Proof. by destruct d. Qed.

Lemma with_id_draft_of p : with_id p.(id) (draft_of p) = p.
Proof. by destruct p. Qed.

Lemma find_product_Some i l p :
  find_product i l = Some p → p ∈ l ∧ p.(id) = i.
Proof.
  unfold find_product. intros [Hin Hid]%find_some.
  apply bool_decide_eq_true in Hid. split; [by apply list_elem_of_In|done].
Qed.

Lemma find_product_None i l :
  find_product i l = None ↔ i ∉ ids l.
Proof.
  unfold find_product, ids. rewrite list_elem_of_fmap. split.
  - intros Hn [p [-> Hp]]. apply list_elem_of_In in Hp.
    pose proof (find_none _ _ Hn p Hp) as Hf. simpl in Hf.
    by rewrite bool_decide_eq_false in Hf.
  - intros Hn. destruct (List.find _ l) as [p|] eqn:E; [|done].
    apply find_some in E as [Hp Hid]. apply bool_decide_eq_true in Hid.
    exfalso. apply Hn. exists p. split; [done|]. by apply list_elem_of_In.
Qed.

Lemma remove_product_ids i l : i ∉ ids (remove_product i l).
Proof.
  unfold ids, remove_product. rewrite list_elem_of_fmap.
  intros [p [-> Hp]]. apply list_elem_of_In, filter_In in Hp as [_ Hp].
  by rewrite negb_true_iff, bool_decide_eq_false in Hp.
Qed.

Lemma remove_product_elem i l p :
  p ∈ remove_product i l ↔ p ∈ l ∧ p.(id) ≠ i.
Proof.
  unfold remove_product. rewrite !list_elem_of_In, filter_In.
  by rewrite negb_true_iff, bool_decide_eq_false.
Qed.

Lemma NoDup_ids_remove i l : NoDup (ids l) → NoDup (ids (remove_product i l)).
Proof.
  unfold ids, remove_product. induction l as [|p l IH]; simpl; [done|].
  intros [Hp Hl]%list.NoDup_cons. destruct (negb _); simpl; [|by apply IH].
  constructor; [|by apply IH]. rewrite list_elem_of_fmap in *.
  intros [q [Hq Hin]]. apply Hp. exists q. split; [done|].
  apply list_elem_of_In in Hin. apply filter_In in Hin as [Hin _].
  by apply list_elem_of_In.
Qed.

Lemma id_count_NoDup i l : NoDup (ids l) → i ∈ ids l → id_count i l = 1%nat.
Proof.
  unfold id_count, ids. induction l as [|p l IH]; simpl.
  { intros _ Hin. by apply not_elem_of_nil in Hin. }
  intros [Hp Hl]%list.NoDup_cons Hin. case_bool_decide as Hi; simpl.
  - subst i. f_equal. apply length_zero_iff_nil, filter_false_nil.
    apply Forall_forall. intros q Hq. apply bool_decide_eq_false.
    intros Heq. apply Hp. rewrite list_elem_of_fmap. exists q.
    split; [done|by apply list_elem_of_In].
  - apply IH; [done|]. apply elem_of_cons in Hin as [->|]; [done|done].
Qed.

#[export] Hint Resolve NoDup_ids_remove remove_product_ids : shop.

Lemma NoDup_ids_snoc l p :
  NoDup (ids l) → p.(id) ∉ ids l → NoDup (ids (l ++ [p])).
Proof. unfold ids. rewrite map_app. apply NoDup_snoc. Qed.

Lemma NoDup_comment_ids_snoc l c :
  NoDup (comment_ids l) → c.(CM.id) ∉ comment_ids l →
  NoDup (comment_ids (l ++ [c])).
Proof. unfold comment_ids. rewrite map_app. apply NoDup_snoc. Qed.

Lemma ids_app l1 l2 : ids (l1 ++ l2) = ids l1 ++ ids l2.
Proof. apply map_app. Qed.

#[export] Hint Resolve NoDup_ids_snoc NoDup_comment_ids_snoc : shop.
#[export] Hint Rewrite ids_app : shop_rw.
