(* ===== verification/JsonServer.v ===== *)
(** * A json-server backend as an instance of [RemoteService]

    The client's URLs point at [http://localhost:3001], the default port of
    the json-server backend.  This file models that backend from spec §6
    and json-server's documented behaviour:
    - its state [db] holds the [products] and [comments] collections as
      arrays, in insertion order;
    - a [POST] keeps the [id] of the body when it is truthy and not taken,
      fails with status 500 when it is taken, and otherwise assigns the
      largest id plus one ([create_id]);
    - a [PATCH] merges the body into the stored record, keeping its id;
    - a [DELETE] of a product also deletes the comments whose [productId]
      no longer names a product (json-server's dependent removal).
    Theorem [json_server_laws] shows it meets the contract [RemoteLaws]. *)

From Stdlib Require Import ZArith Lia.
From stdpp Require Import strings.
From stdpp Require Import base list decidable.
From S2P Require Import Prelude Types Remote.
Open Scope Z_scope.

Module JsonServer.

Record db := mkDb {
  db_products : list Product;
  db_comments : list CommentModel
}.

(** [createId]: largest id plus one, [1] for an empty collection. *)
Definition create_id (l : list Z) : Z :=
  match l with
  | [] => 1
  | x :: xs => js_max x xs + 1
  end.

(** [insert]: [doc.id = doc.id || createId(coll)], then the duplicate check. *)
Definition insert_product (extra : option Z) (d : ProductDraft) (s : db)
  : response * db :=
  let i := match extra with
           | Some j => if bool_decide (j = 0) then create_id (ids s.(db_products)) else j
           | None => create_id (ids s.(db_products))
           end in
  if bool_decide (i ∈ ids s.(db_products)) then (mkResponse 500 RNone, s)
  else (mkResponse 201 (RProduct (with_id i d)),
        mkDb (s.(db_products) ++ [with_id i d]) s.(db_comments)).

Definition insert_comment (d : CommentDraft) (s : db) : response * db :=
  let c := comment_with_id (create_id (comment_ids s.(db_comments))) d in
  (mkResponse 201 (RComment c), mkDb s.(db_products) (s.(db_comments) ++ [c])).

(** Comments whose [productId] still names a product. *)
Definition dependents_ok (ps : list Product) (cs : list CommentModel)
  : list CommentModel :=
  List.filter (λ c, bool_decide (c.(CM.productId) ∈ ids ps)) cs.

Definition dispatch_db (m : method) (e : endpoint) (b : payload) (s : db)
  : response * db :=
  match m, e, b with
  | GET, EProducts, _ => (mkResponse 200 (RProducts s.(db_products)), s)
  | GET, EProduct i, _ =>
      match find_product i s.(db_products) with
      | Some p => (mkResponse 200 (RProduct p), s)
      | None => (mkResponse 404 RNone, s)
      end
  | POST, EProducts, ProductBody x d => insert_product x d s
  | PATCH, EProduct i, PatchBody pa =>
      match find_product i s.(db_products) with
      | Some p =>
          let p' := patched pa p in
          (mkResponse 200 (RProduct p'),
           mkDb (replace_product p' s.(db_products)) s.(db_comments))
      | None => (mkResponse 404 RNone, s)
      end
  | DELETE, EProduct i, _ =>
      match find_product i s.(db_products) with
      | Some _ =>
          let ps := remove_product i s.(db_products) in
          (mkResponse 200 RNone, mkDb ps (dependents_ok ps s.(db_comments)))
      | None => (mkResponse 404 RNone, s)
      end
  | GET, ECommentsOf pid, _ =>
      (mkResponse 200 (RComments (comments_of pid s.(db_comments))), s)
  | POST, EComments, CommentBody d => insert_comment d s
  | DELETE, EComment i, _ =>
      match find_comment i s.(db_comments) with
      | Some _ =>
          (mkResponse 200 RNone,
           mkDb s.(db_products) (remove_comment i s.(db_comments)))
      | None => (mkResponse 404 RNone, s)
      end
  | _, _, _ => (mkResponse 404 RNone, s)
  end.

#[export] Instance json_server : RemoteService db := {
  dispatch := dispatch_db;
  srv_products := db_products;
  srv_comments := db_comments;
}.

Definition db_ok (s : db) : Prop :=
  NoDup (ids s.(db_products)) ∧ NoDup (comment_ids s.(db_comments)).

Lemma create_id_fresh l : create_id l ∉ l.
Proof. destruct l as [|x xs]; simpl; [apply not_elem_of_nil|apply js_max_fresh]. Qed.

Lemma insert_product_ok x d s : db_ok s → db_ok (snd (insert_product x d s)).
Proof.
  intros [Hp Hc]. unfold insert_product. case_bool_decide as Hin; [done|].
  split; simpl; [|done]. apply NoDup_ids_snoc; done.
Qed.

Lemma insert_comment_ok d s : db_ok s → db_ok (snd (insert_comment d s)).
Proof.
  intros [Hp Hc]. split; simpl; [done|].
  apply NoDup_comment_ids_snoc; [done|apply create_id_fresh].
Qed.

Lemma dispatch_db_ok m e b s : db_ok s → db_ok (snd (dispatch_db m e b s)).
Proof.
  intros Hs. pose proof Hs as [Hp Hc].
  destruct m, e, b; simpl; try done;
    repeat match goal with
    | |- context [match ?x with _ => _ end] => destruct x
    end; try done; try assumption;
    first [ by apply insert_product_ok | by apply insert_comment_ok
          | split; simpl; autorewrite with shop_rw; eauto with shop ].
Qed.

Lemma db_ok_ids s : db_ok s →
  NoDup (ids s.(db_products)) ∧ NoDup (comment_ids s.(db_comments)).
Proof. done. Qed.

Lemma db_law_create_with_id i d s : db_ok s → i ≠ 0 → i ∉ ids s.(db_products) →
  ∃ s', dispatch_db POST EProducts (ProductBody (Some i) d) s =
          (mkResponse 201 (RProduct (with_id i d)), s') ∧
        s'.(db_products) = s.(db_products) ++ [with_id i d] ∧
        s'.(db_comments) = s.(db_comments).
Proof.
  intros _ Hi Hn. simpl. unfold insert_product.
  rewrite (bool_decide_eq_false_2 (i = 0)), bool_decide_eq_false_2 by done.
  by eexists.
Qed.

Lemma db_law_create_dup i d s : db_ok s → i ≠ 0 → i ∈ ids s.(db_products) →
  (is_2xx (status (fst (dispatch_db POST EProducts (ProductBody (Some i) d) s)))
    = false) ∧
  snd (dispatch_db POST EProducts (ProductBody (Some i) d) s) = s.
Proof.
  intros _ Hi Hin. simpl. unfold insert_product.
  by rewrite (bool_decide_eq_false_2 (i = 0)), bool_decide_eq_true_2.
Qed.

Lemma db_law_patch i pa s : db_ok s →
  match find_product i s.(db_products) with
  | Some p => ∃ s', dispatch_db PATCH (EProduct i) (PatchBody pa) s =
                (mkResponse 200 (RProduct (patched pa p)), s') ∧
              s'.(db_products) = replace_product (patched pa p) s.(db_products) ∧
              s'.(db_comments) = s.(db_comments)
  | None => dispatch_db PATCH (EProduct i) (PatchBody pa) s = (mkResponse 404 RNone, s)
  end.
Proof. intros _. simpl. destruct (find_product i _); [by eexists|done]. Qed.

Lemma db_law_delete i s : db_ok s →
  match find_product i s.(db_products) with
  | Some _ => ∃ s', dispatch_db DELETE (EProduct i) NoBody s = (mkResponse 200 RNone, s') ∧
              s'.(db_products) = remove_product i s.(db_products)
  | None => dispatch_db DELETE (EProduct i) NoBody s = (mkResponse 404 RNone, s)
  end.
Proof. intros _. simpl. destruct (find_product i _); [by eexists|done]. Qed.

Lemma db_law_comment_create d s : db_ok s →
  ∃ i s', (i ∉ comment_ids s.(db_comments)) ∧
    dispatch_db POST EComments (CommentBody d) s =
      (mkResponse 201 (RComment (comment_with_id i d)), s') ∧
    s'.(db_comments) = s.(db_comments) ++ [comment_with_id i d] ∧
    s'.(db_products) = s.(db_products).
Proof.
  intros _. eexists _, _. split; [apply create_id_fresh|]. by split.
Qed.

Lemma db_law_comment_delete i s : db_ok s →
  match find_comment i s.(db_comments) with
  | Some _ => ∃ s', dispatch_db DELETE (EComment i) NoBody s = (mkResponse 200 RNone, s') ∧
              s'.(db_comments) = remove_comment i s.(db_comments) ∧
              s'.(db_products) = s.(db_products)
  | None => dispatch_db DELETE (EComment i) NoBody s = (mkResponse 404 RNone, s)
  end.
Proof. intros _. simpl. destruct (find_comment i _); [by eexists|done]. Qed.

#[export] Instance json_server_laws : RemoteLaws db := {
  srv_ok := db_ok;
  srv_ok_dispatch := dispatch_db_ok;
  srv_ok_ids := db_ok_ids;
  law_list s _ := eq_refl;
  law_get i s _ := eq_refl;
  law_create_with_id := db_law_create_with_id;
  law_create_dup := db_law_create_dup;
  law_patch := db_law_patch;
  law_delete := db_law_delete;
  law_comments_of pid s _ := eq_refl;
  law_comment_create := db_law_comment_create;
  law_comment_delete := db_law_comment_delete;
}.

End JsonServer.
