(* ===== verification/Service.v ===== *)
(** * The Sync Client: [src/src/features/products/ProductService.ts]

    Every exported function of the service is one [axios] call followed by
    [response.data].  The model makes the network explicit:
    - [net S] is the client's view of the world: the backend's state, a
      [schedule] saying how each successive request fares on the network
      ([Delivered], [LostRequest]: the backend never sees it,
      [LostResponse]: the backend applies it and the reply is lost), and the
      log [sent] of every request issued, in order; an empty schedule is a
      reliable network;
    - [axios_request] sends one request: it consumes one schedule entry,
      appends the request to [sent], and rejects with [TransportError] on a
      lost message and with [HttpError] on a status outside 2xx;
    - [response.data] is read at the type the TypeScript generic claims;
      a body of another shape is [UnexpectedBody] (JavaScript would carry
      on with the wrong value; the contract [RemoteLaws] rules it out).
    Theorems: each operation issues exactly the one request of its URL
    ([invoke_sent]); errors surface once with no retry; on a delivered
    request each operation returns what the contract says. *)

From Stdlib Require Import ZArith Lia.
From stdpp Require Import strings.
From stdpp Require Import base list decidable.
From S2P Require Import Prelude Types Remote.
Open Scope Z_scope.

Inductive delivery := Delivered | LostRequest | LostResponse.

Record net (S : Type) := mkNet {
  server : S;
  schedule : list delivery;
  sent : list request
}.
Arguments mkNet {S} server schedule sent.
Arguments server {S} n.
Arguments schedule {S} n.
Arguments sent {S} n.

Inductive http_error :=
| TransportError
| HttpError (st : Z)
| UnexpectedBody.

Section service.
Context {S : Type} `{!RemoteService S}.

Abbreviation Http := (St (net S) http_error).

(** One physical network call. *)
Definition axios_request (r : request) : Http response := λ n,
  let log := n.(sent) ++ [r] in
  match n.(schedule) with
  | LostRequest :: rest => (Err TransportError, mkNet n.(server) rest log)
  | LostResponse :: rest =>
      let '(_, s') := handle r n.(server) in
      (Err TransportError, mkNet s' rest log)
  | d => let '(resp, s') := handle r n.(server) in
         (if is_2xx resp.(status) then Ok resp else Err (HttpError resp.(status)),
          mkNet s' (tail d) log)
  end.

Definition axios_get (url : string) : Http response :=
  axios_request (mkRequest GET url NoBody).
Definition axios_post (url : string) (b : payload) : Http response :=
  axios_request (mkRequest POST url b).
Definition axios_patch (url : string) (b : payload) : Http response :=
  axios_request (mkRequest PATCH url b).
Definition axios_delete (url : string) : Http response :=
  axios_request (mkRequest DELETE url NoBody).

(** [response.data] read as [Product[]], [Product], [CommentModel[]] and
    [CommentModel]. *)
Definition data_products (r : response) : Http (list Product) :=
  match r.(data) with RProducts l => mret l | _ => throw UnexpectedBody end.
Definition data_product (r : response) : Http Product :=
  match r.(data) with RProduct p => mret p | _ => throw UnexpectedBody end.
Definition data_comments (r : response) : Http (list CommentModel) :=
  match r.(data) with RComments l => mret l | _ => throw UnexpectedBody end.
Definition data_comment (r : response) : Http CommentModel :=
  match r.(data) with RComment c => mret c | _ => throw UnexpectedBody end.

Definition baseUrl : string := "http://localhost:3001/products".

Definition product_url (i : Z) : string := baseUrl +:+ "/" +:+ js_String i.
Definition comments_of_url (pid : Z) : string :=
  "http://localhost:3001/comments?productId=" +:+ js_String pid.
Definition comments_url : string := "http://localhost:3001/comments".
Definition comment_url (i : Z) : string :=
  "http://localhost:3001/comments/" +:+ js_String i.

Definition fetchProducts : Http (list Product) :=
  r ← axios_get baseUrl; data_products r.

(** [addProduct(product)]: the object passed is sent whole, including an
    [id] the caller may have put in it. *)
Definition addProduct (extra_id : option Z) (product : ProductDraft)
  : Http Product :=
  r ← axios_post baseUrl (ProductBody extra_id product); data_product r.

Definition deleteProduct (i : Z) : Http unit :=
  _ ← axios_delete (product_url i); mret ().

Definition updateProduct (i : Z) (updatedData : ProductPatch) : Http Product :=
  r ← axios_patch (product_url i) (PatchBody updatedData); data_product r.

Definition fetchProductById (i : Z) : Http Product :=
  r ← axios_get (product_url i); data_product r.

Definition fetchComments (productId : Z) : Http (list CommentModel) :=
  r ← axios_get (comments_of_url productId); data_comments r.

Definition addComment (comment : CommentDraft) : Http CommentModel :=
  r ← axios_post comments_url (CommentBody comment); data_comment r.

Definition deleteComment (i : Z) : Http unit :=
  _ ← axios_delete (comment_url i); mret ().
End service.

(** ** Routing: every URL the service builds reaches its endpoint. *)

Lemma route_baseUrl : route baseUrl = Some EProducts.
Proof. reflexivity. Qed.

Lemma route_comments_url : route comments_url = Some EComments.
Proof. reflexivity. Qed.

Lemma route_product_url i : route (product_url i) = Some (EProduct i).
Proof.
  unfold route. change (product_url i) with (server_origin +:+ ("products/" +:+ js_String i)).
  rewrite !strip_prefix_app. simpl. by rewrite js_Number_js_String.
Qed.

Lemma route_comments_of_url pid : route (comments_of_url pid) = Some (ECommentsOf pid).
Proof.
  unfold route.
  change (comments_of_url pid)
    with (server_origin +:+ ("comments?productId=" +:+ js_String pid)).
  rewrite strip_prefix_app. simpl. rewrite string_app_nil_l.
  by rewrite js_Number_js_String.
Qed.

Lemma route_comment_url i : route (comment_url i) = Some (EComment i).
Proof.
  unfold route.
  change (comment_url i) with (server_origin +:+ ("comments/" +:+ js_String i)).
  rewrite strip_prefix_app. simpl. rewrite string_app_nil_l.
  by rewrite js_Number_js_String.
Qed.

(** ** One request per operation *)

(** The exported surface of the service: one constructor per exported
    function, with its arguments. *)
Inductive service_call :=
| CFetchProducts
| CAddProduct (extra_id : option Z) (d : ProductDraft)
| CDeleteProduct (i : Z)
| CUpdateProduct (i : Z) (pa : ProductPatch)
| CFetchProductById (i : Z)
| CFetchComments (pid : Z)
| CAddComment (d : CommentDraft)
| CDeleteComment (i : Z).

(** The request each exported function sends. *)
Definition call_request (c : service_call) : request :=
  match c with
  | CFetchProducts => mkRequest GET baseUrl NoBody
  | CAddProduct x d => mkRequest POST baseUrl (ProductBody x d)
  | CDeleteProduct i => mkRequest DELETE (product_url i) NoBody
  | CUpdateProduct i pa => mkRequest PATCH (product_url i) (PatchBody pa)
  | CFetchProductById i => mkRequest GET (product_url i) NoBody
  | CFetchComments pid => mkRequest GET (comments_of_url pid) NoBody
  | CAddComment d => mkRequest POST comments_url (CommentBody d)
  | CDeleteComment i => mkRequest DELETE (comment_url i) NoBody
  end.

Section calls.
Context {S : Type} `{!RemoteService S}.

(** Calling an exported function, discarding its value. *)
Definition invoke (c : service_call) : St (net S) http_error unit :=
  match c with
  | CFetchProducts => _ ← fetchProducts; mret ()
  | CAddProduct x d => _ ← addProduct x d; mret ()
  | CDeleteProduct i => deleteProduct i
  | CUpdateProduct i pa => _ ← updateProduct i pa; mret ()
  | CFetchProductById i => _ ← fetchProductById i; mret ()
  | CFetchComments pid => _ ← fetchComments pid; mret ()
  | CAddComment d => _ ← addComment d; mret ()
  | CDeleteComment i => deleteComment i
  end.

(** A continuation that only inspects a value and leaves the network
    alone, as [response.data] does. *)
Definition net_pure {A B} (k : A → St (net S) http_error B) : Prop :=
  ∀ a n, snd (k a n) = n.

Lemma run_state_bind_pure {A B} (m : St (net S) http_error A)
      (k : A → St (net S) http_error B) n :
  net_pure k → run_state (m ≫= k) n = run_state m n.
Proof.
  intros Hk. unfold run_state. st_unfold.
  destruct (m n) as [[a|e] n']; simpl; [apply Hk|done].
Qed.

Lemma net_pure_data_products : net_pure data_products.
Proof. intros r n. unfold data_products. by destruct (data r). Qed.
Lemma net_pure_data_product : net_pure data_product.
Proof. intros r n. unfold data_product. by destruct (data r). Qed.
Lemma net_pure_data_comments : net_pure data_comments.
Proof. intros r n. unfold data_comments. by destruct (data r). Qed.
Lemma net_pure_data_comment : net_pure data_comment.
Proof. intros r n. unfold data_comment. by destruct (data r). Qed.
Lemma net_pure_ret {A} : net_pure (λ _ : A, mret () : St (net S) http_error unit).
Proof. done. Qed.
Lemma net_pure_bind_ret {A B} (k : A → St (net S) http_error B) :
  net_pure k → net_pure (λ a, k a ≫= λ _, mret ()).
Proof.
  intros Hk a n. st_unfold. specialize (Hk a n).
  destruct (k a n) as [[]?]; simpl in *; congruence.
Qed.

Lemma axios_request_state r n :
  sent (run_state (axios_request r) n) = sent n ++ [r] ∧
  schedule (run_state (axios_request r) n) = tail (schedule n).
Proof.
  unfold run_state, axios_request.
  destruct (schedule n) as [|[] rest]; try destruct (handle r (server n)); done.
Qed.
End calls.

#[export] Hint Resolve net_pure_data_products net_pure_data_product
  net_pure_data_comments net_pure_data_comment net_pure_ret net_pure_bind_ret : shop.

#[export] Instance delivery_eq_dec : EqDecision delivery.
Proof. solve_decision. Defined.

(** The next request on schedule [l] reaches the backend and its reply
    reaches the client. *)
Definition next_delivered (l : list delivery) : bool :=
  match l with
  | [] | Delivered :: _ => true
  | _ => false
  end.

Section call_facts.
Context {S : Type} `{!RemoteService S}.

Lemma axios_lost_request r n rest :
  schedule n = LostRequest :: rest →
  axios_request r n = (Err TransportError, mkNet (server n) rest (sent n ++ [r])).
Proof. intros Hs. unfold axios_request. by rewrite Hs. Qed.

Lemma axios_lost_response r n rest :
  schedule n = LostResponse :: rest →
  axios_request r n =
    (Err TransportError, mkNet (snd (handle r (server n))) rest (sent n ++ [r])).
Proof. intros Hs. unfold axios_request. rewrite Hs. by destruct (handle r _). Qed.

Lemma axios_delivered r n resp s' :
  next_delivered (schedule n) = true → handle r (server n) = (resp, s') →
  axios_request r n =
    (if is_2xx resp.(status) then Ok resp else Err (HttpError resp.(status)),
     mkNet s' (tail (schedule n)) (sent n ++ [r])).
Proof.
  intros Hd Hh. unfold axios_request.
  destruct (schedule n) as [|[] rest]; try discriminate; by rewrite Hh.
Qed.

Lemma axios_delivered_ok r n resp s' :
  handle r (server n) = (resp, s') → next_delivered (schedule n) = true →
  is_2xx resp.(status) = true →
  axios_request r n = (Ok resp, mkNet s' (tail (schedule n)) (sent n ++ [r])).
Proof. intros Hh Hd H2. by rewrite (axios_delivered r n resp s'), H2. Qed.

Lemma axios_delivered_err r n resp s' :
  handle r (server n) = (resp, s') → next_delivered (schedule n) = true →
  is_2xx resp.(status) = false →
  axios_request r n =
    (Err (HttpError resp.(status)), mkNet s' (tail (schedule n)) (sent n ++ [r])).
Proof. intros Hh Hd H2. by rewrite (axios_delivered r n resp s'), H2. Qed.
End call_facts.

(** ** Theorems of the Sync Client *)

(** Unfold a service operation down to its [axios_request]. *)
Ltac unfold_ops :=
  unfold invoke, fetchProducts, addProduct, deleteProduct, updateProduct,
    fetchProductById, fetchComments, addComment, deleteComment,
    axios_get, axios_post, axios_patch, axios_delete.

Section service_theorems.
Context {S : Type} `{!RemoteService S}.

(** C11: every operation of the service performs exactly one physical
    network call, the request [call_request c] of its URL, and consumes
    exactly one entry of the network schedule, whatever the network and
    the backend do: there is no retry. *)
Theorem invoke_one_request (c : service_call) (n : net S) :
  sent (run_state (invoke c) n) = sent n ++ [call_request c] ∧
  schedule (run_state (invoke c) n) = tail (schedule n).
Proof.
  destruct c; unfold_ops;
    rewrite ?run_state_bind_pure by auto with shop; apply axios_request_state.
Qed.

(** C12: a lost message makes every operation reject with
    [TransportError], once: the request is logged, one schedule entry is
    consumed, and the backend's state is unchanged when the request was
    lost and changed as the request says when only the reply was lost. *)
Theorem invoke_transport_error (c : service_call) (n : net S) d rest :
  schedule n = d :: rest → d ≠ Delivered →
  invoke c n =
    (Err TransportError,
     mkNet (if decide (d = LostRequest) then server n
            else snd (handle (call_request c) (server n)))
           rest (sent n ++ [call_request c])).
Proof.
  intros Hs Hd.
  assert (axios_request (call_request c) n =
    (Err TransportError,
     mkNet (if decide (d = LostRequest) then server n
            else snd (handle (call_request c) (server n)))
           rest (sent n ++ [call_request c]))) as Hax.
  { destruct d; [done| |]; simpl.
    - by apply axios_lost_request.
    - by apply axios_lost_response. }
  destruct c; unfold_ops; simpl in Hax; repeat apply st_bind_err; exact Hax.
Qed.
End service_theorems.

Section delivered.
Context {S : Type} `{!RemoteService S} `{!RemoteLaws S}.

Lemma fetchProducts_delivered (n : net S) :
  srv_ok (server n) → next_delivered (schedule n) = true →
  fetchProducts n =
    (Ok (srv_products (server n)),
     mkNet (server n) (tail (schedule n)) (sent n ++ [call_request CFetchProducts])).
Proof.
  intros Hok Hd. unfold fetchProducts, axios_get.
  eapply st_bind_ok_eq.
  { apply axios_delivered_ok; [erewrite handle_route by apply route_baseUrl;
      by apply law_list|done|done]. }
  done.
Qed.

Lemma fetchProductById_delivered (n : net S) i :
  srv_ok (server n) → next_delivered (schedule n) = true →
  fetchProductById i n =
    (match find_product i (srv_products (server n)) with
     | Some p => Ok p
     | None => Err (HttpError 404)
     end,
     mkNet (server n) (tail (schedule n))
           (sent n ++ [call_request (CFetchProductById i)])).
Proof.
  intros Hok Hd. unfold fetchProductById, axios_get.
  pose proof (law_get i (server n) Hok) as Hl.
  destruct (find_product i (srv_products (server n))) as [p|] eqn:Hf.
  - eapply st_bind_ok_eq.
    { apply axios_delivered_ok;
        [by erewrite handle_route by apply route_product_url|done|done]. }
    done.
  - apply st_bind_err. apply (axios_delivered_err _ _ (mkResponse 404 RNone));
      [by erewrite handle_route by apply route_product_url|done|done].
Qed.

Lemma updateProduct_delivered (n : net S) i pa p :
  srv_ok (server n) → next_delivered (schedule n) = true →
  find_product i (srv_products (server n)) = Some p →
  ∃ s', updateProduct i pa n =
          (Ok (patched pa p),
           mkNet s' (tail (schedule n))
                 (sent n ++ [call_request (CUpdateProduct i pa)])) ∧
        srv_products s' = replace_product (patched pa p) (srv_products (server n)) ∧
        srv_ok s'.
Proof.
  intros Hok Hd Hf. pose proof (law_patch i pa (server n) Hok) as Hl.
  rewrite Hf in Hl. destruct Hl as (s' & Hdisp & Hps & _).
  exists s'. split; [|split; [done|]].
  - unfold updateProduct, axios_patch. eapply st_bind_ok_eq.
    { apply axios_delivered_ok;
        [erewrite handle_route by apply route_product_url; exact Hdisp|done|done]. }
    done.
  - pose proof (srv_ok_dispatch PATCH (EProduct i) (PatchBody pa) _ Hok) as H.
    by rewrite Hdisp in H.
Qed.

(** C3: on a reliable network, [updateProduct(id, partial)] followed by
    [fetchProductById(id)] returns the stored record with the patch
    applied: every field the patch carries, and all other fields as they
    were ([patched]). *)
Theorem update_then_get (n : net S) i pa p :
  srv_ok (server n) → schedule n = [] →
  find_product i (srv_products (server n)) = Some p →
  run_res (updateProduct i pa ≫= λ _, fetchProductById i) n = Ok (patched pa p).
Proof.
  intros Hok Hs Hf.
  destruct (updateProduct_delivered n i pa p Hok) as (s' & Hu & Hps & Hok');
    [by rewrite Hs|exact Hf|].
  unfold run_res. erewrite st_bind_ok by exact Hu.
  rewrite fetchProductById_delivered by (simpl; by rewrite ?Hs).
  simpl. rewrite Hps. erewrite find_replace_product; [done|done|].
  apply find_product_Some in Hf as [_ Hid]. by rewrite patched_id.
Qed.
End delivered.

Section delivered_writes.
Context {S : Type} `{!RemoteService S} `{!RemoteLaws S}.

Lemma dispatch_ok_after m e b s s' resp :
  srv_ok s → dispatch m e b s = (resp, s') → srv_ok s'.
Proof.
  intros Hok Hd. pose proof (srv_ok_dispatch m e b s Hok) as H. by rewrite Hd in H.
Qed.

Lemma addProduct_delivered (n : net S) i d :
  srv_ok (server n) → next_delivered (schedule n) = true →
  i ≠ 0 → i ∉ ids (srv_products (server n)) →
  ∃ s', addProduct (Some i) d n =
          (Ok (with_id i d),
           mkNet s' (tail (schedule n)) (sent n ++ [call_request (CAddProduct (Some i) d)])) ∧
        srv_products s' = srv_products (server n) ++ [with_id i d] ∧
        srv_ok s'.
Proof.
  intros Hok Hd Hi Hn.
  destruct (law_create_with_id i d (server n) Hok Hi Hn) as (s' & Hdisp & Hps & _).
  exists s'. split; [|split; [done|by eapply dispatch_ok_after]].
  unfold addProduct, axios_post. eapply st_bind_ok_eq.
  { apply axios_delivered_ok;
      [erewrite handle_route by apply route_baseUrl; exact Hdisp|done|done]. }
  done.
Qed.

(** The [POST] reaches the server, which creates the product, but its
    reply is lost: the call rejects. *)
Lemma addProduct_reply_lost (n : net S) i d rest :
  srv_ok (server n) → schedule n = LostResponse :: rest →
  i ≠ 0 → i ∉ ids (srv_products (server n)) →
  ∃ s', addProduct (Some i) d n =
          (Err TransportError, mkNet s' rest (sent n ++ [call_request (CAddProduct (Some i) d)])) ∧
        srv_products s' = srv_products (server n) ++ [with_id i d] ∧
        srv_ok s'.
Proof.
  intros Hok Hs Hi Hn.
  destruct (law_create_with_id i d (server n) Hok Hi Hn) as (s' & Hdisp & Hps & _).
  exists s'. split; [|split; [done|by eapply dispatch_ok_after]].
  unfold addProduct, axios_post. apply st_bind_err. rewrite (axios_lost_response _ _ rest Hs).
  erewrite handle_route by apply route_baseUrl. by rewrite Hdisp.
Qed.

Lemma deleteProduct_delivered (n : net S) i p :
  srv_ok (server n) → next_delivered (schedule n) = true →
  find_product i (srv_products (server n)) = Some p →
  ∃ s', deleteProduct i n =
          (Ok (), mkNet s' (tail (schedule n)) (sent n ++ [call_request (CDeleteProduct i)])) ∧
        srv_products s' = remove_product i (srv_products (server n)) ∧
        srv_ok s'.
Proof.
  intros Hok Hd Hf. pose proof (law_delete i (server n) Hok) as Hl. rewrite Hf in Hl.
  destruct Hl as (s' & Hdisp & Hps).
  exists s'. split; [|split; [done|by eapply dispatch_ok_after]].
  unfold deleteProduct, axios_delete. eapply st_bind_ok_eq.
  { apply axios_delivered_ok;
      [erewrite handle_route by apply route_product_url; exact Hdisp|done|done]. }
  done.
Qed.
End delivered_writes.

Section delivered_comments.
Context {S : Type} `{!RemoteService S} `{!RemoteLaws S}.

Lemma fetchComments_delivered (n : net S) pid :
  srv_ok (server n) → next_delivered (schedule n) = true →
  fetchComments pid n =
    (Ok (comments_of pid (srv_comments (server n))),
     mkNet (server n) (tail (schedule n)) (sent n ++ [call_request (CFetchComments pid)])).
Proof.
  intros Hok Hd. unfold fetchComments, axios_get. eapply st_bind_ok_eq.
  { apply axios_delivered_ok; [erewrite handle_route by apply route_comments_of_url;
      by apply law_comments_of|done|done]. }
  done.
Qed.

Lemma addComment_delivered (n : net S) d :
  srv_ok (server n) → next_delivered (schedule n) = true →
  ∃ i s', (i ∉ comment_ids (srv_comments (server n))) ∧
    addComment d n =
      (Ok (comment_with_id i d),
       mkNet s' (tail (schedule n)) (sent n ++ [call_request (CAddComment d)])) ∧
    srv_comments s' = srv_comments (server n) ++ [comment_with_id i d] ∧
    srv_ok s'.
Proof.
  intros Hok Hd.
  destruct (law_comment_create d (server n) Hok) as (i & s' & Hi & Hdisp & Hcs & _).
  exists i, s'. split; [done|]. split; [|split; [done|by eapply dispatch_ok_after]].
  unfold addComment, axios_post. eapply st_bind_ok_eq.
  { apply axios_delivered_ok;
      [erewrite handle_route by apply route_comments_url; exact Hdisp|done|done]. }
  done.
Qed.
End delivered_comments.

Section delivered_dup.
Context {S : Type} `{!RemoteService S} `{!RemoteLaws S}.

Lemma addProduct_dup_delivered (n : net S) i d :
  srv_ok (server n) → next_delivered (schedule n) = true →
  i ≠ 0 → i ∈ ids (srv_products (server n)) →
  ∃ st, addProduct (Some i) d n =
          (Err (HttpError st),
           mkNet (server n) (tail (schedule n)) (sent n ++ [call_request (CAddProduct (Some i) d)])).
Proof.
  intros Hok Hd Hi Hin. destruct (law_create_dup i d (server n) Hok Hi Hin) as [H2 Hs].
  destruct (dispatch POST EProducts (ProductBody (Some i) d) (server n)) as [resp s'] eqn:E.
  simpl in H2, Hs. subst s'. exists resp.(status).
  unfold addProduct, axios_post. apply st_bind_err.
  apply (axios_delivered_err _ _ resp); [|done|done].
  erewrite handle_route by apply route_baseUrl. exact E.
Qed.
End delivered_dup.

(** ** The backend's invariant under any network behaviour *)

Section any_network.
Context {S : Type} `{!RemoteService S} `{!RemoteLaws S}.

Lemma handle_srv_ok r s : srv_ok s → srv_ok (snd (handle r s)).
Proof. intros Hok. unfold handle. destruct (route _); [by apply srv_ok_dispatch|done]. Qed.

Lemma axios_request_srv_ok r n :
  srv_ok (server n) → srv_ok (server (snd (axios_request r n))).
Proof.
  intros Hok. unfold axios_request. pose proof (handle_srv_ok r _ Hok) as H.
  destruct (handle r (server n)) as [resp s'] eqn:E. simpl in H.
  destruct (schedule n) as [|[] rest]; done.
Qed.

(** Whatever the network does, a list [fetchProducts] resolves with is
    the backend's list at the time of the call. *)
Lemma fetchProducts_result (n n' : net S) l :
  srv_ok (server n) → fetchProducts n = (Ok l, n') → l = srv_products (server n).
Proof.
  intros Hok. unfold fetchProducts, axios_get, axios_request, mbind, St_bind, st_bind.
  erewrite handle_route by apply route_baseUrl. rewrite law_list by done.
  destruct (schedule n) as [|[] rest]; simpl; by intros [=].
Qed.

Lemma run_state_axios_bind {A} r (k : response → St (net S) http_error A) n :
  net_pure k → server (run_state (axios_request r ≫= k) n) =
               server (snd (axios_request r n)).
Proof. intros Hk. by rewrite run_state_bind_pure. Qed.
End any_network.

Section any_network_ops.
Context {S : Type} `{!RemoteService S} `{!RemoteLaws S}.

Lemma op_srv_ok {A} r (k : response → St (net S) http_error A) n :
  net_pure k → srv_ok (server n) → srv_ok (server (snd ((axios_request r ≫= k) n))).
Proof.
  intros Hk Hok. change (snd ((axios_request r ≫= k) n)) with (run_state (axios_request r ≫= k) n).
  rewrite run_state_axios_bind by done. by apply axios_request_srv_ok.
Qed.

Lemma fetchProducts_srv_ok n : srv_ok (server n) → srv_ok (server (snd (fetchProducts n))).
Proof. apply op_srv_ok, net_pure_data_products. Qed.
Lemma addProduct_srv_ok x d n : srv_ok (server n) → srv_ok (server (snd (addProduct x d n))).
Proof. apply op_srv_ok, net_pure_data_product. Qed.
Lemma deleteProduct_srv_ok i n : srv_ok (server n) → srv_ok (server (snd (deleteProduct i n))).
Proof. apply op_srv_ok, net_pure_ret. Qed.
End any_network_ops.

(** ** The backend's invariant across service calls, whatever the network
    does. *)
Section net_invariant.
Context {S : Type} `{!RemoteService S} `{!RemoteLaws S}.

Definition net_ok (n : net S) : Prop := srv_ok (server n).

(** Whatever the network does, [fetchProducts] keeps the backend's
    invariant and, when it resolves, yields products with distinct ids. *)
Lemma keeps_fetchProducts : keeps net_ok (λ l, NoDup (ids l)) fetchProducts.
Proof.
  intros n Hn. split; [by apply fetchProducts_srv_ok|].
  intros l Hl. rewrite (fetchProducts_result n (snd (fetchProducts n)) l Hn).
  - by apply srv_ok_ids.
  - by destruct (fetchProducts n); simpl in *; subst.
Qed.

(** A call whose continuation only reads the reply keeps the backend's
    invariant, whatever the network does. *)
Lemma keeps_axios {A} r (k : response → St (net S) http_error A) :
  net_pure k → keeps net_ok (λ _, True) (axios_request r ≫= k).
Proof. intros Hk n Hn. split; [by apply op_srv_ok|done]. Qed.

Ltac keeps_op := intros; unfold_ops; apply keeps_axios; auto with shop.

Lemma keeps_addProduct x d : keeps net_ok (λ _, True) (addProduct x d).
Proof. keeps_op. Qed.
Lemma keeps_deleteProduct i : keeps net_ok (λ _, True) (deleteProduct i).
Proof. keeps_op. Qed.
Lemma keeps_updateProduct i pa : keeps net_ok (λ _, True) (updateProduct i pa).
Proof. keeps_op. Qed.
Lemma keeps_fetchProductById i : keeps net_ok (λ _, True) (fetchProductById i).
Proof. keeps_op. Qed.
Lemma keeps_fetchComments pid : keeps net_ok (λ _, True) (fetchComments pid).
Proof. keeps_op. Qed.
Lemma keeps_addComment d : keeps net_ok (λ _, True) (addComment d).
Proof. keeps_op. Qed.
Lemma keeps_deleteComment i : keeps net_ok (λ _, True) (deleteComment i).
Proof. keeps_op. Qed.
End net_invariant.

#[export] Hint Resolve keeps_fetchProducts keeps_addProduct keeps_deleteProduct
  keeps_updateProduct keeps_fetchProductById keeps_fetchComments keeps_addComment
  keeps_deleteComment : shop.
