(* ===== verification/ServiceSpec.v ===== *)
(** * Specifications of the Sync Client on a reliable network

    For each of the eight operations of [ProductService.ts], a rule in
    weakest-precondition form ([Prelude.wp]): on a network that delivers
    every message ([reliable]: the backend satisfies its laws and the
    schedule is empty), the operation's outcome and the backend after it,
    for each answer the contract of spec §6 allows.  The handlers' proofs
    ([Sync]) compose these rules with [wp_bind] and [wp_catch] instead of
    computing each run. *)

From Stdlib Require Import ZArith Lia.
From stdpp Require Import strings.
From stdpp Require Import base list decidable.
From S2P Require Import Prelude Types Remote Service.
Open Scope Z_scope.

Section axios_wp.
Context {S : Type} `{!RemoteService S}.

(** One delivered call: the continuation runs on a 2xx answer, the call
    rejects with the status otherwise. *)
Lemma wp_axios_delivered {A} r (k : response → St (net S) http_error A) Q R (n : net S) resp s' :
  next_delivered (schedule n) = true → handle r (server n) = (resp, s') →
  wp (axios_request r ≫= k) Q R n =
    if is_2xx resp.(status)
    then wp (k resp) Q R (mkNet s' (tail (schedule n)) (sent n ++ [r]))
    else R (HttpError resp.(status)) (mkNet s' (tail (schedule n)) (sent n ++ [r])).
Proof.
  intros Hd Hh. rewrite wp_bind. unfold wp at 1.
  rewrite (axios_delivered r n resp s' Hd Hh). by destruct (is_2xx _).
Qed.
End axios_wp.

Section reliable.
Context {S : Type} `{!RemoteService S} `{!RemoteLaws S}.

(** The backend satisfies its laws and every message will be delivered. *)
Definition reliable (n : net S) : Prop := srv_ok (server n) ∧ schedule n = [].

(** The backend's products and comments after the call. *)
Definition net_after (n n' : net S) (ps : list Product) (cs : list CommentModel) : Prop :=
  reliable n' ∧ srv_products (server n') = ps ∧ srv_comments (server n') = cs.

Lemma reliable_same (n n' : net S) :
  reliable n → server n' = server n → schedule n' = [] →
  net_after n n' (srv_products (server n)) (srv_comments (server n)).
Proof. intros [Hok _] Hs Hsc. unfold net_after, reliable. by rewrite Hs. Qed.

(** Close the side conditions of [wp_axios_delivered]: the schedule and
    the backend's answer, given by a law. *)
Ltac delivered law url :=
  erewrite wp_axios_delivered;
    [| match goal with H : schedule _ = [] |- _ => by rewrite H end
     | erewrite handle_route by apply url; exact law].

Lemma wp_fetchProducts Q R (n : net S) :
  reliable n →
  (∀ n', net_after n n' (srv_products (server n)) (srv_comments (server n)) →
         Q (srv_products (server n)) n') →
  wp fetchProducts Q R n.
Proof.
  intros [Hok Hs] HQ. unfold fetchProducts, axios_get.
  delivered (law_list _ Hok) route_baseUrl. simpl.
  apply HQ, reliable_same; simpl; rewrite ?Hs; done.
Qed.

Lemma wp_fetchProductById i Q R (n : net S) :
  reliable n →
  (∀ p n', find_product i (srv_products (server n)) = Some p →
     net_after n n' (srv_products (server n)) (srv_comments (server n)) → Q p n') →
  (∀ e n', find_product i (srv_products (server n)) = None →
     net_after n n' (srv_products (server n)) (srv_comments (server n)) → R e n') →
  wp (fetchProductById i) Q R n.
Proof.
  intros [Hok Hs] HQ HR. unfold fetchProductById, axios_get.
  pose proof (law_get i _ Hok) as Hl.
  destruct (find_product i _) as [p|] eqn:Hf;
    delivered Hl route_product_url; simpl;
    [apply HQ|apply HR]; try done; apply reliable_same; simpl; rewrite ?Hs; done.
Qed.

Lemma wp_addProduct i d Q R (n : net S) :
  reliable n → i ≠ 0 →
  (∀ n', i ∉ ids (srv_products (server n)) →
     net_after n n' (srv_products (server n) ++ [with_id i d]) (srv_comments (server n)) →
     Q (with_id i d) n') →
  (∀ e n', i ∈ ids (srv_products (server n)) →
     net_after n n' (srv_products (server n)) (srv_comments (server n)) → R e n') →
  wp (addProduct (Some i) d) Q R n.
Proof.
  intros [Hok Hs] Hi HQ HR. unfold addProduct, axios_post.
  destruct (decide (i ∈ ids (srv_products (server n)))) as [Hin|Hin].
  - destruct (law_create_dup i d _ Hok Hi Hin) as [H2 Hst].
    destruct (dispatch POST EProducts _ _) as [resp s'] eqn:E. simpl in H2, Hst. subst s'.
    delivered E route_baseUrl. rewrite H2.
    apply HR, reliable_same; simpl; rewrite ?Hs; done.
  - destruct (law_create_with_id i d _ Hok Hi Hin) as (s' & E & Hps & Hcs).
    delivered E route_baseUrl. simpl. apply HQ; [done|].
    split_and!; [split|..]; simpl; rewrite ?Hs; try done.
    by eapply dispatch_ok_after.
Qed.

Lemma wp_deleteProduct i Q R (n : net S) :
  reliable n →
  (∀ n', i ∈ ids (srv_products (server n)) →
     reliable n' → srv_products (server n') = remove_product i (srv_products (server n)) →
     Q () n') →
  (∀ e n', i ∉ ids (srv_products (server n)) →
     net_after n n' (srv_products (server n)) (srv_comments (server n)) → R e n') →
  wp (deleteProduct i) Q R n.
Proof.
  intros [Hok Hs] HQ HR. unfold deleteProduct, axios_delete.
  pose proof (law_delete i _ Hok) as Hl.
  destruct (find_product i _) as [p|] eqn:Hf.
  - destruct Hl as (s' & E & Hps). delivered E route_product_url. simpl.
    apply find_product_Some in Hf as [Hp <-].
    apply HQ; [by apply list_elem_of_fmap; exists p| |done].
    split; simpl; rewrite ?Hs; [by eapply dispatch_ok_after|done].
  - delivered Hl route_product_url. simpl. apply HR; [by apply find_product_None|].
    apply reliable_same; simpl; rewrite ?Hs; done.
Qed.

Lemma wp_updateProduct i pa Q R (n : net S) :
  reliable n →
  (∀ p n', find_product i (srv_products (server n)) = Some p →
     net_after n n' (replace_product (patched pa p) (srv_products (server n)))
       (srv_comments (server n)) →
     Q (patched pa p) n') →
  (∀ e n', find_product i (srv_products (server n)) = None →
     net_after n n' (srv_products (server n)) (srv_comments (server n)) → R e n') →
  wp (updateProduct i pa) Q R n.
Proof.
  intros [Hok Hs] HQ HR. unfold updateProduct, axios_patch.
  pose proof (law_patch i pa _ Hok) as Hl.
  destruct (find_product i _) as [p|] eqn:Hf.
  - destruct Hl as (s' & E & Hps & Hcs). delivered E route_product_url. simpl.
    apply HQ; [done|]. split_and!; [split|..]; simpl; rewrite ?Hs; try done.
    by eapply dispatch_ok_after.
  - delivered Hl route_product_url. simpl. apply HR; [done|].
    apply reliable_same; simpl; rewrite ?Hs; done.
Qed.

Lemma wp_fetchComments pid Q R (n : net S) :
  reliable n →
  (∀ n', net_after n n' (srv_products (server n)) (srv_comments (server n)) →
     Q (comments_of pid (srv_comments (server n))) n') →
  wp (fetchComments pid) Q R n.
Proof.
  intros [Hok Hs] HQ. unfold fetchComments, axios_get.
  delivered (law_comments_of pid _ Hok) route_comments_of_url. simpl.
  apply HQ, reliable_same; simpl; rewrite ?Hs; done.
Qed.

Lemma wp_addComment d Q R (n : net S) :
  reliable n →
  (∀ i n', i ∉ comment_ids (srv_comments (server n)) →
     net_after n n' (srv_products (server n))
       (srv_comments (server n) ++ [comment_with_id i d]) →
     Q (comment_with_id i d) n') →
  wp (addComment d) Q R n.
Proof.
  intros [Hok Hs] HQ. unfold addComment, axios_post.
  destruct (law_comment_create d _ Hok) as (i & s' & Hi & E & Hcs & Hps).
  delivered E route_comments_url. simpl. apply HQ; [done|].
  split_and!; [split|..]; simpl; rewrite ?Hs; try done. by eapply dispatch_ok_after.
Qed.

Lemma wp_deleteComment i Q R (n : net S) :
  reliable n →
  (∀ n', net_after n n' (srv_products (server n)) (remove_comment i (srv_comments (server n))) →
     Q () n') →
  (∀ e n', find_comment i (srv_comments (server n)) = None →
     net_after n n' (srv_products (server n)) (srv_comments (server n)) → R e n') →
  wp (deleteComment i) Q R n.
Proof.
  intros [Hok Hs] HQ HR. unfold deleteComment, axios_delete.
  pose proof (law_comment_delete i _ Hok) as Hl.
  destruct (find_comment i _) as [c|] eqn:Hf.
  - destruct Hl as (s' & E & Hcs & Hps). delivered E route_comment_url. simpl.
    apply HQ. split_and!; [split|..]; simpl; rewrite ?Hs; try done.
    by eapply dispatch_ok_after.
  - delivered Hl route_comment_url. simpl. apply HR; [done|].
    apply reliable_same; simpl; rewrite ?Hs; done.
Qed.
End reliable.

(** ** Specifications for any network

    Whatever the schedule, a call either rejects (the backend still
    satisfies its laws) or succeeds with the answer the backend gave: the
    values a page receives are those the contract describes. *)
Section any_network.
Context {S : Type} `{!RemoteService S} `{!RemoteLaws S}.

Lemma wp_axios_any {A} r (k : response → St (net S) http_error A) Q R (n : net S) :
  srv_ok (server n) →
  (∀ e n', srv_ok (server n') → R e n') →
  (∀ resp n', handle r (server n) = (resp, server n') → srv_ok (server n') →
     is_2xx resp.(status) = true → wp (k resp) Q R n') →
  wp (axios_request r ≫= k) Q R n.
Proof.
  intros Hok HR HQ. rewrite wp_bind. unfold wp at 1, axios_request.
  pose proof (handle_srv_ok r _ Hok) as Hh.
  destruct (handle r (server n)) as [resp s'] eqn:E. simpl in Hh.
  destruct (schedule n) as [|[] rest]; simpl;
    try (destruct (is_2xx _) eqn:H2; [by apply HQ|by apply HR]).
  - by apply HR.
  - by apply HR.
Qed.

Lemma wp_fetchProductById_any i Q R (n : net S) :
  srv_ok (server n) →
  (∀ p n', p.(id) = i → srv_ok (server n') → Q p n') →
  (∀ e n', srv_ok (server n') → R e n') →
  wp (fetchProductById i) Q R n.
Proof.
  intros Hok HQ HR. unfold fetchProductById, axios_get. apply wp_axios_any; [done|done|].
  intros resp n' Hh Hok' H2. erewrite handle_route in Hh by apply route_product_url. rewrite law_get in Hh by done.
  destruct (find_product i _) as [p|] eqn:Hf; injection Hh as <- _; [|by vm_compute in H2].
  apply HQ; [|done]. by apply find_product_Some in Hf as [_ ?].
Qed.

Lemma wp_fetchComments_any pid Q R (n : net S) :
  srv_ok (server n) →
  (∀ cs n', Forall (λ cm, cm.(CM.productId) = pid) cs → srv_ok (server n') → Q cs n') →
  (∀ e n', srv_ok (server n') → R e n') →
  wp (fetchComments pid) Q R n.
Proof.
  intros Hok HQ HR. unfold fetchComments, axios_get. apply wp_axios_any; [done|done|].
  intros resp n' Hh Hok' H2.
  erewrite handle_route in Hh by apply route_comments_of_url.
  rewrite law_comments_of in Hh by done.
  injection Hh as <- _. apply HQ; [|done]. unfold comments_of.
  apply Forall_forall. intros cm Hcm. apply filter_In in Hcm as [_ Hcm].
  by apply bool_decide_eq_true in Hcm.
Qed.

Lemma wp_updateProduct_any i pa Q R (n : net S) :
  srv_ok (server n) →
  (∀ q n', q.(id) = i → srv_ok (server n') → Q q n') →
  (∀ e n', srv_ok (server n') → R e n') →
  wp (updateProduct i pa) Q R n.
Proof.
  intros Hok HQ HR. unfold updateProduct, axios_patch. apply wp_axios_any; [done|done|].
  intros resp n' Hh Hok' H2. erewrite handle_route in Hh by apply route_product_url.
  pose proof (law_patch i pa _ Hok) as Hl.
  destruct (find_product i _) as [p|] eqn:Hf.
  - destruct Hl as (s' & E & _). rewrite E in Hh. injection Hh as <- _.
    apply HQ; [|done]. apply find_product_Some in Hf as [_ <-]. apply patched_id.
  - rewrite Hl in Hh. injection Hh as <- _. by vm_compute in H2.
Qed.

Lemma wp_addComment_any d Q R (n : net S) :
  srv_ok (server n) →
  (∀ cm n', cm.(CM.productId) = d.(cd_productId) → srv_ok (server n') → Q cm n') →
  (∀ e n', srv_ok (server n') → R e n') →
  wp (addComment d) Q R n.
Proof.
  intros Hok HQ HR. unfold addComment, axios_post. apply wp_axios_any; [done|done|].
  intros resp n' Hh Hok' H2. erewrite handle_route in Hh by apply route_comments_url.
  destruct (law_comment_create d _ Hok) as (i & s' & _ & E & _). rewrite E in Hh.
  injection Hh as <- _. by apply HQ.
Qed.

Lemma wp_any_srv_ok {A} (m : St (net S) http_error A) Q R (n : net S) :
  keeps net_ok (λ _, True) m → srv_ok (server n) →
  (∀ a n', srv_ok (server n') → Q a n') → (∀ e n', srv_ok (server n') → R e n') →
  wp m Q R n.
Proof.
  intros Hm Hok HQ HR. destruct (Hm n Hok) as [Hn _]. unfold wp.
  destruct (m n) as [[]]; simpl in Hn; auto.
Qed.
End any_network.
