(* ===== verification/Slice.v ===== *)
(** * The Catalog Store: the Redux slice [features/products/productSlice]

    The pages import [setProducts], [addProduct], [deleteProduct] and
    [updateProduct] from [../features/products/productSlice] and read
    [state.products.products]; that file is not part of the sources given,
    so the slice is modelled from spec §4.2 (replace-all, add-one,
    remove-by-id) and from its use in [ProductDetailPage] (replace the
    record with the same id in place, as a Redux Toolkit reducer with
    [findIndex] does).  The store's invariant is that product ids are
    unique ([store_wf]); [reduce_wf] shows every action that respects its
    precondition keeps it. *)

From Stdlib Require Import ZArith Lia.
From stdpp Require Import strings.
From stdpp Require Import base list decidable.
From S2P Require Import Prelude Types.
Open Scope Z_scope.

Module ProductSlice.

(** [state.products]: the slice's state. *)
Record ProductsState := mkProductsState { products : list Product }.

(** [RootState]: the store holds the slice under the key [products]. *)
Record RootState := mkRootState { products_slice : ProductsState }.

(** [useSelector((state) => state.products.products)] *)
Definition select_products (s : RootState) : list Product :=
  s.(products_slice).(products).

(** The slice's action creators. *)
Inductive action :=
| setProducts (payload : list Product)
| addProduct (payload : Product)
| deleteProduct (payload : Z)
| updateProduct (payload : Product).

(** [state.products[state.products.findIndex(p => p.id === q.id)] = q] when
    the index is found. *)
Fixpoint replace_first (q : Product) (l : list Product) : list Product :=
  match l with
  | [] => []
  | p :: l' => if bool_decide (p.(id) = q.(id)) then q :: l' else p :: replace_first q l'
  end.

Definition reduce_products (a : action) (l : list Product) : list Product :=
  match a with
  | setProducts ps => ps
  | addProduct p => l ++ [p]
  | deleteProduct i => remove_product i l
  | updateProduct q => replace_first q l
  end.

(** [dispatch(a)] *)
Definition reduce (a : action) (s : RootState) : RootState :=
  mkRootState (mkProductsState (reduce_products a (select_products s))).

(** Ids in the store are unique. *)
Definition store_wf (s : RootState) : Prop := NoDup (ids (select_products s)).

(** What an action must satisfy for the store to stay well formed. *)
Definition action_ok (a : action) (s : RootState) : Prop :=
  match a with
  | setProducts ps => NoDup (ids ps)
  | addProduct p => p.(id) ∉ ids (select_products s)
  | deleteProduct _ | updateProduct _ => True
  end.

Lemma ids_replace_first q l : ids (replace_first q l) = ids l.
Proof.
  induction l as [|p l IH]; simpl; [done|].
  case_bool_decide as Hp; simpl; [by rewrite Hp|by rewrite IH].
Qed.

(** Every action dispatched under its precondition keeps the ids of
    the Catalog Store unique. *)
Theorem reduce_wf (a : action) (s : RootState) :
  store_wf s → action_ok a s → store_wf (reduce a s).
Proof.
  unfold store_wf, action_ok, reduce, select_products. simpl.
  destruct a as [ps|p|i|q]; simpl; intros Hs Ha.
  - done.
  - by apply NoDup_ids_snoc.
  - by apply NoDup_ids_remove.
  - by rewrite ids_replace_first.
Qed.

End ProductSlice.
