(* ===== verification/Sort.v ===== *)
(** * [Array.prototype.sort] with a comparator

    [ProductListPage] sorts with [[...products].sort((a, b) => ...)].
    Since ES2019 [sort] must be stable; the order it returns for a
    consistent comparator (one that is a total preorder) is then fixed.
    The model [js_sort] is insertion sort, which is stable, and the theorem
    [stable_sort_unique] shows that every stable sort (V8's TimSort
    included) returns exactly the list [js_sort] returns: a sorted
    list whose every class of equal elements is in input order is unique.

    The comparator's contract is the [Section]'s hypotheses: the sign is
    antisymmetric ([cmp_antisym]) and [cmp a b <= 0] is transitive
    ([cmp_trans]). *)

From Stdlib Require Import ZArith Lia Sorting.Sorted Sorting.Permutation.
From stdpp Require Import strings.
From stdpp Require Import base list decidable.
From S2P Require Import Prelude.
Open Scope Z_scope.

Section js_sort.
Context {A : Type} (cmp : A → A → Z).

(** Insert [x] before the first element it does not come after. *)
Fixpoint insert_by (x : A) (l : list A) : list A :=
  match l with
  | [] => [x]
  | y :: l' => if cmp x y <=? 0 then x :: y :: l' else y :: insert_by x l'
  end.

Fixpoint js_sort (l : list A) : list A :=
  match l with
  | [] => []
  | x :: l' => insert_by x (js_sort l')
  end.

(** [a] comes no later than [b]. *)
Definition cmp_le (a b : A) : Prop := cmp a b ≤ 0.

(** [b] compares equal to [k]: the class of [k]. *)
Definition same_class (k b : A) : bool := cmp k b =? 0.

Lemma insert_by_perm x l : insert_by x l ≡ₚ x :: l.
Proof.
  induction l as [|y l IH]; simpl; [done|].
  destruct (cmp x y <=? 0); [done|]. rewrite IH. constructor.
Qed.

Lemma js_sort_perm l : js_sort l ≡ₚ l.
Proof.
  induction l as [|x l IH]; simpl; [done|]. by rewrite insert_by_perm, IH.
Qed.

Section consistent.
Hypothesis cmp_antisym : ∀ a b, Z.sgn (cmp b a) = - Z.sgn (cmp a b).
Hypothesis cmp_trans : ∀ a b c, cmp a b ≤ 0 → cmp b c ≤ 0 → cmp a c ≤ 0.

Lemma cmp_refl a : cmp a a = 0.
Proof. pose proof (cmp_antisym a a). destruct (cmp a a); simpl in *; lia. Qed.

Lemma cmp_flip a b : 0 < cmp a b → cmp b a < 0.
Proof. intros H. pose proof (cmp_antisym a b). destruct (cmp a b), (cmp b a); simpl in *; lia. Qed.

Lemma cmp_le_antisym a b : cmp a b ≤ 0 → cmp b a ≤ 0 → cmp a b = 0.
Proof. intros H1 H2. pose proof (cmp_antisym a b). destruct (cmp a b), (cmp b a); simpl in *; lia. Qed.

Lemma cmp_eq_sym a b : cmp a b = 0 → cmp b a = 0.
Proof. intros H. pose proof (cmp_antisym a b). rewrite H in *. destruct (cmp b a); simpl in *; lia. Qed.

#[local] Instance cmp_le_trans : Transitive cmp_le.
Proof. intros a b c. apply cmp_trans. Qed.

Lemma insert_by_sorted x l : Sorted cmp_le l → Sorted cmp_le (insert_by x l).
Proof.
  induction 1 as [|y l Hl IH Hhd]; simpl; [repeat constructor|].
  destruct (Z.leb_spec (cmp x y) 0) as [Hxy|Hxy].
  - by repeat constructor.
  - constructor; [done|]. apply cmp_flip in Hxy.
    destruct l as [|z l]; simpl.
    + constructor. unfold cmp_le. lia.
    + inversion Hhd as [|? ? Hyz]; subst.
      destruct (cmp x z <=? 0); constructor; unfold cmp_le in *; lia.
Qed.

(** The result of [js_sort] is ordered by the comparator. *)
Lemma js_sort_sorted l : Sorted cmp_le (js_sort l).
Proof. induction l; simpl; [constructor|by apply insert_by_sorted]. Qed.

Lemma same_class_trans k x y :
  same_class k x = true → same_class k y = true → cmp x y = 0.
Proof.
  unfold same_class. rewrite !Z.eqb_eq. intros Hx Hy.
  apply cmp_le_antisym; eapply cmp_trans; rewrite ?Hx, ?Hy; try lia.
  - apply cmp_eq_sym in Hx. lia.
  - apply cmp_eq_sym in Hy. lia.
Qed.

Lemma filter_insert_by k x l :
  List.filter (same_class k) (insert_by x l) =
  if same_class k x then x :: List.filter (same_class k) l
  else List.filter (same_class k) l.
Proof.
  induction l as [|y l IH]; simpl; [done|].
  destruct (Z.leb_spec (cmp x y) 0) as [Hxy|Hxy]; simpl; [done|].
  rewrite IH.
  destruct (same_class k x) eqn:Hx, (same_class k y) eqn:Hy; try done.
  pose proof (same_class_trans k x y Hx Hy). lia.
Qed.

(** [js_sort] is stable: the elements of each class of equal
    elements keep their input order. *)
Theorem js_sort_stable l k :
  List.filter (same_class k) (js_sort l) = List.filter (same_class k) l.
Proof.
  induction l as [|x l IH]; simpl; [done|].
  rewrite filter_insert_by, IH. by destruct (same_class k x).
Qed.

Lemma insert_by_sorted_head x l :
  Sorted cmp_le (x :: l) → insert_by x l = x :: l.
Proof.
  destruct l as [|y l]; [done|]. intros Hs. inversion Hs as [|? ? _ Hhd]; subst.
  inversion Hhd; subst. simpl. unfold cmp_le in *. by rewrite (proj2 (Z.leb_le _ _)).
Qed.

Lemma js_sort_sorted_id l : Sorted cmp_le l → js_sort l = l.
Proof.
  induction l as [|x l IH]; intros Hs; simpl; [done|].
  rewrite IH by (by inversion Hs). by apply insert_by_sorted_head.
Qed.

(** Sorting twice gives the order sorting once gives. *)
Theorem js_sort_idempotent l : js_sort (js_sort l) = js_sort l.
Proof. apply js_sort_sorted_id, js_sort_sorted. Qed.

Lemma sorted_head_le a l y : Sorted cmp_le (a :: l) → y ∈ a :: l → cmp a y ≤ 0.
Proof.
  intros Hs Hy. apply elem_of_cons in Hy as [->|Hy]; [rewrite cmp_refl; lia|].
  apply Sorted_extends in Hs; [|apply cmp_le_trans].
  rewrite Forall_forall in Hs. apply Hs. by apply list_elem_of_In.
Qed.

Lemma same_class_self k : same_class k k = true.
Proof. unfold same_class. by rewrite cmp_refl. Qed.

Lemma in_of_filter_cons k l x r :
  List.filter (same_class k) l = x :: r → x ∈ l.
Proof.
  intros Hf. assert (In x (List.filter (same_class k) l)) as H by (rewrite Hf; left; done).
  apply filter_In in H as [H _]. by apply list_elem_of_In.
Qed.

Lemma sorted_class_unique l1 l2 :
  Sorted cmp_le l1 → Sorted cmp_le l2 →
  (∀ k, List.filter (same_class k) l1 = List.filter (same_class k) l2) →
  l1 = l2.
Proof.
  revert l2. induction l1 as [|a r IH]; intros l2 H1 H2 Hf.
  - destruct l2 as [|b s]; [done|]. specialize (Hf b). simpl in Hf.
    rewrite same_class_self in Hf. discriminate.
  - destruct l2 as [|b s].
    { specialize (Hf a). simpl in Hf. rewrite same_class_self in Hf. discriminate. }
    assert (a ∈ b :: s) as Ha_in.
    { apply (in_of_filter_cons a _ a (List.filter (same_class a) r)).
      rewrite <-(Hf a). simpl. by rewrite same_class_self. }
    assert (b ∈ a :: r) as Hb_in.
    { apply (in_of_filter_cons b _ b (List.filter (same_class b) s)).
      rewrite (Hf b). simpl. by rewrite same_class_self. }
    assert (cmp a b = 0) as Hab.
    { apply cmp_le_antisym; eapply sorted_head_le; eauto. }
    pose proof (Hf a) as Ha. simpl in Ha. rewrite same_class_self in Ha.
    assert (same_class a b = true) as Hcab by (unfold same_class; by rewrite Hab).
    rewrite Hcab in Ha. injection Ha as <- _. f_equal.
    apply IH; [by inversion H1|by inversion H2|].
    intros k. specialize (Hf k). simpl in Hf.
    destruct (same_class k a); [by injection Hf|done].
Qed.

(** The model is the only stable sort: a list ordered by the
    comparator in which every class of equal elements appears in input
    order is the list [js_sort] returns.  Any conforming implementation
    of [Array.prototype.sort] therefore agrees with [js_sort]. *)
Theorem stable_sort_unique l l' :
  Sorted cmp_le l' →
  (∀ k, List.filter (same_class k) l' = List.filter (same_class k) l) →
  l' = js_sort l.
Proof.
  intros Hs Hst. apply sorted_class_unique; [done|apply js_sort_sorted|].
  intros k. by rewrite Hst, js_sort_stable.
Qed.
End consistent.
End js_sort.

(** The sort reads the comparator only through the sign test
    [cmp a b <= 0]: two comparators with the same test sort alike. *)
Lemma js_sort_ext {A} (cmp cmp' : A → A → Z) l :
  (∀ a b, (cmp a b <=? 0) = (cmp' a b <=? 0)) → js_sort cmp l = js_sort cmp' l.
Proof.
  intros Hc. induction l as [|x l IH]; simpl; [done|]. rewrite IH.
  generalize (js_sort cmp' l). intros m. induction m as [|y m IHm]; simpl; [done|].
  by rewrite Hc, IHm.
Qed.
