(* ===== verification/World.v ===== *)
(** * The world a page's handlers act on

    A React page keeps its own state ([useState] hooks) and acts on three
    shared things: the network (through the service), the Redux store
    (through [dispatch]) and the browser's output ([alert],
    [console.error]).  [page P S] pairs a page's local state [P] with the
    shared [world S]; a handler is a computation of [St (page P S)
    http_error unit].  The combinators lift a service call, a store
    dispatch, a local state update and an output into that monad, with
    their weakest-precondition rules and the invariants they keep. *)

From Stdlib Require Import ZArith.
From stdpp Require Import strings.
From stdpp Require Import base list decidable.
From S2P Require Import Prelude Types Remote Service Slice.
Open Scope Z_scope.

(** What the page shows to the user outside its rendering. *)
Inductive ui_effect :=
| Alert (msg : string)
| ConsoleError (msg : string).

(** [<Modal isOpen={b} ...>children</Modal>]: the component (not in the
    sources) shows its children only while [isOpen]. *)
Definition modal {A} (isOpen : bool) (children : A) : option A :=
  if isOpen then Some children else None.

Record world (S : Type) := mkWorld {
  w_net : net S;
  w_store : ProductSlice.RootState;
  w_log : list ui_effect
}.
Arguments mkWorld {S} w_net w_store w_log.
Arguments w_net {S} w.
Arguments w_store {S} w.
Arguments w_log {S} w.

Record page (P S : Type) := mkPage { local : P; shared : world S }.
Arguments mkPage {P S} local shared.
Arguments local {P S} p.
Arguments shared {P S} p.

Section lifts.
Context {P S : Type}.

Abbreviation Handler := (St (page P S) http_error).

Definition set_net (n : net S) (c : page P S) : page P S :=
  mkPage c.(local) (mkWorld n c.(shared).(w_store) c.(shared).(w_log)).

(** [await service(...)] *)
Definition call {A} (m : St (net S) http_error A) : Handler A :=
  zoom (λ c, c.(shared).(w_net)) set_net m.

(** [dispatch(action)] *)
Definition dispatch_action (a : ProductSlice.action) : Handler unit :=
  modify (λ c, mkPage c.(local)
    (mkWorld c.(shared).(w_net) (ProductSlice.reduce a c.(shared).(w_store))
             c.(shared).(w_log))).

(** A [setState] call of the page. *)
Definition set_local (f : P → P) : Handler unit :=
  modify (λ c, mkPage (f c.(local)) c.(shared)).

Definition emit (e : ui_effect) : Handler unit :=
  modify (λ c, mkPage c.(local)
    (mkWorld c.(shared).(w_net) c.(shared).(w_store) (c.(shared).(w_log) ++ [e]))).

(** [alert(msg)] and [console.error(msg, error)]. *)
Definition alert (msg : string) : Handler unit := emit (Alert msg).
Definition console_error (msg : string) : Handler unit := emit (ConsoleError msg).

Lemma call_run {A} (m : St (net S) http_error A) (c : page P S) :
  call m c = let '(r, n) := m c.(shared).(w_net) in (r, set_net n c).
Proof. reflexivity. Qed.

Lemma call_ok {A} (m : St (net S) http_error A) (c : page P S) a n' :
  m c.(shared).(w_net) = (Ok a, n') → call m c = (Ok a, set_net n' c).
Proof. intros Hm. rewrite call_run. by rewrite Hm. Qed.

Lemma call_err {A} (m : St (net S) http_error A) (c : page P S) e n' :
  m c.(shared).(w_net) = (Err e, n') → call m c = (Err e, set_net n' c).
Proof. intros Hm. rewrite call_run. by rewrite Hm. Qed.
End lifts.

(** ** The world's invariant.

    The Catalog Store holds products with distinct ids and the backend's
    state satisfies its laws ([srv_ok]).  The lifts keep it: a service call
    cannot touch the store, and a dispatch keeps it when its action meets
    [ProductSlice.action_ok]. *)
Section world_invariant.
Context {P S : Type} `{!RemoteService S} `{!RemoteLaws S}.

Definition world_ok (c : page P S) : Prop :=
  ProductSlice.store_wf c.(shared).(w_store) ∧ srv_ok (server c.(shared).(w_net)).

Lemma keeps_call {A} (R : A → Prop) (m : St (net S) http_error A) :
  keeps net_ok R m → keeps world_ok R (call m).
Proof.
  intros Hm c [Hs Hn]. rewrite call_run.
  destruct (Hm _ Hn) as [Hn' HR]. destruct (m _) as [r n']. by repeat split.
Qed.

Lemma keeps_dispatch (a : ProductSlice.action) :
  (∀ c : page P S, world_ok c → ProductSlice.action_ok a c.(shared).(w_store)) →
  keeps world_ok (λ _, True) (dispatch_action a).
Proof.
  intros Ha. apply keeps_modify. intros c Hc. pose proof (Ha c Hc).
  destruct Hc. split; simpl; [by apply ProductSlice.reduce_wf|done].
Qed.

Lemma keeps_set_local f : keeps world_ok (λ _, True) (set_local f).
Proof. by apply keeps_modify. Qed.

Lemma keeps_emit e : keeps world_ok (λ _, True) (emit e).
Proof. by apply keeps_modify. Qed.

Lemma keeps_alert msg : keeps world_ok (λ _, True) (alert msg).
Proof. apply keeps_emit. Qed.

Lemma keeps_console_error msg : keeps world_ok (λ _, True) (console_error msg).
Proof. apply keeps_emit. Qed.
End world_invariant.

#[export] Hint Resolve keeps_set_local keeps_emit keeps_alert keeps_console_error : shop.

(** ** Invariants of a page's local state

    A service call, a dispatch and an output leave the page's own state
    alone; a [setState] keeps an invariant of it when its update does. *)
Section local_invariant.
Context {P S : Type} (J : P → Prop).

Definition local_ok (c : page P S) : Prop := J c.(local).

Lemma keeps_call_local {A} (m : St (net S) http_error A) :
  keeps local_ok (λ _, True) (call m).
Proof. intros c Hc. rewrite call_run. by destruct (m _). Qed.

Lemma keeps_dispatch_local a : keeps local_ok (λ _, True) (dispatch_action a).
Proof. by apply keeps_modify. Qed.

Lemma keeps_emit_local e : keeps local_ok (λ _, True) (emit e).
Proof. by apply keeps_modify. Qed.

Lemma keeps_set_local_local f :
  (∀ lp, J lp → J (f lp)) → keeps local_ok (λ _, True) (set_local f).
Proof. intros Hf. apply keeps_modify. intros c Hc. by apply Hf. Qed.
End local_invariant.

(** Take a handler apart along its binds, [catch]es and branches, closing
    each step with the lemmas above and the service's [keeps_*] lemmas. *)
Ltac keeps_solve :=
  repeat match goal with
  | |- keeps _ _ (catch _ _) => apply keeps_catch; [|intros ?]
  | |- keeps _ _ (_ ≫= _) => eapply keeps_bind; [|intros ? ?]
  | |- keeps _ _ get_st => apply keeps_get
  | |- keeps (local_ok _) _ (call _) => apply keeps_call_local
  | |- keeps (local_ok _) _ (dispatch_action _) => apply keeps_dispatch_local
  | |- keeps (local_ok _) _ (emit _) => apply keeps_emit_local
  | |- keeps (local_ok _) _ (alert _) => apply keeps_emit_local
  | |- keeps (local_ok _) _ (console_error _) => apply keeps_emit_local
  | |- keeps (local_ok _) _ (set_local _) => apply keeps_set_local_local
  | |- keeps _ _ (call _) => apply keeps_call
  | |- keeps _ _ (dispatch_action _) => apply keeps_dispatch; intros; simpl; by auto
  | |- keeps _ _ (mret _) => by apply keeps_ret
  | |- keeps _ _ (match ?x with _ => _ end) => destruct x
  | |- keeps _ _ (if ?b then _ else _) => destruct b
  | |- keeps _ _ _ => progress (eauto with shop)
  end.

(** ** Weakest preconditions of the lifts *)
Section wp_lifts.
Context {P S : Type}.

Lemma wp_call {A} (m : St (net S) http_error A) Q R (c : page P S) :
  wp (call m) Q R c = wp m (λ a n, Q a (set_net n c)) (λ e n, R e (set_net n c)) c.(shared).(w_net).
Proof. unfold wp, call, zoom. by destruct (m _) as [[]]. Qed.

Lemma wp_dispatch_action a Q R (c : page P S) :
  wp (dispatch_action a) Q R c =
  Q () (mkPage c.(local) (mkWorld c.(shared).(w_net)
          (ProductSlice.reduce a c.(shared).(w_store)) c.(shared).(w_log))).
Proof. reflexivity. Qed.

Lemma wp_set_local f Q R (c : page P S) :
  wp (set_local f) Q R c = Q () (mkPage (f c.(local)) c.(shared)).
Proof. reflexivity. Qed.

Lemma wp_emit e Q R (c : page P S) :
  wp (emit e) Q R c =
  Q () (mkPage c.(local) (mkWorld c.(shared).(w_net) c.(shared).(w_store)
          (c.(shared).(w_log) ++ [e]))).
Proof. reflexivity. Qed.
End wp_lifts.

(** One step of a handler's proof: the rule of its first statement. *)
Ltac wp_step :=
  first [ rewrite wp_bind | rewrite wp_catch | rewrite wp_get | rewrite wp_ret
        | rewrite wp_call | rewrite wp_dispatch_action | rewrite wp_set_local
        | unfold alert, console_error; rewrite wp_emit ].
