(* ===== verification/ListPage.v ===== *)
(** * [src/src/pages/ProductListPage.tsx]

    The page's [useState] hooks are the record [list_page]; its handlers
    are computations on [page list_page S] (see [World]):
    - [loadProducts], the mount effect: fetch the list, replace the store;
    - [handleInputChange]: the form's [onChange];
    - [handleSubmit]: validate the three required fields, compute the new
      id as the largest id in the store plus one, [addProduct], re-fetch
      the list, replace the store, close the modal and reset the form; any
      rejection is logged;
    - [openDeleteModal] and [confirmDelete]: remember the id, then delete it
      on the server and remove it from the store (no re-fetch);
    - [sortedProducts]: the render-time sort by name ([localeCompare]) or
      by count, through [js_sort];
    - [render_items]: the list the page renders, with each item's link.
    [localeCompare] is a parameter: the theorems hold for every consistent
    string comparison. *)

From Stdlib Require Import ZArith Lia Sorting.Sorted.
From stdpp Require Import strings.
From stdpp Require Import base list decidable.
From S2P Require Import Prelude Types Remote Service Slice Sort World.
Open Scope Z_scope.

Inductive sort_type := SortName | SortCount.

(** The [formData] state: the six inputs of the add modal. *)
Record form_data := mkForm {
  f_name : string;
  f_count : Z;
  f_width : Z;
  f_height : Z;
  f_weight : string;
  f_imageUrl : string
}.

Definition empty_form : form_data := mkForm "" 0 0 0 "" "".

Record list_page := mkListPage {
  isAddModalOpen : bool;
  isDeleteModalOpen : bool;
  selectedProductId : option Z;
  sortType : sort_type;
  formData : form_data
}.

(** The state of a freshly mounted page. *)
Definition initial_list_page : list_page :=
  mkListPage false false None SortName empty_form.

Definition set_isAddModalOpen (b : bool) (p : list_page) : list_page :=
  mkListPage b p.(isDeleteModalOpen) p.(selectedProductId) p.(sortType) p.(formData).
Definition set_isDeleteModalOpen (b : bool) (p : list_page) : list_page :=
  mkListPage p.(isAddModalOpen) b p.(selectedProductId) p.(sortType) p.(formData).
Definition set_selectedProductId (o : option Z) (p : list_page) : list_page :=
  mkListPage p.(isAddModalOpen) p.(isDeleteModalOpen) o p.(sortType) p.(formData).
Definition set_sortType (t : sort_type) (p : list_page) : list_page :=
  mkListPage p.(isAddModalOpen) p.(isDeleteModalOpen) p.(selectedProductId) t p.(formData).
Definition set_formData (f : form_data) (p : list_page) : list_page :=
  mkListPage p.(isAddModalOpen) p.(isDeleteModalOpen) p.(selectedProductId) p.(sortType) f.

(** [!s] on a string: the empty string is falsy. *)
Definition falsy_string (s : string) : bool := bool_decide (s = "").

(** [handleInputChange] on the input named [name] with value [value]:
    [count], [width] and [height] go through [Number(value)]; a value whose
    number is [NaN] or not an integer is outside the model ([None]).  An
    input name that is not a field adds a key no code reads: the form's
    fields are unchanged. *)
Definition handleInputChange (name value : string) (fd : form_data)
  : option form_data :=
  if bool_decide (name = "count") then
    (λ z, mkForm fd.(f_name) z fd.(f_width) fd.(f_height) fd.(f_weight) fd.(f_imageUrl))
      <$> js_Number value
  else if bool_decide (name = "width") then
    (λ z, mkForm fd.(f_name) fd.(f_count) z fd.(f_height) fd.(f_weight) fd.(f_imageUrl))
      <$> js_Number value
  else if bool_decide (name = "height") then
    (λ z, mkForm fd.(f_name) fd.(f_count) fd.(f_width) z fd.(f_weight) fd.(f_imageUrl))
      <$> js_Number value
  else if bool_decide (name = "name") then
    Some (mkForm value fd.(f_count) fd.(f_width) fd.(f_height) fd.(f_weight) fd.(f_imageUrl))
  else if bool_decide (name = "weight") then
    Some (mkForm fd.(f_name) fd.(f_count) fd.(f_width) fd.(f_height) value fd.(f_imageUrl))
  else if bool_decide (name = "imageUrl") then
    Some (mkForm fd.(f_name) fd.(f_count) fd.(f_width) fd.(f_height) fd.(f_weight) value)
  else Some fd.

(** [products.length > 0 ? Math.max(...products.map(p => Number(p.id))) : 0] *)
Definition max_id (products : list Product) : Z :=
  match ids products with
  | [] => 0
  | x :: xs => js_max x xs
  end.

(** [const newId = maxId + 1], in JS arithmetic: exact while [maxId] is
    below [2^53], rounded beyond. *)
Definition new_id (products : list Product) : Z := js_add (max_id products) 1.

(** [newProduct] without its [id]: the fields taken from the form, no
    comments. *)
Definition new_product_draft (fd : form_data) : ProductDraft :=
  mkDraft fd.(f_imageUrl) fd.(f_name) fd.(f_count) (mkSize fd.(f_width) fd.(f_height))
          fd.(f_weight) [].

Section handlers.
Context {S : Type} `{!RemoteService S}.

Abbreviation LH := (St (page list_page S) http_error).

(** The mount effect [loadProducts]. *)
Definition loadProducts : LH unit :=
  catch (productsFromServer ← call fetchProducts;
         dispatch_action (ProductSlice.setProducts productsFromServer))
        (λ _, console_error "Failed to fetch products:").

Definition handleSubmit : LH unit :=
  c ← get_st;
  let fd := c.(local).(formData) in
  let products := ProductSlice.select_products c.(shared).(w_store) in
  if falsy_string fd.(f_name) || falsy_string fd.(f_weight)
     || falsy_string fd.(f_imageUrl)
  then alert "Please fill in all required fields!"
  else
    let newId := new_id products in
    catch (_ ← call (addProduct (Some newId) (new_product_draft fd));
           updatedProducts ← call fetchProducts;
           _ ← dispatch_action (ProductSlice.setProducts updatedProducts);
           _ ← set_local (set_isAddModalOpen false);
           set_local (set_formData empty_form))
          (λ _, console_error "Failed to add product:").

Definition openDeleteModal (i : Z) : LH unit :=
  _ ← set_local (set_selectedProductId (Some i));
  set_local (set_isDeleteModalOpen true).

Definition confirmDelete : LH unit :=
  c ← get_st;
  match c.(local).(selectedProductId) with
  | None => mret ()
  | Some i =>
      catch (_ ← call (deleteProduct i);
             _ ← dispatch_action (ProductSlice.deleteProduct i);
             _ ← set_local (set_isDeleteModalOpen false);
             set_local (set_selectedProductId None))
            (λ _, console_error "Failed to delete product:")
  end.
End handlers.

Section render.
(** [String.prototype.localeCompare], the comparison of the browser's
    locale. *)
Context (localeCompare : string → string → Z).

(** The comparator passed to [sort]. *)
Definition product_cmp (st : sort_type) (a b : Product) : Z :=
  match st with
  | SortName => localeCompare a.(name) b.(name)
  | SortCount => js_sub a.(count) b.(count)
  end.

(** [[...products].sort(...)] *)
Definition sortedProducts (st : sort_type) (products : list Product) : list Product :=
  js_sort (product_cmp st) products.

(** An item of the rendered list: its key, the target of its [Link], and
    the name and count of its label. *)
Record list_item := mkItem {
  item_key : Z;
  item_to : string;
  item_name : string;
  item_count : Z
}.

Definition item_of (p : Product) : list_item :=
  mkItem p.(id) ("/product/" +:+ js_String p.(id)) p.(name) p.(count).

(** The list the page renders: [None] is the "No products available."
    paragraph. *)
Definition render_items (st : sort_type) (products : list Product)
  : option (list list_item) :=
  match sortedProducts st products with
  | [] => None
  | l => Some (map item_of l)
  end.
End render.

(** ** Theorems of the list page *)

Section list_theorems.
Context {S : Type} `{!RemoteService S} `{!RemoteLaws S}.

Lemma max_id_nonneg products : Forall (λ i, 0 < i) (ids products) → 0 ≤ max_id products.
Proof.
  unfold max_id. destruct (ids products) as [|x xs]; intros Hpos; [lia|].
  inversion Hpos as [|? ? Hx]; subst. pose proof (js_max_acc x xs). lia.
Qed.

Lemma max_id_ge products i : i ∈ ids products → i ≤ max_id products.
Proof.
  unfold max_id. destruct (ids products) as [|x xs]; [by intros ?%not_elem_of_nil|].
  apply js_max_ge.
Qed.

Lemma new_id_exact products :
  Forall (λ i, 0 < i) (ids products) → max_id products < 2 ^ 53 →
  new_id products = max_id products + 1.
Proof.
  intros Hpos Hb. pose proof (max_id_nonneg _ Hpos).
  unfold new_id, js_add. rewrite ?js_round_small; lia.
Qed.

Lemma max_id_fresh products :
  Forall (λ i, 0 < i) (ids products) → max_id products < 2 ^ 53 →
  new_id products ≠ 0 ∧ new_id products ∉ ids products.
Proof.
  intros Hpos Hb. rewrite new_id_exact by done. pose proof (max_id_nonneg _ Hpos).
  split; [lia|]. intros Hin%max_id_ge. lia.
Qed.

(** C1: on a reliable network, when the store shows the server's list
    and the three required fields are filled in, [handleSubmit] creates
    the product under the id [max + 1] it computed, the server's list
    gains exactly that product, the store is replaced by the re-fetched
    list, in which the new id occurs exactly once, and the modal is
    closed with the form reset. *)
Theorem handleSubmit_creates (c : page list_page S) :
  srv_ok (server c.(shared).(w_net)) → schedule c.(shared).(w_net) = [] →
  ProductSlice.select_products c.(shared).(w_store) = srv_products (server c.(shared).(w_net)) →
  Forall (λ i, 0 < i) (ids (srv_products (server c.(shared).(w_net)))) →
  max_id (srv_products (server c.(shared).(w_net))) < 2 ^ 53 →
  falsy_string c.(local).(formData).(f_name) = false →
  falsy_string c.(local).(formData).(f_weight) = false →
  falsy_string c.(local).(formData).(f_imageUrl) = false →
  let c' := run_state handleSubmit c in
  let newId := max_id (srv_products (server c.(shared).(w_net))) + 1 in
  srv_products (server c'.(shared).(w_net)) =
    srv_products (server c.(shared).(w_net)) ++ [with_id newId (new_product_draft c.(local).(formData))] ∧
  ProductSlice.select_products c'.(shared).(w_store) = srv_products (server c'.(shared).(w_net)) ∧
  id_count newId (ProductSlice.select_products c'.(shared).(w_store)) = 1%nat ∧
  c'.(local).(isAddModalOpen) = false ∧ c'.(local).(formData) = empty_form.
Proof.
  destruct c as [lp [n st lg]]; simpl.
  intros Hok Hs Hsync Hpos Hb Hn Hw Hi.
  destruct (max_id_fresh _ Hpos Hb) as [Hnz Hfresh]. rewrite new_id_exact in Hnz, Hfresh by done.
  destruct (addProduct_delivered n (max_id (srv_products (server n)) + 1)
              (new_product_draft (formData lp)) Hok) as (s1 & Hadd & Hps1 & Hok1);
    [by rewrite Hs|done|done|].
  pose proof (fetchProducts_delivered (mkNet s1 (tail (schedule n))
                 (sent n ++ [call_request (CAddProduct (Some (max_id (srv_products (server n)) + 1))
                    (new_product_draft (formData lp)))])) Hok1) as Hfetch.
  rewrite Hs in Hfetch. specialize (Hfetch eq_refl).
  unfold run_state, handleSubmit. erewrite st_bind_ok by reflexivity. simpl.
  rewrite Hn, Hw, Hi, Hsync. simpl. rewrite new_id_exact by done. rewrite Hs in Hadd.
  erewrite catch_ok.
  2:{ eapply st_bind_ok_eq; [apply call_ok; exact Hadd|].
      eapply st_bind_ok_eq; [apply call_ok; exact Hfetch|]. reflexivity. }
  simpl. split; [done|]. split; [done|]. split; [|done].
  apply id_count_NoDup; [apply (srv_ok_ids _ Hok1)|].
  cbn [ProductSlice.select_products ProductSlice.reduce ProductSlice.reduce_products
    ProductSlice.products_slice ProductSlice.products].
  rewrite Hps1, ids_app. apply elem_of_app. right. by apply list_elem_of_singleton.
Qed.

(** C2: on a reliable network, confirming the deletion of a product the
    server holds removes its id from the server and from the store, and
    closes the modal with no id selected. *)
Theorem confirmDelete_removes (c : page list_page S) i p :
  srv_ok (server c.(shared).(w_net)) → schedule c.(shared).(w_net) = [] →
  c.(local).(selectedProductId) = Some i →
  find_product i (srv_products (server c.(shared).(w_net))) = Some p →
  let c' := run_state confirmDelete c in
  (i ∉ ids (srv_products (server c'.(shared).(w_net)))) ∧
  ProductSlice.select_products c'.(shared).(w_store) =
    remove_product i (ProductSlice.select_products c.(shared).(w_store)) ∧
  (i ∉ ids (ProductSlice.select_products c'.(shared).(w_store))) ∧
  c'.(local).(isDeleteModalOpen) = false ∧ c'.(local).(selectedProductId) = None.
Proof.
  destruct c as [lp [n st lg]]; simpl. intros Hok Hs Hsel Hf.
  destruct (deleteProduct_delivered n i p Hok) as (s1 & Hdel & Hps1 & _);
    [by rewrite Hs|done|].
  unfold run_state, confirmDelete. erewrite st_bind_ok by reflexivity. simpl.
  rewrite Hsel. erewrite catch_ok.
  2:{ eapply st_bind_ok_eq; [apply call_ok; exact Hdel|]. reflexivity. }
  simpl. rewrite Hps1. split; [apply remove_product_ids|].
  split; [done|]. split; [apply remove_product_ids|done].
Qed.

(** C4: a submission with an empty name, weight or image URL is rejected
    before any network call: only the alert is shown, the network, the
    store and the page state are unchanged. *)
Theorem handleSubmit_rejects_invalid (c : page list_page S) :
  falsy_string c.(local).(formData).(f_name) || falsy_string c.(local).(formData).(f_weight)
    || falsy_string c.(local).(formData).(f_imageUrl) = true →
  handleSubmit c =
    (Ok (), mkPage c.(local) (mkWorld c.(shared).(w_net) c.(shared).(w_store)
               (c.(shared).(w_log) ++ [Alert "Please fill in all required fields!"]))).
Proof.
  intros Hinv. unfold handleSubmit. erewrite st_bind_ok by reflexivity.
  simpl. by rewrite Hinv.
Qed.

(** A submission whose id the server already holds is refused. *)
Lemma handleSubmit_taken (c : page list_page S) :
  srv_ok (server c.(shared).(w_net)) → schedule c.(shared).(w_net) = [] →
  falsy_string c.(local).(formData).(f_name) = false →
  falsy_string c.(local).(formData).(f_weight) = false →
  falsy_string c.(local).(formData).(f_imageUrl) = false →
  new_id (ProductSlice.select_products c.(shared).(w_store)) ≠ 0 →
  new_id (ProductSlice.select_products c.(shared).(w_store))
    ∈ ids (srv_products (server c.(shared).(w_net))) →
  let c' := run_state handleSubmit c in
  server c'.(shared).(w_net) = server c.(shared).(w_net) ∧
  c'.(shared).(w_store) = c.(shared).(w_store) ∧
  c'.(local) = c.(local) ∧
  c'.(shared).(w_log) = c.(shared).(w_log) ++ [ConsoleError "Failed to add product:"].
Proof.
  destruct c as [lp [n st lg]]; simpl. intros Hok Hs Hn Hw Hi Hnz Hin.
  destruct (addProduct_dup_delivered n (new_id (ProductSlice.select_products st))
              (new_product_draft (formData lp)) Hok)
    as (code & Hadd); [by rewrite Hs|done|done|].
  unfold run_state, handleSubmit. erewrite st_bind_ok by reflexivity. simpl.
  rewrite Hn, Hw, Hi. simpl. erewrite catch_err.
  2:{ apply st_bind_err. apply call_err. exact Hadd. }
  done.
Qed.

(** C17: when the id [max + 1] computed from the store is already taken
    on the server (the store is older than the server's list, or an
    earlier create reached the server but its reply was lost), the
    submission fails: the server and the store are unchanged, the modal
    stays open and only an error is logged.  Resubmitting the same form
    fails the same way until the list is re-fetched. *)
Theorem handleSubmit_stale_collision (c : page list_page S) :
  srv_ok (server c.(shared).(w_net)) → schedule c.(shared).(w_net) = [] →
  falsy_string c.(local).(formData).(f_name) = false →
  falsy_string c.(local).(formData).(f_weight) = false →
  falsy_string c.(local).(formData).(f_imageUrl) = false →
  new_id (ProductSlice.select_products c.(shared).(w_store)) ≠ 0 →
  new_id (ProductSlice.select_products c.(shared).(w_store))
    ∈ ids (srv_products (server c.(shared).(w_net))) →
  let c' := run_state handleSubmit c in
  server c'.(shared).(w_net) = server c.(shared).(w_net) ∧
  c'.(shared).(w_store) = c.(shared).(w_store) ∧
  c'.(local) = c.(local) ∧
  c'.(shared).(w_log) = c.(shared).(w_log) ++ [ConsoleError "Failed to add product:"].
Proof. apply handleSubmit_taken. Qed.

(** The [POST] reaches the server but its reply is lost: the server holds
    the new product, and the page is as before with an error logged. *)
Lemma handleSubmit_reply_lost (c : page list_page S) rest :
  srv_ok (server c.(shared).(w_net)) → schedule c.(shared).(w_net) = LostResponse :: rest →
  ProductSlice.select_products c.(shared).(w_store) = srv_products (server c.(shared).(w_net)) →
  Forall (λ i, 0 < i) (ids (srv_products (server c.(shared).(w_net)))) →
  max_id (srv_products (server c.(shared).(w_net))) < 2 ^ 53 →
  falsy_string c.(local).(formData).(f_name) = false →
  falsy_string c.(local).(formData).(f_weight) = false →
  falsy_string c.(local).(formData).(f_imageUrl) = false →
  ∃ s1, run_state handleSubmit c =
          mkPage c.(local) (mkWorld (mkNet s1 rest (sent c.(shared).(w_net) ++
             [call_request (CAddProduct (Some (max_id (srv_products (server c.(shared).(w_net))) + 1))
                                        (new_product_draft c.(local).(formData)))]))
             c.(shared).(w_store) (c.(shared).(w_log) ++ [ConsoleError "Failed to add product:"])) ∧
        srv_products s1 = srv_products (server c.(shared).(w_net)) ++
          [with_id (max_id (srv_products (server c.(shared).(w_net))) + 1)
                   (new_product_draft c.(local).(formData))] ∧
        srv_ok s1.
Proof.
  destruct c as [lp [n st lg]]; simpl. intros Hok Hs Hsync Hpos Hb Hn Hw Hi.
  destruct (max_id_fresh _ Hpos Hb) as [Hnz Hfresh]. rewrite new_id_exact in Hnz, Hfresh by done.
  destruct (addProduct_reply_lost n _ (new_product_draft (formData lp)) rest Hok Hs Hnz Hfresh)
    as (s1 & Hadd & Hps1 & Hok1).
  exists s1. split; [|done].
  unfold run_state, handleSubmit. erewrite st_bind_ok by reflexivity. simpl.
  rewrite Hn, Hw, Hi, Hsync. simpl. rewrite new_id_exact by done. erewrite catch_err.
  2:{ apply st_bind_err. apply call_err. exact Hadd. }
  done.
Qed.

(** C18: when the reply to a valid submission is lost, the server has
    created the product under [max + 1] but the store and the form are
    unchanged, so resubmitting the same form on a reliable network
    computes the same id, which the server now refuses: after both
    attempts the server holds the product, the store does not show it,
    the modal is still open and two errors are logged. *)
Theorem lost_reply_blocks_resubmit (c : page list_page S) :
  srv_ok (server c.(shared).(w_net)) → schedule c.(shared).(w_net) = [LostResponse] →
  ProductSlice.select_products c.(shared).(w_store) = srv_products (server c.(shared).(w_net)) →
  Forall (λ i, 0 < i) (ids (srv_products (server c.(shared).(w_net)))) →
  max_id (srv_products (server c.(shared).(w_net))) < 2 ^ 53 →
  falsy_string c.(local).(formData).(f_name) = false →
  falsy_string c.(local).(formData).(f_weight) = false →
  falsy_string c.(local).(formData).(f_imageUrl) = false →
  let c2 := run_state handleSubmit (run_state handleSubmit c) in
  srv_products (server c2.(shared).(w_net)) = srv_products (server c.(shared).(w_net)) ++
    [with_id (max_id (srv_products (server c.(shared).(w_net))) + 1)
             (new_product_draft c.(local).(formData))] ∧
  c2.(shared).(w_store) = c.(shared).(w_store) ∧ c2.(local) = c.(local) ∧
  c2.(shared).(w_log) = c.(shared).(w_log) ++
    [ConsoleError "Failed to add product:"; ConsoleError "Failed to add product:"].
Proof.
  intros Hok Hs Hsync Hpos Hb Hn Hw Hi.
  destruct (handleSubmit_reply_lost c [] Hok Hs Hsync Hpos Hb Hn Hw Hi) as (s1 & -> & Hps1 & Hok1).
  destruct (max_id_fresh _ Hpos Hb) as [Hnz _]. rewrite new_id_exact in Hnz by done.
  cbv zeta. match goal with |- context [run_state handleSubmit ?c1] =>
    destruct (handleSubmit_taken c1) as (Hsrv & Hst & Hl & Hlog); simpl; try done end.
  - by rewrite Hsync, new_id_exact.
  - rewrite Hsync, new_id_exact, Hps1, ids_app by done. apply elem_of_app. right.
    by apply list_elem_of_singleton.
  - simpl in *. rewrite Hsrv, Hst, Hl, Hlog, Hps1, <-app_assoc. done.
Qed.
(** C19: whatever the network does (requests lost, replies lost, the
    server answering with an error), the list page's state-changing
    handlers keep the world's invariant: the Catalog Store's product ids
    stay distinct and the backend stays well formed. *)
Theorem list_handlers_keep_world_ok :
  keeps world_ok (λ _, True) (loadProducts (S:=S)) ∧
  keeps world_ok (λ _, True) (handleSubmit (S:=S)) ∧
  keeps world_ok (λ _, True) (confirmDelete (S:=S)).
Proof. split_and!; unfold loadProducts, handleSubmit, confirmDelete; cbv zeta; keeps_solve. Qed.
End list_theorems.

(** ** Bounds of the computed id *)

(** C23: [newId = maxId + 1] is computed in doubles.  While the largest
    id is below [2^53] the new id is exactly [maxId + 1]: positive, at most
    [2^53], and fresh.  Once an id reaches [2^53], [maxId + 1] rounds back
    to [maxId] (ties to even), so the computed id is one the store
    already holds. *)
Theorem new_id_bounds products :
  Forall (λ i, 0 < i) (ids products) →
  (max_id products < 2 ^ 53 →
     new_id products = max_id products + 1 ∧ (new_id products ∉ ids products) ∧
     0 < new_id products ≤ 2 ^ 53) ∧
  (max_id products = 2 ^ 53 →
     new_id products = max_id products ∧ new_id products ∈ ids products).
Proof.
  intros Hpos. split.
  - intros Hb. pose proof (max_id_nonneg _ Hpos). rewrite new_id_exact by done.
    split; [done|]. split; [|lia]. intros Hin%max_id_ge. lia.
  - intros Hm. unfold new_id, js_add. rewrite Hm.
    assert (js_round (2 ^ 53 + 1) = 2 ^ 53) as Hr by (vm_compute; reflexivity).
    rewrite Hr. split; [done|]. rewrite <-Hm. unfold max_id in *.
    destruct (ids products) as [|x xs]; [discriminate|]. apply js_max_elem.
Qed.

Section sorting.
Context (localeCompare : string → string → Z).
Hypothesis lc_antisym : ∀ a b, Z.sgn (localeCompare b a) = - Z.sgn (localeCompare a b).
Hypothesis lc_trans : ∀ a b c,
  localeCompare a b ≤ 0 → localeCompare b c ≤ 0 → localeCompare a c ≤ 0.

Lemma product_cmp_antisym st a b :
  Z.sgn (product_cmp localeCompare st b a) = - Z.sgn (product_cmp localeCompare st a b).
Proof.
  destruct st; simpl; [apply lc_antisym|]. unfold js_sub. rewrite !js_round_sgn.
  replace (count b - count a) with (- (count a - count b)) by lia. apply Z.sgn_opp.
Qed.

Lemma product_cmp_trans st a b c :
  product_cmp localeCompare st a b ≤ 0 → product_cmp localeCompare st b c ≤ 0 →
  product_cmp localeCompare st a c ≤ 0.
Proof. destruct st; simpl; [apply lc_trans|]. unfold js_sub. rewrite !js_round_nonpos. lia. Qed.

(** The order the page promises, stated without its comparator: by
    name under [localeCompare], or by count as integers, ascending; and
    which products tie. *)
Definition sort_le (st : sort_type) (a b : Product) : Prop :=
  match st with
  | SortName => localeCompare a.(name) b.(name) ≤ 0
  | SortCount => a.(count) ≤ b.(count)
  end.

Definition same_key (st : sort_type) (k b : Product) : bool :=
  match st with
  | SortName => localeCompare k.(name) b.(name) =? 0
  | SortCount => k.(count) =? b.(count)
  end.

(** The comparator passed to [sort] agrees with that order; for counts
    because the rounded difference keeps its sign. *)
Lemma product_cmp_le_iff st a b : cmp_le (product_cmp localeCompare st) a b ↔ sort_le st a b.
Proof. unfold cmp_le. destruct st; simpl; [done|]. unfold js_sub. rewrite js_round_nonpos. lia. Qed.

Lemma same_class_key st k b : same_class (product_cmp localeCompare st) k b = same_key st k b.
Proof.
  unfold same_class. destruct st; simpl; [done|]. unfold js_sub.
  pose proof (js_round_sgn (count k - count b)) as Hs.
  destruct (Z.eqb_spec (js_round (count k - count b)) 0) as [H0|H0],
    (Z.eqb_spec (count k) (count b)) as [H1|H1]; try reflexivity; exfalso.
  - rewrite H0 in Hs. symmetry in Hs. apply Z.sgn_null_iff in Hs. lia.
  - apply H0, Z.sgn_null_iff. rewrite Hs. apply Z.sgn_null_iff. lia.
Qed.

Lemma sorted_sort_le_iff st l : Sorted (cmp_le (product_cmp localeCompare st)) l ↔ Sorted (sort_le st) l.
Proof.
  split; induction 1 as [|x l _ IH HR]; constructor; try done;
    (induction HR; constructor; by apply product_cmp_le_iff).
Qed.

Lemma filter_same_class_key st k l :
  List.filter (same_class (product_cmp localeCompare st) k) l = List.filter (same_key st k) l.
Proof. apply filter_ext. intros b. apply same_class_key. Qed.

(** C5: the list the page shows is a permutation of the store's products
    in ascending order: of the names under [localeCompare] when sorting
    by name, of the counts when sorting by count. *)
Theorem sortedProducts_sorted_perm st (products : list Product) :
  Sorted (sort_le st) (sortedProducts localeCompare st products) ∧
  sortedProducts localeCompare st products ≡ₚ products.
Proof.
  split; [|apply js_sort_perm].
  apply sorted_sort_le_iff, (js_sort_sorted _ (product_cmp_antisym st)).
Qed.

(** C6: the sort is stable: products with the same name (when sorting by
    name) or the same count (when sorting by count) are shown in store
    order. *)
Theorem sortedProducts_stable st (products : list Product) k :
  List.filter (same_key st k) (sortedProducts localeCompare st products) =
  List.filter (same_key st k) products.
Proof.
  rewrite <-!filter_same_class_key.
  apply (js_sort_stable _ (product_cmp_antisym st) (product_cmp_trans st)).
Qed.

(** Sorting the sorted list again changes nothing. *)
Theorem sortedProducts_idempotent st (products : list Product) :
  sortedProducts localeCompare st (sortedProducts localeCompare st products) =
  sortedProducts localeCompare st products.
Proof. apply (js_sort_idempotent _ (product_cmp_antisym st)). Qed.

(** C8: the order the page promises determines what it shows: every list
    in ascending order of the selected key that keeps the products with
    equal keys in store order is the list [sortedProducts] renders, so
    the page meets that specification whatever stable sort the engine
    uses. *)
Theorem sortedProducts_unique st (products shown : list Product) :
  Sorted (sort_le st) shown →
  (∀ k, List.filter (same_key st k) shown = List.filter (same_key st k) products) →
  shown = sortedProducts localeCompare st products.
Proof.
  intros Hs Hst. apply (stable_sort_unique _ (product_cmp_antisym st) (product_cmp_trans st)).
  - by apply sorted_sort_le_iff.
  - intros k. rewrite !filter_same_class_key. apply Hst.
Qed.
(** C24: the count comparator [a.count - b.count] is a double
    subtraction, which rounds large differences; rounding keeps the sign,
    so the page sorts by count exactly as with the exact integer
    difference. *)
Theorem sortedProducts_count_exact (products : list Product) :
  sortedProducts localeCompare SortCount products =
  js_sort (λ a b, a.(count) - b.(count)) products.
Proof.
  apply js_sort_ext. intros a b. simpl. unfold js_sub.
  destruct (js_round_nonpos (count a - count b)) as [H1 H2].
  destruct (Z.leb_spec (js_round (count a - count b)) 0) as [Ha|Ha],
    (Z.leb_spec (count a - count b) 0) as [Hb|Hb]; try reflexivity; exfalso;
    [apply H1 in Ha|apply H2 in Hb]; lia.
Qed.
End sorting.
