(* ===== verification/ListView.v ===== *)
(** * The list page as a user interface: render, events, reachable states

    [ProductListPage] returns, from its state and the store, a view: the
    sort [select], the product list (or "No products available."), the add
    modal with the six inputs showing [formData], and the delete
    confirmation modal.  Each element's [onClick]/[onChange] is a handler
    of [ListPage].  [list_event] names those elements; [enabled] says
    which are on screen; [on_list_event] is what React runs.  [list_step]
    is one user event; the states the page reaches from its mount are
    [list_reachable].  The invariant [ui_ok] (the delete modal is only open
    with a product selected) holds in every reachable state, and so does
    [World.world_ok], by induction on the steps. *)

From Stdlib Require Import ZArith Lia.
From stdpp Require Import strings.
From stdpp Require Import base list decidable relations.
From S2P Require Import Prelude Types Remote Service Slice Sort World ListPage.
Open Scope Z_scope.

(** What the page shows. *)
Record list_view := mkListView {
  lv_sort : sort_type;                      (** [<select value={sortType}>] *)
  lv_items : option (list list_item);       (** The [<ul>]; [None]: the empty paragraph *)
  lv_add_modal : option form_data;          (** The add modal's inputs *)
  lv_delete_modal : option unit             (** The confirmation modal *)
}.

Section render.
Context (localeCompare : string → string → Z) {S : Type}.

Definition render_list_page (c : page list_page S) : list_view :=
  let lp := c.(local) in
  mkListView lp.(sortType)
    (render_items localeCompare lp.(sortType)
       (ProductSlice.select_products c.(shared).(w_store)))
    (modal lp.(isAddModalOpen) lp.(formData))
    (modal lp.(isDeleteModalOpen) ()).
End render.

(** The elements a user can act on. *)
Inductive list_event :=
| ClickAddProduct                      (** "Add Product" *)
| SelectSort (v : sort_type)           (** The sort [select] *)
| ClickDelete (i : Z)                  (** An item's "Delete" *)
| InputChange (name value : string)    (** An input of the add modal *)
| ConfirmAdd                           (** The add modal's "Confirm" *)
| CancelAdd                            (** The add modal's "Cancel" *)
| CloseAdd                             (** The add modal's [onClose] *)
| ConfirmDeletion                      (** The confirmation modal's "Confirm" *)
| CancelDelete                         (** The confirmation modal's "Cancel" *)
| CloseDelete.                         (** The confirmation modal's [onClose] *)

(** The [name] attributes of the add modal's inputs. *)
Definition input_names : list string :=
  ["name"; "count"; "width"; "height"; "weight"; "imageUrl"].

Section events.
Context {S : Type} `{!RemoteService S}.

(** The element is on screen (and an input's value is a number where the
    input is numeric). *)
Definition enabled (localeCompare : string → string → Z) (c : page list_page S)
  (ev : list_event) : bool :=
  let v := render_list_page localeCompare c in
  match ev with
  | ClickAddProduct | SelectSort _ => true
  | ClickDelete i =>
      match v.(lv_items) with
      | Some items => bool_decide (i ∈ map item_key items)
      | None => false
      end
  | InputChange name value =>
      bool_decide (is_Some v.(lv_add_modal)) && bool_decide (name ∈ input_names)
      && bool_decide (is_Some (handleInputChange name value c.(local).(formData)))
  | ConfirmAdd | CancelAdd | CloseAdd => bool_decide (is_Some v.(lv_add_modal))
  | ConfirmDeletion | CancelDelete | CloseDelete => bool_decide (is_Some v.(lv_delete_modal))
  end.

(** [setFormData((prev) => ...)] with [handleInputChange]. *)
Definition on_input (name value : string) : St (page list_page S) http_error unit :=
  c ← get_st;
  match handleInputChange name value c.(local).(formData) with
  | Some fd => set_local (set_formData fd)
  | None => mret ()
  end.

Definition on_list_event (ev : list_event) : St (page list_page S) http_error unit :=
  match ev with
  | ClickAddProduct => set_local (set_isAddModalOpen true)
  | SelectSort v => set_local (set_sortType v)
  | ClickDelete i => openDeleteModal i
  | InputChange name value => on_input name value
  | ConfirmAdd => handleSubmit
  | CancelAdd | CloseAdd => set_local (set_isAddModalOpen false)
  | ConfirmDeletion => confirmDelete
  | CancelDelete | CloseDelete => set_local (set_isDeleteModalOpen false)
  end.

(** One user event on an element the page shows. *)
Inductive list_step (localeCompare : string → string → Z)
  : page list_page S → page list_page S → Prop :=
| list_step_event ev c :
    enabled localeCompare c ev = true →
    list_step localeCompare c (run_state (on_list_event ev) c).

(** The page mounts with its initial state and runs [loadProducts]; then
    the user acts. *)
Definition list_reachable (localeCompare : string → string → Z)
  (w : world S) (c : page list_page S) : Prop :=
  rtc (list_step localeCompare) (run_state loadProducts (mkPage initial_list_page w)) c.

End events.

(** The confirmation modal is only open with a product selected. *)
Definition ui_ok_local (lp : list_page) : Prop :=
  lp.(isDeleteModalOpen) = true → is_Some lp.(selectedProductId).

Section reachable.
Context {S : Type} `{!RemoteService S} `{!RemoteLaws S}.
Context (localeCompare : string → string → Z).

Abbreviation ui_ok := (local_ok (S:=S) ui_ok_local).

Lemma on_list_event_world_ok ev : keeps world_ok (λ _, True) (on_list_event (S:=S) ev).
Proof.
  destruct ev; simpl; unfold openDeleteModal, on_input, handleSubmit, confirmDelete;
    cbv zeta; keeps_solve.
Qed.

(** The confirmation: the modal closes before the selection is cleared. *)
Lemma confirmDelete_ui_ok (c : page list_page S) :
  ui_ok c → ui_ok (run_state confirmDelete c).
Proof.
  intros Hc. eapply wp_run_state; [|intros ? c' Hc'; exact Hc'|intros ? c' Hc'; exact Hc'].
  unfold confirmDelete. wp_step. wp_step. simpl.
  destruct (selectedProductId _); [|by wp_step].
  wp_step. wp_step. wp_step. apply wp_any.
  - intros _ n. simpl. do 3 wp_step. unfold local_ok, ui_ok_local. simpl. discriminate.
  - intros e n. simpl. by wp_step.
Qed.

Lemma on_list_event_ui_ok ev (c : page list_page S) :
  ui_ok c → ui_ok (run_state (on_list_event ev) c).
Proof.
  intros Hc. destruct ev; simpl.
  - by eapply (keeps_run ui_ok (λ _, True)); [apply keeps_set_local_local; intros lp Hlp; exact Hlp|].
  - by eapply (keeps_run ui_ok (λ _, True)); [apply keeps_set_local_local; intros lp Hlp; exact Hlp|].
  - unfold local_ok, ui_ok_local. simpl. eauto.
  - eapply (keeps_run ui_ok (λ _, True)); [|exact Hc]. unfold on_input. keeps_solve. intros lp Hlp; exact Hlp.
  - eapply (keeps_run ui_ok (λ _, True)); [|exact Hc]. unfold handleSubmit. cbv zeta. keeps_solve; intros lp Hlp; exact Hlp.
  - by eapply (keeps_run ui_ok (λ _, True)); [apply keeps_set_local_local; intros lp Hlp; exact Hlp|].
  - by eapply (keeps_run ui_ok (λ _, True)); [apply keeps_set_local_local; intros lp Hlp; exact Hlp|].
  - by apply confirmDelete_ui_ok.
  - eapply (keeps_run ui_ok (λ _, True)); [apply keeps_set_local_local|exact Hc]. intros lp _. discriminate.
  - eapply (keeps_run ui_ok (λ _, True)); [apply keeps_set_local_local|exact Hc]. intros lp _. discriminate.
Qed.

Lemma list_reachable_ui_ok (w : world S) c :
  list_reachable localeCompare w c → ui_ok c.
Proof.
  unfold list_reachable. revert c. apply rtc_ind_r.
  - eapply (keeps_run ui_ok (λ _, True)); [unfold loadProducts; keeps_solve|]. unfold local_ok, ui_ok_local.
    simpl. discriminate.
  - intros y z _ Hyz IH. inversion Hyz; subst. by apply on_list_event_ui_ok.
Qed.
Lemma list_reachable_world_ok (w : world S) c :
  world_ok (mkPage initial_list_page w) → list_reachable localeCompare w c → world_ok c.
Proof.
  unfold list_reachable. intros Hw. revert c. apply rtc_ind_r.
  - eapply (keeps_run world_ok (λ _, True)); [unfold loadProducts; keeps_solve|exact Hw].
  - intros y z _ Hyz IH. inversion Hyz; subst.
    by apply (keeps_run world_ok (λ _, True)); [apply on_list_event_world_ok|].
Qed.
Lemma confirmDelete_sent (c : page list_page S) i :
  c.(local).(selectedProductId) = Some i →
  sent (run_state confirmDelete c).(shared).(w_net) =
    sent c.(shared).(w_net) ++ [call_request (CDeleteProduct i)].
Proof.
  intros Hsel. unfold run_state, confirmDelete, catch. rewrite st_bind_run. simpl.
  rewrite Hsel, st_bind_run, call_run.
  change (call_request (CDeleteProduct i)) with (mkRequest DELETE (product_url i) NoBody).
  pose proof (proj1 (axios_request_state (mkRequest DELETE (product_url i) NoBody)
                c.(shared).(w_net))) as Hs.
  unfold deleteProduct, axios_delete in *. unfold run_state in Hs.
  unfold mbind at 1, St_bind, st_bind.
  destruct (axios_request _ _) as [[r|e] n']; simpl in *; by rewrite Hs.
Qed.

(** In every state the list page reaches from its mount through
    events on the elements it shows, whatever the network does, the
    store's ids are distinct, the backend is well formed, and the
    confirmation modal is only open with a product selected. *)
Theorem list_reachable_ok (w : world S) c :
  world_ok (mkPage initial_list_page w) → list_reachable localeCompare w c →
  world_ok c ∧ (c.(local).(isDeleteModalOpen) = true → is_Some c.(local).(selectedProductId)).
Proof.
  intros Hw Hr. split; [by eapply list_reachable_world_ok|by eapply list_reachable_ui_ok].
Qed.

(** C26: whenever the confirmation modal's "Confirm" is on screen in a
    reachable state, clicking it sends exactly one request, the [DELETE]
    of the product the user chose: a product is always selected. *)
Theorem confirm_sends_delete (w : world S) c :
  list_reachable localeCompare w c → enabled localeCompare c ConfirmDeletion = true →
  ∃ i, c.(local).(selectedProductId) = Some i ∧
    sent (run_state (on_list_event ConfirmDeletion) c).(shared).(w_net) =
      sent c.(shared).(w_net) ++ [call_request (CDeleteProduct i)].
Proof.
  intros Hr Hen. pose proof (list_reachable_ui_ok w c Hr) as Hui.
  unfold enabled, render_list_page, modal in Hen. simpl in Hen.
  destruct (isDeleteModalOpen _) eqn:Ho; [|by apply bool_decide_eq_true in Hen as []].
  destruct (Hui Ho) as [i Hi]. exists i. split; [done|]. by apply confirmDelete_sent.
Qed.
Lemma render_keys (c : page list_page S) items :
  (render_list_page localeCompare c).(lv_items) = Some items →
  map item_key items = ids (sortedProducts localeCompare c.(local).(sortType)
                              (ProductSlice.select_products c.(shared).(w_store))).
Proof.
  unfold render_list_page, render_items. simpl.
  destruct (sortedProducts _ _ _) as [|p ps]; [discriminate|]. intros [= <-].
  unfold ids. change (item_of p :: map item_of ps) with (map item_of (p :: ps)).
  rewrite List.map_map. reflexivity.
Qed.

(** C28: the page has no dead end: from any state, the user can close
    both modals with the buttons they show ("Cancel"). *)
Theorem list_modals_closable (c : page list_page S) :
  ∃ c', rtc (list_step localeCompare) c c' ∧
    c'.(local).(isAddModalOpen) = false ∧ c'.(local).(isDeleteModalOpen) = false.
Proof.
  set (close_delete := λ c0 : page list_page S,
         if c0.(local).(isDeleteModalOpen) then run_state (on_list_event CancelDelete) c0 else c0).
  assert (∀ c0, rtc (list_step localeCompare) c0 (close_delete c0)) as Hdel.
  { intros c0. unfold close_delete. destruct (isDeleteModalOpen _) eqn:Ho; [|done].
    apply rtc_once. constructor. unfold enabled, render_list_page, modal. simpl.
    rewrite Ho. by apply bool_decide_eq_true. }
  destruct (isAddModalOpen c.(local)) eqn:Ha.
  - exists (close_delete (run_state (on_list_event CancelAdd) c)). split.
    + eapply rtc_l; [|apply Hdel]. constructor. unfold enabled, render_list_page, modal.
      simpl. rewrite Ha. by apply bool_decide_eq_true.
    + unfold close_delete. simpl. destruct (isDeleteModalOpen _) eqn:Ho; simpl; [done|by rewrite Ho].
  - exists (close_delete c). split; [apply Hdel|].
    unfold close_delete. destruct (isDeleteModalOpen _) eqn:Ho; simpl; [done|by rewrite Ha, Ho].
Qed.

(** C29: in every reachable state the rendered list is well formed for
    React: the items' [key]s are distinct, one per product of the store. *)
Theorem list_render_keys_unique (w : world S) c items :
  world_ok (mkPage initial_list_page w) → list_reachable localeCompare w c →
  (render_list_page localeCompare c).(lv_items) = Some items →
  NoDup (map item_key items) ∧
  map item_key items ≡ₚ ids (ProductSlice.select_products c.(shared).(w_store)).
Proof.
  intros Hw Hr Hi. rewrite (render_keys c items Hi).
  destruct (list_reachable_world_ok w c Hw Hr) as [Hwf _].
  assert (ids (sortedProducts localeCompare (sortType (local c))
                 (ProductSlice.select_products (w_store (shared c))))
          ≡ₚ ids (ProductSlice.select_products (w_store (shared c)))) as Hp.
  { unfold ids. apply Permutation_map, js_sort_perm. }
  split; [|done]. by rewrite Hp.
Qed.
End reachable.
