(* ===== verification/DetailPage.v ===== *)
(** * [src/src/pages/ProductDetailPage.tsx]

    The page's [useState] hooks are the record [detail_page]; the route
    parameter [id] is an argument of the mount effect.  Handlers:
    - [loadProductAndComments]: [fetchProductById(Number(id))], show the
      product, then [fetchComments], show them; a rejection is logged;
    - [handleEditClick]: copy the product into the form, open the modal;
    - [handleUpdate]: [updateProduct] with the product spread and the form's
      fields, then [dispatch(updateProduct(...))] and show the returned
      record;
    - [handleAddComment]: when the text is not blank, [addComment] and
      append the returned comment;
    - [handleDeleteComment]: [deleteComment], then drop the comments with
      that id.
    [detail_view] is the page's first render decision: "Loading..." while
    no product is set.  The form's [handleInputChange] is the same function
    as the list page's ([ListPage.handleInputChange]).  The theorems cover
    loading (found, missing, comments lost), edit, add and delete comment,
    the list link's round trip, and the world invariant [world_ok] kept by
    every handler under any network behaviour. *)

From Stdlib Require Import ZArith Lia.
From stdpp Require Import strings.
From stdpp Require Import base list decidable.
From S2P Require Import Prelude Types Remote Service Slice World ListPage.
Open Scope Z_scope.

Record detail_page := mkDetail {
  product : option Product;
  comments_st : list CommentModel;
  newCommentText : string;
  isEditModalOpen : bool;
  d_formData : form_data
}.

Definition initial_detail_page : detail_page := mkDetail None [] "" false empty_form.

Definition set_product (p : option Product) (d : detail_page) : detail_page :=
  mkDetail p d.(comments_st) d.(newCommentText) d.(isEditModalOpen) d.(d_formData).
Definition set_comments (f : list CommentModel → list CommentModel) (d : detail_page)
  : detail_page :=
  mkDetail d.(product) (f d.(comments_st)) d.(newCommentText) d.(isEditModalOpen) d.(d_formData).
Definition set_newCommentText (t : string) (d : detail_page) : detail_page :=
  mkDetail d.(product) d.(comments_st) t d.(isEditModalOpen) d.(d_formData).
Definition set_isEditModalOpen (b : bool) (d : detail_page) : detail_page :=
  mkDetail d.(product) d.(comments_st) d.(newCommentText) b d.(d_formData).
Definition set_d_formData (f : form_data) (d : detail_page) : detail_page :=
  mkDetail d.(product) d.(comments_st) d.(newCommentText) d.(isEditModalOpen) f.

(** The form filled from a product ([handleEditClick]). *)
Definition form_of_product (p : Product) : form_data :=
  mkForm p.(name) p.(count) p.(size).(width) p.(size).(height) p.(weight) p.(imageUrl).

(** [updatedData = { ...product, name, count, size, weight, imageUrl }]:
    every field is present, the id and comments are the product's. *)
Definition updated_data (p : Product) (fd : form_data) : ProductPatch :=
  mkPatch (Some p.(id)) (Some fd.(f_imageUrl)) (Some fd.(f_name)) (Some fd.(f_count))
          (Some (mkSize fd.(f_width) fd.(f_height))) (Some fd.(f_weight))
          (Some p.(comments)).

Section handlers.
Context {S : Type} `{!RemoteService S}.

Abbreviation DH := (St (page detail_page S) http_error).

(** [fetchProductById(Number(id))] when [Number(id)] is [NaN] (or not an
    integer): the URL carries ["NaN"], which names no product. *)
Definition fetchProductById_NaN : St (net S) http_error Product :=
  r ← axios_get (baseUrl +:+ "/" +:+ "NaN"); data_product r.

(** [fetchComments(Number(id))] when [Number(id)] is [NaN]. *)
Definition fetchComments_NaN : St (net S) http_error (list CommentModel) :=
  r ← axios_get ("http://localhost:3001/comments?productId=" +:+ "NaN"); data_comments r.

Definition fetch_by_param (i : option Z) : St (net S) http_error Product :=
  match i with
  | Some n => fetchProductById n
  | None => fetchProductById_NaN
  end.

Definition fetch_comments_by_param (i : option Z)
  : St (net S) http_error (list CommentModel) :=
  match i with
  | Some n => fetchComments n
  | None => fetchComments_NaN
  end.

(** The mount effect for the route parameter [id]. *)
Definition loadProductAndComments (param : option string) : DH unit :=
  match param with
  | None => mret ()
  | Some s =>
      if falsy_string s then mret ()
      else
        catch (productData ← call (fetch_by_param (js_Number s));
               _ ← set_local (set_product (Some productData));
               commentsData ← call (fetch_comments_by_param (js_Number s));
               set_local (set_comments (λ _, commentsData)))
              (λ _, console_error "Failed to fetch product or comments:")
  end.

Definition handleEditClick : DH unit :=
  c ← get_st;
  match c.(local).(product) with
  | Some p =>
      _ ← set_local (set_d_formData (form_of_product p));
      set_local (set_isEditModalOpen true)
  | None => mret ()
  end.

Definition handleUpdate : DH unit :=
  c ← get_st;
  match c.(local).(product) with
  | None => mret ()
  | Some p =>
      catch (updatedProductFromServer ←
               call (updateProduct p.(id) (updated_data p c.(local).(d_formData)));
             _ ← dispatch_action (ProductSlice.updateProduct updatedProductFromServer);
             _ ← set_local (set_product (Some updatedProductFromServer));
             set_local (set_isEditModalOpen false))
            (λ _, console_error "Failed to update product:")
  end.

(** [handleAddComment]; [now] is [new Date().toLocaleString()]. *)
Definition handleAddComment (now : string) : DH unit :=
  c ← get_st;
  match c.(local).(product) with
  | Some p =>
      if falsy_string (js_trim c.(local).(newCommentText)) then mret ()
      else
        let newComment := mkCommentDraft p.(id) c.(local).(newCommentText) now in
        catch (addedComment ← call (addComment newComment);
               _ ← set_local (set_comments (λ prev, prev ++ [addedComment]));
               set_local (set_newCommentText ""))
              (λ _, console_error "Failed to add comment:")
  | None => mret ()
  end.

Definition handleDeleteComment (commentId : Z) : DH unit :=
  catch (_ ← call (deleteComment commentId);
         set_local (set_comments (remove_comment commentId)))
        (λ _, console_error "Failed to delete comment:").
End handlers.

(** What the page renders. *)
Inductive detail_view :=
| ViewLoading
| ViewReady (p : Product) (cs : list CommentModel).

Definition render_detail (d : detail_page) : detail_view :=
  match d.(product) with
  | None => ViewLoading
  | Some p => ViewReady p d.(comments_st)
  end.

(** ** Theorems of the detail page *)

Section detail_theorems.
Context {S : Type} `{!RemoteService S} `{!RemoteLaws S}.

Lemma falsy_js_String i : falsy_string (js_String i) = false.
Proof. apply bool_decide_eq_false_2, js_String_nonempty. Qed.

(** C13: opened on [/product/{id}] of a product the server holds, on a
    reliable network, the page shows that product and exactly the
    server's comments whose [productId] is [id]. *)
Theorem load_shows_product (c : page detail_page S) i p :
  srv_ok (server c.(shared).(w_net)) → schedule c.(shared).(w_net) = [] →
  find_product i (srv_products (server c.(shared).(w_net))) = Some p →
  let c' := run_state (loadProductAndComments (Some (js_String i))) c in
  render_detail c'.(local) =
    ViewReady p (comments_of i (srv_comments (server c.(shared).(w_net)))) ∧
  c'.(shared).(w_log) = c.(shared).(w_log).
Proof.
  destruct c as [d [n st lg]]; simpl. intros Hok Hs Hf.
  pose proof (fetchProductById_delivered n i Hok) as Hp. rewrite Hf, Hs in Hp.
  specialize (Hp eq_refl).
  pose proof (fetchComments_delivered
                (mkNet (server n) [] (sent n ++ [call_request (CFetchProductById i)])) i Hok
                eq_refl) as Hc.
  unfold run_state, loadProductAndComments. rewrite falsy_js_String, js_Number_js_String.
  erewrite catch_ok.
  2:{ eapply st_bind_ok_eq; [apply call_ok; exact Hp|].
      eapply st_bind_ok_eq; [reflexivity|].
      eapply st_bind_ok_eq; [apply call_ok; exact Hc|]. reflexivity. }
  done.
Qed.

(** C14: when the product does not exist, the page never leaves the
    "Loading..." view: the 404 is only logged, there is no failed state
    to display (spec §4.3 asks for one). *)
Theorem load_missing_stays_loading (c : page detail_page S) i :
  srv_ok (server c.(shared).(w_net)) → schedule c.(shared).(w_net) = [] →
  c.(local).(product) = None →
  find_product i (srv_products (server c.(shared).(w_net))) = None →
  let c' := run_state (loadProductAndComments (Some (js_String i))) c in
  render_detail c'.(local) = ViewLoading ∧
  c'.(shared).(w_log) =
    c.(shared).(w_log) ++ [ConsoleError "Failed to fetch product or comments:"].
Proof.
  destruct c as [d [n st lg]]; simpl. intros Hok Hs Hd Hf.
  pose proof (fetchProductById_delivered n i Hok) as Hp. rewrite Hf, Hs in Hp.
  specialize (Hp eq_refl).
  unfold run_state, loadProductAndComments. rewrite falsy_js_String, js_Number_js_String.
  erewrite catch_err.
  2:{ apply st_bind_err. apply call_err. exact Hp. }
  unfold render_detail. simpl. by rewrite Hd.
Qed.

(** C15: when the product arrives but the comments request is lost, the
    page shows the product with the comments it had (none on a fresh
    page) and only logs the error: a failed load can end in the
    "Ready" view, not in a failed state. *)
Theorem load_comments_lost_shows_product (c : page detail_page S) i p :
  srv_ok (server c.(shared).(w_net)) →
  schedule c.(shared).(w_net) = [Delivered; LostRequest] →
  find_product i (srv_products (server c.(shared).(w_net))) = Some p →
  let c' := run_state (loadProductAndComments (Some (js_String i))) c in
  render_detail c'.(local) = ViewReady p c.(local).(comments_st) ∧
  c'.(shared).(w_log) =
    c.(shared).(w_log) ++ [ConsoleError "Failed to fetch product or comments:"].
Proof.
  destruct c as [d [n st lg]]; simpl. intros Hok Hs Hf.
  pose proof (fetchProductById_delivered n i Hok) as Hp. rewrite Hf, Hs in Hp.
  specialize (Hp eq_refl).
  unfold run_state, loadProductAndComments. rewrite falsy_js_String, js_Number_js_String.
  erewrite catch_err.
  2:{ eapply st_bind_ok_eq; [apply call_ok; exact Hp|].
      eapply st_bind_ok_eq; [reflexivity|].
      apply st_bind_err. apply call_err. simpl.
      unfold fetchComments, axios_get. apply st_bind_err.
      by apply axios_lost_request. }
  done.
Qed.

(** C9: on a reliable network, adding a non-blank comment to a loaded
    product appends exactly one comment, the server's record with the
    typed text, the product's id and the date, and clears the input. *)
Theorem handleAddComment_appends (c : page detail_page S) p now :
  srv_ok (server c.(shared).(w_net)) → schedule c.(shared).(w_net) = [] →
  c.(local).(product) = Some p →
  falsy_string (js_trim c.(local).(newCommentText)) = false →
  let c' := run_state (handleAddComment now) c in
  ∃ added, c'.(local).(comments_st) = c.(local).(comments_st) ++ [added] ∧
    added.(CM.description) = c.(local).(newCommentText) ∧
    added.(CM.productId) = p.(id) ∧ added.(CM.date) = now ∧
    c'.(local).(newCommentText) = "".
Proof.
  destruct c as [d [n st lg]]; simpl. intros Hok Hs Hp Ht.
  destruct (addComment_delivered n (mkCommentDraft p.(id) d.(newCommentText) now) Hok)
    as (i & s1 & _ & Hadd & _ & _); [by rewrite Hs|].
  unfold run_state, handleAddComment. erewrite st_bind_ok by reflexivity. simpl.
  rewrite Hp, Ht. erewrite catch_ok.
  2:{ eapply st_bind_ok_eq; [apply call_ok; exact Hadd|]. reflexivity. }
  simpl. eexists. by repeat split.
Qed.

(** Adding a blank comment sends nothing and changes nothing: no
    request, no state change, nothing logged. *)
Lemma handleAddComment_blank (c : page detail_page S) now :
  falsy_string (js_trim c.(local).(newCommentText)) = true →
  handleAddComment now c = (Ok (), c).
Proof.
  intros Ht. unfold handleAddComment. erewrite st_bind_ok by reflexivity. simpl.
  destruct (product (local c)); [by rewrite Ht|done].
Qed.

(** C16: on a reliable network, an edit of a loaded product that the
    server holds shows the server's updated record, whose fields are the
    form's, and replaces the product in place in the store. *)
Theorem handleUpdate_shows_server_record (c : page detail_page S) p q :
  srv_ok (server c.(shared).(w_net)) → schedule c.(shared).(w_net) = [] →
  c.(local).(product) = Some p →
  find_product p.(id) (srv_products (server c.(shared).(w_net))) = Some q →
  let c' := run_state handleUpdate c in
  let q' := patched (updated_data p c.(local).(d_formData)) q in
  c'.(local).(product) = Some q' ∧
  ProductSlice.select_products c'.(shared).(w_store) =
    ProductSlice.replace_first q' (ProductSlice.select_products c.(shared).(w_store)) ∧
  c'.(local).(isEditModalOpen) = false.
Proof.
  destruct c as [d [n st lg]]; simpl. intros Hok Hs Hp Hf.
  destruct (updateProduct_delivered n p.(id) (updated_data p d.(d_formData)) q Hok)
    as (s1 & Hup & _ & _); [by rewrite Hs|done|].
  unfold run_state, handleUpdate. erewrite st_bind_ok by reflexivity. simpl.
  rewrite Hp. erewrite catch_ok.
  2:{ eapply st_bind_ok_eq; [apply call_ok; exact Hup|]. reflexivity. }
  done.
Qed.
Lemma keeps_fetch_by_param i : keeps net_ok (λ _, True) (fetch_by_param (S:=S) i).
Proof. destruct i; simpl; [auto with shop|]. apply keeps_axios. auto with shop. Qed.

Lemma keeps_fetch_comments_by_param i :
  keeps net_ok (λ _, True) (fetch_comments_by_param (S:=S) i).
Proof. destruct i; simpl; [auto with shop|]. apply keeps_axios. auto with shop. Qed.

#[local] Hint Resolve keeps_fetch_by_param keeps_fetch_comments_by_param : shop.

(** C22: whatever the network does, every handler of the detail page
    keeps the world's invariant: the Catalog Store's ids stay distinct
    (the edit replaces the record in place) and the backend stays well
    formed. *)
Theorem detail_handlers_keep_world_ok param now i :
  keeps world_ok (λ _, True) (loadProductAndComments (S:=S) param) ∧
  keeps world_ok (λ _, True) (handleEditClick (S:=S)) ∧
  keeps world_ok (λ _, True) (handleUpdate (S:=S)) ∧
  keeps world_ok (λ _, True) (handleAddComment (S:=S) now) ∧
  keeps world_ok (λ _, True) (handleDeleteComment (S:=S) i).
Proof.
  split_and!; unfold loadProductAndComments, handleEditClick, handleUpdate,
    handleAddComment, handleDeleteComment; keeps_solve.
Qed.
End detail_theorems.

Section delete_comment.
Context {S : Type} `{!RemoteService S}.

(** Deleting a comment id that is not in the page's list leaves the
    list unchanged, whatever the network and the server answer. *)
Theorem handleDeleteComment_absent (c : page detail_page S) i :
  i ∉ comment_ids c.(local).(comments_st) →
  (run_state (handleDeleteComment i) c).(local).(comments_st) = c.(local).(comments_st).
Proof.
  intros Hi. unfold run_state, handleDeleteComment, catch.
  rewrite st_bind_run, call_run.
  destruct (deleteComment i _) as [[u|e] n']; simpl; [|done].
  apply filter_true_id, Forall_forall. intros x Hx.
  apply negb_true_iff, bool_decide_eq_false. intros <-. apply Hi.
  apply list_elem_of_fmap. exists x. split; [done|]. by apply list_elem_of_In.
Qed.
End delete_comment.

(** The router's match of [/product/:id]: the parameter [id] of a path. *)
Definition product_route_param (path : string) : option string :=
  strip_prefix "/product/" path.

(** C20: the link the list page renders for a product leads the detail
    page to that product: the route parameter, read with [Number], is the
    product's id. *)
Theorem list_link_opens_product (p : Product) :
  (product_route_param (item_of p).(item_to)) ≫= js_Number = Some p.(id).
Proof.
  unfold product_route_param, item_of. cbn [item_to]. rewrite strip_prefix_app. simpl.
  apply js_Number_js_String.
Qed.
