(* ===== verification/DetailView.v ===== *)
(** * The detail page as a user interface: render, events, reachable states

    [ProductDetailPage] renders "Loading..." until a product is set; then
    the product, the "Edit Product" button and its modal (six inputs on
    [formData]), the comment list (or "No comments yet."), each comment's
    "Delete", and the comment input with "Add Comment".  [detail_event]
    names those elements, [detail_enabled] says which are on screen, and
    [on_detail_event] is the handler React runs.  The "← Back" button
    leaves the page ([navigate(-1)] unmounts it) and is not a step of it.

    Whatever the network does, every state the page reaches from its mount
    keeps the backend's laws, opens the edit modal only with a product
    shown, and shows only comments of the product it shows
    ([detail_reachable_ok]).  The proofs use the rules of
    [ServiceSpec.any_network]: the values a call returns are those the
    backend's contract gives. *)

From Stdlib Require Import ZArith Lia.
From stdpp Require Import strings.
From stdpp Require Import base list decidable relations.
From S2P Require Import Prelude Types Remote Service ServiceSpec Slice World ListPage DetailPage.
Open Scope Z_scope.

(** The [name] attributes of the edit modal's inputs (line 185). *)
Definition edit_fields : list string :=
  ["name"; "count"; "width"; "height"; "weight"; "imageUrl"].

(** The page once a product is set. *)
Record detail_screen := mkDetailScreen {
  ds_product : Product;                      (** Image, name, count, weight *)
  ds_edit_modal : option form_data;          (** The edit modal's inputs *)
  ds_comments : option (list CommentModel);  (** [None]: "No comments yet." *)
  ds_comment_input : string                  (** [value={newCommentText}] *)
}.

(** [None]: "Loading...". *)
Definition render_detail_page (d : detail_page) : option detail_screen :=
  match d.(product) with
  | None => None
  | Some p =>
      Some (mkDetailScreen p (modal d.(isEditModalOpen) d.(d_formData))
              (match d.(comments_st) with [] => None | cs => Some cs end)
              d.(newCommentText))
  end.

Inductive detail_event :=
| ClickEdit                              (** "Edit Product" *)
| EditInput (name value : string)        (** An input of the edit modal *)
| ConfirmEdit                            (** The edit modal's "Confirm" *)
| CancelEdit                             (** The edit modal's "Cancel" *)
| CloseEdit                              (** The edit modal's [onClose] *)
| ClickDeleteComment (i : Z)             (** A comment's "Delete" *)
| CommentInput (text : string)           (** The comment input *)
| ClickAddComment (now : string).        (** "Add Comment", at time [now] *)

Definition detail_enabled (d : detail_page) (ev : detail_event) : bool :=
  match render_detail_page d with
  | None => false
  | Some v =>
      match ev with
      | ClickEdit | CommentInput _ | ClickAddComment _ => true
      | EditInput name value =>
          bool_decide (is_Some v.(ds_edit_modal)) && bool_decide (name ∈ edit_fields)
          && bool_decide (is_Some (handleInputChange name value d.(d_formData)))
      | ConfirmEdit | CancelEdit | CloseEdit => bool_decide (is_Some v.(ds_edit_modal))
      | ClickDeleteComment i => bool_decide (i ∈ comment_ids d.(comments_st))
      end
  end.

Section events.
Context {S : Type} `{!RemoteService S}.

Abbreviation DH := (St (page detail_page S) http_error).

(** The edit modal's [onChange={handleInputChange}]. *)
Definition on_edit_input (name value : string) : DH unit :=
  c ← get_st;
  match handleInputChange name value c.(local).(d_formData) with
  | Some fd => set_local (set_d_formData fd)
  | None => mret ()
  end.

Definition on_detail_event (ev : detail_event) : DH unit :=
  match ev with
  | ClickEdit => handleEditClick
  | EditInput name value => on_edit_input name value
  | ConfirmEdit => handleUpdate
  | CancelEdit | CloseEdit => set_local (set_isEditModalOpen false)
  | ClickDeleteComment i => handleDeleteComment i
  | CommentInput t => set_local (set_newCommentText t)
  | ClickAddComment now => handleAddComment now
  end.

Inductive detail_step : page detail_page S → page detail_page S → Prop :=
| detail_step_event ev c :
    detail_enabled c.(local) ev = true →
    detail_step c (run_state (on_detail_event ev) c).

(** Mounted on the route [/product/:id] with parameter [param], then the
    user acts. *)
Definition detail_reachable (param : option string) (w : world S)
  (c : page detail_page S) : Prop :=
  rtc detail_step (run_state (loadProductAndComments param) (mkPage initial_detail_page w)) c.
End events.

(** The edit modal needs a product, and the comments shown are the shown
    product's. *)
Definition detail_ok (d : detail_page) : Prop :=
  (d.(isEditModalOpen) = true → is_Some d.(product)) ∧
  (∀ p, d.(product) = Some p → Forall (λ cm, cm.(CM.productId) = p.(id)) d.(comments_st)).

Section reachable.
Context {S : Type} `{!RemoteService S} `{!RemoteLaws S}.

(** The backend's laws and [detail_ok]. *)
Definition dok (c : page detail_page S) : Prop :=
  srv_ok (server c.(shared).(w_net)) ∧ detail_ok c.(local).

Lemma Forall_remove_comment (P : CommentModel → Prop) i l :
  Forall P l → Forall P (remove_comment i l).
Proof.
  unfold remove_comment. rewrite !Forall_forall. intros H x Hx.
  apply H. apply list_elem_of_In in Hx. apply list_elem_of_In.
  by apply filter_In in Hx as [? _].
Qed.

Lemma wp_call_any {A} (m : St (net S) http_error A) Q R (c : page detail_page S) :
  keeps net_ok (λ _, True) m → srv_ok (server c.(shared).(w_net)) →
  (∀ a n, srv_ok (server n) → Q a (set_net n c)) →
  (∀ e n, srv_ok (server n) → R e (set_net n c)) →
  wp (call m) Q R c.
Proof. intros Hm Hok HQ HR. rewrite wp_call. by apply wp_any_srv_ok. Qed.

Lemma dok_set_local (c : page detail_page S) f :
  dok c → (∀ d, detail_ok d → detail_ok (f d)) → dok (mkPage (f c.(local)) c.(shared)).
Proof. intros [Hok Hd] Hf. split; [done|by apply Hf]. Qed.

Lemma dok_set_net (c : page detail_page S) n : dok c → srv_ok (server n) → dok (set_net n c).
Proof. intros [_ Hd] Hn. by split. Qed.

Lemma handleEditClick_dok c : dok c → wp (handleEditClick (S:=S)) (λ _, dok) (λ _, dok) c.
Proof.
  intros Hc. pose proof Hc as [Hok [He Hcs]]. unfold handleEditClick. wp_step. wp_step. simpl.
  destruct (product _) as [p|] eqn:Hp; [|wp_step; exact Hc].
  do 3 wp_step. split; [done|]. split; simpl; rewrite Hp; [by eauto|intros p' Hp'; by apply Hcs].
Qed.

Lemma handleUpdate_dok c : dok c → wp (handleUpdate (S:=S)) (λ _, dok) (λ _, dok) c.
Proof.
  intros Hc. pose proof Hc as [Hok [He Hcs]]. unfold handleUpdate. wp_step. wp_step. simpl.
  destruct (product _) as [p|] eqn:Hp; [|wp_step; exact Hc].
  wp_step. wp_step. rewrite wp_call. apply wp_updateProduct_any; [done| |].
  - intros q n Hq Hn. simpl. do 5 wp_step. split; [done|]. split; simpl; [by eauto|].
    intros p' [= <-]. rewrite Hq. by apply Hcs.
  - intros e n Hn. simpl. wp_step. split; [exact Hn|exact (proj2 Hc)].
Qed.

Lemma handleAddComment_dok now c : dok c → wp (handleAddComment (S:=S) now) (λ _, dok) (λ _, dok) c.
Proof.
  intros Hc. pose proof Hc as [Hok [He Hcs]]. unfold handleAddComment. wp_step. wp_step. simpl.
  destruct (product _) as [p|] eqn:Hp; [|wp_step; exact Hc].
  destruct (falsy_string _); [wp_step; exact Hc|].
  wp_step. wp_step. rewrite wp_call. apply wp_addComment_any; [done| |].
  - intros cm n Hcm Hn. simpl. do 3 wp_step. split; [done|]. split; simpl; [done|].
    intros p' Hp'. rewrite Hp in Hp'. injection Hp' as <-.
    apply Forall_app. split; [by apply Hcs|by constructor].
  - intros e n Hn. simpl. wp_step. split; [exact Hn|exact (proj2 Hc)].
Qed.

Lemma handleDeleteComment_dok i c : dok c → wp (handleDeleteComment (S:=S) i) (λ _, dok) (λ _, dok) c.
Proof.
  intros Hc. pose proof Hc as [Hok [He Hcs]]. unfold handleDeleteComment. wp_step. wp_step.
  apply wp_call_any; [auto with shop|done| |].
  - intros _ n Hn. simpl. wp_step. split; [done|]. split; simpl; [done|].
    intros p Hp. by apply Forall_remove_comment, Hcs.
  - intros e n Hn. simpl. wp_step. split; [exact Hn|exact (proj2 Hc)].
Qed.
Lemma on_edit_input_dok name value c :
  dok c → wp (on_edit_input (S:=S) name value) (λ _, dok) (λ _, dok) c.
Proof.
  intros Hc. unfold on_edit_input. wp_step. wp_step. simpl.
  destruct (handleInputChange _ _ _); wp_step; [|exact Hc]. by apply dok_set_local.
Qed.

Lemma on_detail_event_dok ev c : dok c → dok (run_state (on_detail_event (S:=S) ev) c).
Proof.
  intros Hc. apply (wp_run_state _ (λ _, dok) (λ _, dok)); [|done|done].
  destruct ev; simpl.
  - by apply handleEditClick_dok.
  - by apply on_edit_input_dok.
  - by apply handleUpdate_dok.
  - wp_step. apply dok_set_local; [done|]. intros d [_ Hd]. by split.
  - wp_step. apply dok_set_local; [done|]. intros d [_ Hd]. by split.
  - by apply handleDeleteComment_dok.
  - wp_step. by apply dok_set_local.
  - by apply handleAddComment_dok.
Qed.

(** A [GET] to a URL the backend does not route never succeeds. *)
Lemma wp_get_unrouted_any {A} url (k : response → St (net S) http_error A) Q R (n : net S) :
  srv_ok (server n) → route url = None → (∀ e n', srv_ok (server n') → R e n') →
  wp (axios_get url ≫= k) Q R n.
Proof.
  intros Hok Hu HR. apply wp_axios_any; [done|done|].
  intros resp n' Hh _ H2. unfold handle in Hh. simpl in Hh. rewrite Hu in Hh.
  injection Hh as <- _. by vm_compute in H2.
Qed.

Lemma wp_fetch_by_param_any o Q R (n : net S) :
  srv_ok (server n) →
  (∀ p n', (∃ i, o = Some i ∧ p.(id) = i) → srv_ok (server n') → Q p n') →
  (∀ e n', srv_ok (server n') → R e n') →
  wp (fetch_by_param o) Q R n.
Proof.
  intros Hok HQ HR. destruct o as [i|]; simpl.
  - apply wp_fetchProductById_any; [done| |done]. intros p n' Hp. apply HQ. by exists i.
  - by apply wp_get_unrouted_any.
Qed.

Lemma wp_fetch_comments_by_param_any o Q R (n : net S) :
  srv_ok (server n) →
  (∀ cs n', (∀ i, o = Some i → Forall (λ cm, cm.(CM.productId) = i) cs) →
     srv_ok (server n') → Q cs n') →
  (∀ e n', srv_ok (server n') → R e n') →
  wp (fetch_comments_by_param o) Q R n.
Proof.
  intros Hok HQ HR. destruct o as [i|]; simpl.
  - apply wp_fetchComments_any; [done| |done]. intros cs n' Hcs. apply HQ. by intros ? [= <-].
  - by apply wp_get_unrouted_any.
Qed.

(** The mount: the product fetched by [Number(id)], then its comments. *)
Lemma mount_dok param (w : world S) :
  srv_ok (server w.(w_net)) →
  dok (run_state (loadProductAndComments param) (mkPage initial_detail_page w)).
Proof.
  intros Hok. assert (dok (mkPage initial_detail_page w)) as Hc.
  { split; [done|]. split; [discriminate|done]. }
  apply (wp_run_state _ (λ _, dok) (λ _, dok)); [|done|done].
  unfold loadProductAndComments. destruct param as [s|]; [|by wp_step].
  destruct (falsy_string s); [by wp_step|].
  wp_step. wp_step. rewrite wp_call. apply wp_fetch_by_param_any; [done| |].
  - intros p n (i & Hi & Hp) Hn. simpl. wp_step. wp_step. wp_step. rewrite wp_call.
    apply wp_fetch_comments_by_param_any; [done| |].
    + intros cs n' Hcs Hn'. simpl. wp_step. split; [done|]. split; [discriminate|].
      intros p' [= <-]. simpl. rewrite Hp. by apply Hcs.
    + intros e n' Hn'. simpl. wp_step. split; [done|]. split; [discriminate|]. simpl. constructor.
  - intros e n Hn. simpl. wp_step. split; [done|]. split; [discriminate|done].
Qed.

(** C27: whatever the network does, in every state the detail page
    reaches from its mount through events on the elements it shows, the
    backend keeps its laws, the edit modal is only open with a product
    shown, and every comment shown belongs to the product shown. *)
Theorem detail_reachable_ok param (w : world S) c :
  srv_ok (server w.(w_net)) → detail_reachable param w c →
  srv_ok (server c.(shared).(w_net)) ∧
  (c.(local).(isEditModalOpen) = true → is_Some c.(local).(product)) ∧
  (∀ p, c.(local).(product) = Some p →
     Forall (λ cm, cm.(CM.productId) = p.(id)) c.(local).(comments_st)).
Proof.
  intros Hok Hr. cut (dok c); [intros [? [? ?]]; done|].
  revert c Hr. unfold detail_reachable. apply rtc_ind_r; [by apply mount_dok|].
  intros y z _ Hyz IH. inversion Hyz; subst. by apply on_detail_event_dok.
Qed.
End reachable.
