(* ===== verification/Async.v ===== *)
(** * Handlers that suspend at [await]: interleavings of pending requests

    Spec §5: an [async] handler runs until its first [await], suspends
    while its request is in flight, and other handlers run meanwhile.  An
    [aprog] is a handler cut at its awaits: it reads the page ([AGet]),
    updates it ([AModify]), rejects ([AThrow]), or sends a request and
    waits for the outcome ([AAwait]).  Two interpretations:
    - [run_sync]: every await completes at once, on the page's network
      ([World]); the service functions cut at their await
      ([a_fetchProducts], ...) run this way are the functions of [Service]
      ([run_sync_fetchProducts], ...), and [ListAsync] shows the same of
      the list page's handlers;
    - [machine]: the page and the requests in flight.  Sending a request
      runs it on the backend and parks the rest of the handler with the
      outcome; any parked handler may resume next ([mstep_deliver]), and
      a user event may start a new handler at any time ([mstep_start]).
      [drain]: completing each request at once is the synchronous run;
      [reachable_minv]: an invariant every handler keeps between its
      awaits ([akeeps]) holds in every reachable state.
    The backend handles a request when it is sent; only the order in which
    the page sees the answers varies. *)

From Stdlib Require Import ZArith Lia.
From stdpp Require Import strings.
From stdpp Require Import base list decidable relations.
From S2P Require Import Prelude Types Remote Service Slice World.
Open Scope Z_scope.

Section aprog.
Context {σ : Type}.

Inductive aprog (A : Type) : Type :=
| ARet (a : A)
| AThrow (e : http_error)
| AGet (k : σ → aprog A)
| AModify (f : σ → σ) (k : aprog A)
| AAwait (r : request) (k : res http_error response → aprog A).

Arguments ARet {A} a.
Arguments AThrow {A} e.
Arguments AGet {A} k.
Arguments AModify {A} f k.
Arguments AAwait {A} r k.

Fixpoint abind {A B} (m : aprog A) (f : A → aprog B) : aprog B :=
  match m with
  | ARet a => f a
  | AThrow e => AThrow e
  | AGet k => AGet (λ s, abind (k s) f)
  | AModify g k => AModify g (abind k f)
  | AAwait r k => AAwait r (λ o, abind (k o) f)
  end.

(** [try { m } catch (e) { h(e) }] *)
Fixpoint acatch {A} (m : aprog A) (h : http_error → aprog A) : aprog A :=
  match m with
  | ARet a => ARet a
  | AThrow e => h e
  | AGet k => AGet (λ s, acatch (k s) h)
  | AModify g k => AModify g (acatch k h)
  | AAwait r k => AAwait r (λ o, acatch (k o) h)
  end.

(** [await axios(...)]: the answer on a 2xx, the rejection otherwise. *)
Definition aawait (r : request) : aprog response :=
  AAwait r (λ o, match o with Ok resp => ARet resp | Err e => AThrow e end).
End aprog.

Arguments aprog : clear implicits.
Arguments ARet {σ A} a.
Arguments AThrow {σ A} e.
Arguments AGet {σ A} k.
Arguments AModify {σ A} f k.
Arguments AAwait {σ A} r k.

Declare Scope aprog_scope.
Delimit Scope aprog_scope with aprog.
Notation "'alet' x := m 'in' k" := (abind m (λ x, k))
  (at level 10, x name, m at level 200, k at level 200) : aprog_scope.
Open Scope aprog_scope.

(** A page update that cannot fail ([dispatch], [setState], [alert],
    [console.error]) as one [AModify]. *)
Definition aupdate {σ E} (m : St σ E unit) : aprog σ unit := AModify (run_state m) (ARet ()).

(** ** The service functions, cut at their await *)
Section service.
Context {σ : Type}.

Definition a_data_products (r : response) : aprog σ (list Product) :=
  match r.(data) with RProducts l => ARet l | _ => AThrow UnexpectedBody end.
Definition a_data_product (r : response) : aprog σ Product :=
  match r.(data) with RProduct p => ARet p | _ => AThrow UnexpectedBody end.

Definition a_fetchProducts : aprog σ (list Product) :=
  alet r := aawait (mkRequest GET baseUrl NoBody) in a_data_products r.
Definition a_addProduct (extra_id : option Z) (product : ProductDraft) : aprog σ Product :=
  alet r := aawait (mkRequest POST baseUrl (ProductBody extra_id product)) in a_data_product r.
Definition a_deleteProduct (i : Z) : aprog σ unit :=
  alet _ := aawait (mkRequest DELETE (product_url i) NoBody) in ARet ().

Definition a_data_comments (r : response) : aprog σ (list CommentModel) :=
  match r.(data) with RComments l => ARet l | _ => AThrow UnexpectedBody end.
Definition a_data_comment (r : response) : aprog σ CommentModel :=
  match r.(data) with RComment c => ARet c | _ => AThrow UnexpectedBody end.

Definition a_updateProduct (i : Z) (updatedData : ProductPatch) : aprog σ Product :=
  alet r := aawait (mkRequest PATCH (product_url i) (PatchBody updatedData)) in a_data_product r.
Definition a_fetchProductById (i : Z) : aprog σ Product :=
  alet r := aawait (mkRequest GET (product_url i) NoBody) in a_data_product r.
Definition a_fetchComments (productId : Z) : aprog σ (list CommentModel) :=
  alet r := aawait (mkRequest GET (comments_of_url productId) NoBody) in a_data_comments r.
Definition a_addComment (comment : CommentDraft) : aprog σ CommentModel :=
  alet r := aawait (mkRequest POST comments_url (CommentBody comment)) in a_data_comment r.
Definition a_deleteComment (i : Z) : aprog σ unit :=
  alet _ := aawait (mkRequest DELETE (comment_url i) NoBody) in ARet ().
End service.

(** ** The synchronous interpretation *)
Section sync.
Context {P S : Type} `{!RemoteService S}.

Fixpoint run_sync {A} (m : aprog (page P S) A) : St (page P S) http_error A :=
  match m with
  | ARet a => mret a
  | AThrow e => throw e
  | AGet k => c ← get_st; run_sync (k c)
  | AModify f k => _ ← modify f; run_sync k
  | AAwait r k => λ c,
      let '(o, n') := axios_request r c.(shared).(w_net) in run_sync (k o) (set_net n' c)
  end.

Lemma run_sync_bind {A B} (m : aprog (page P S) A) (f : A → aprog (page P S) B) :
  run_sync (abind m f) ≡ (run_sync m ≫= λ a, run_sync (f a)).
Proof.
  induction m as [a|e|k IH|g k IH|r k IH]; intros c; simpl; try done.
  - apply IH.
  - apply IH.
  - unfold mbind, St_bind, st_bind; simpl.
    destruct (axios_request r _) as [o n']. exact (IH o _).
Qed.

Lemma run_sync_catch {A} (m : aprog (page P S) A) h :
  run_sync (acatch m h) ≡ catch (run_sync m) (λ e, run_sync (h e)).
Proof.
  induction m as [a|e|k IH|g k IH|r k IH]; intros c; simpl; try done.
  - unfold mbind, St_bind, st_bind, get_st, catch. apply IH.
  - unfold mbind, St_bind, st_bind, modify, catch. apply IH.
  - unfold catch; simpl.
    destruct (axios_request r _) as [o n']. exact (IH o _).
Qed.

Lemma run_sync_bind_equiv {A B} (m : aprog (page P S) A) m' (f : A → aprog (page P S) B) f' :
  run_sync m ≡ m' → (∀ a, run_sync (f a) ≡ f' a) → run_sync (abind m f) ≡ (m' ≫= f').
Proof. intros Hm Hf. rewrite run_sync_bind, Hm. by f_equiv. Qed.

Lemma run_sync_catch_equiv {A} (m : aprog (page P S) A) m' h h' :
  run_sync m ≡ m' → (∀ e, run_sync (h e) ≡ h' e) → run_sync (acatch m h) ≡ catch m' h'.
Proof. intros Hm Hh. rewrite run_sync_catch, Hm. by f_equiv. Qed.

(** [await axios(r)] completes at once. *)
Lemma run_sync_await r : run_sync (aawait r) ≡ call (axios_request r).
Proof. intros c. simpl. rewrite call_run. by destruct (axios_request r _) as [[] n']. Qed.

Lemma run_sync_get {A} (k : page P S → aprog (page P S) A) :
  run_sync (AGet k) ≡ (get_st ≫= λ c, run_sync (k c)).
Proof. done. Qed.

(** A service function seen from the page: [call] commutes with [≫=]. *)
Lemma call_bind {A B} (m : St (net S) http_error A) (k : A → St (net S) http_error B) :
  call (P:=P) (m ≫= k) ≡ (call m ≫= λ a, call (k a)).
Proof.
  intros c. rewrite !call_run. unfold mbind, St_bind, st_bind.
  rewrite call_run. destruct (m _) as [[a|e] n']; [|done].
  rewrite call_run. unfold set_net; simpl. by destruct (k a n').
Qed.

Lemma call_ret {A} (a : A) : call (P:=P) (S:=S) (mret a) ≡ mret a.
Proof. intros c. rewrite call_run. by destruct c as [? []]. Qed.

Lemma call_throw {A} e : call (P:=P) (S:=S) (A:=A) (throw e) ≡ throw e.
Proof. intros c. rewrite call_run. by destruct c as [? []]. Qed.
End sync.

Section sync_service.
Context {P S : Type} `{!RemoteService S}.

Lemma run_sync_update (m : St (page P S) http_error unit) :
  (∀ c, fst (m c) = Ok ()) → run_sync (aupdate m) ≡ m.
Proof.
  intros Hm c. simpl. unfold mbind, St_bind, st_bind, modify, run_state. simpl.
  specialize (Hm c). destruct (m c) as [r c']. simpl in Hm. by subst.
Qed.

Lemma run_sync_dispatch a : run_sync (aupdate (dispatch_action (P:=P) (S:=S) a)) ≡ dispatch_action a.
Proof. by apply run_sync_update. Qed.
Lemma run_sync_set_local f : run_sync (aupdate (set_local (P:=P) (S:=S) f)) ≡ set_local f.
Proof. by apply run_sync_update. Qed.
Lemma run_sync_emit e : run_sync (aupdate (emit (P:=P) (S:=S) e)) ≡ emit e.
Proof. by apply run_sync_update. Qed.
Lemma run_sync_alert m : run_sync (aupdate (alert (P:=P) (S:=S) m)) ≡ alert m.
Proof. by apply run_sync_update. Qed.
Lemma run_sync_console_error m : run_sync (aupdate (console_error (P:=P) (S:=S) m)) ≡ console_error m.
Proof. by apply run_sync_update. Qed.

Local Ltac data_solve := destruct (data _); symmetry; first [apply call_ret|apply call_throw].

Lemma run_sync_data_products r : run_sync (P:=P) (S:=S) (a_data_products r) ≡ call (data_products r).
Proof. unfold a_data_products, data_products. data_solve. Qed.
Lemma run_sync_data_product r : run_sync (P:=P) (S:=S) (a_data_product r) ≡ call (data_product r).
Proof. unfold a_data_product, data_product. data_solve. Qed.

Lemma run_sync_data_comments r : run_sync (P:=P) (S:=S) (a_data_comments r) ≡ call (data_comments r).
Proof. unfold a_data_comments, data_comments. data_solve. Qed.
Lemma run_sync_data_comment r : run_sync (P:=P) (S:=S) (a_data_comment r) ≡ call (data_comment r).
Proof. unfold a_data_comment, data_comment. data_solve. Qed.

(** One await then reading [response.data]: the cut function is the
    service function. *)
Local Ltac service_sync data_lemma :=
  rewrite run_sync_bind, call_bind, run_sync_await; f_equiv; intros ?;
  first [apply data_lemma|symmetry; apply call_ret].

Lemma run_sync_fetchProducts : run_sync (P:=P) (S:=S) a_fetchProducts ≡ call fetchProducts.
Proof. unfold a_fetchProducts, fetchProducts, axios_get. service_sync run_sync_data_products. Qed.

Lemma run_sync_addProduct x d :
  run_sync (P:=P) (S:=S) (a_addProduct x d) ≡ call (addProduct x d).
Proof. unfold a_addProduct, addProduct, axios_post. service_sync run_sync_data_product. Qed.

Lemma run_sync_deleteProduct i :
  run_sync (P:=P) (S:=S) (a_deleteProduct i) ≡ call (deleteProduct i).
Proof. unfold a_deleteProduct, deleteProduct, axios_delete. service_sync run_sync_data_product. Qed.

Lemma run_sync_updateProduct i pa :
  run_sync (P:=P) (S:=S) (a_updateProduct i pa) ≡ call (updateProduct i pa).
Proof. unfold a_updateProduct, updateProduct, axios_patch. service_sync run_sync_data_product. Qed.
Lemma run_sync_fetchProductById i :
  run_sync (P:=P) (S:=S) (a_fetchProductById i) ≡ call (fetchProductById i).
Proof. unfold a_fetchProductById, fetchProductById, axios_get. service_sync run_sync_data_product. Qed.
Lemma run_sync_fetchComments pid :
  run_sync (P:=P) (S:=S) (a_fetchComments pid) ≡ call (fetchComments pid).
Proof. unfold a_fetchComments, fetchComments, axios_get. service_sync run_sync_data_comments. Qed.
Lemma run_sync_addComment d :
  run_sync (P:=P) (S:=S) (a_addComment d) ≡ call (addComment d).
Proof. unfold a_addComment, addComment, axios_post. service_sync run_sync_data_comment. Qed.
Lemma run_sync_deleteComment i :
  run_sync (P:=P) (S:=S) (a_deleteComment i) ≡ call (deleteComment i).
Proof. unfold a_deleteComment, deleteComment, axios_delete. service_sync run_sync_data_comment. Qed.
End sync_service.

(** The resumable form of a handler, run without interleaving, is the
    handler: descend through [alet] and [try], then match each await and
    update with its synchronous counterpart. *)
Ltac async_sync :=
  repeat first
    [ progress (intros ?)
    | apply run_sync_bind_equiv | apply run_sync_catch_equiv
    | apply run_sync_fetchProducts | apply run_sync_addProduct | apply run_sync_deleteProduct
    | apply run_sync_updateProduct | apply run_sync_fetchProductById | apply run_sync_fetchComments
    | apply run_sync_addComment | apply run_sync_deleteComment
    | apply run_sync_dispatch | apply run_sync_set_local | apply run_sync_alert
    | apply run_sync_console_error | apply run_sync_emit
    | progress case_match
    | reflexivity ].

(** ** The page with its requests in flight *)
Section machine.
Context {P S : Type} `{!RemoteService S}.

Abbreviation thread := (aprog (page P S) unit).

(** Run a handler until it awaits: the request goes out and is handled by
    the backend, and the rest of the handler is parked with its outcome.
    A handler that returns or rejects leaves nothing parked. *)
Fixpoint run_until (m : thread) (c : page P S) : page P S * option thread :=
  match m with
  | ARet _ | AThrow _ => (c, None)
  | AGet k => run_until (k c) c
  | AModify f k => run_until k (f c)
  | AAwait r k =>
      let '(o, n') := axios_request r c.(shared).(w_net) in (set_net n' c, Some (k o))
  end.

Record machine := mkMachine { m_page : page P S; m_pending : list thread }.

Definition option_thread (o : option thread) : list thread :=
  match o with Some t => [t] | None => [] end.

(** A user event starts a handler. *)
Definition m_start (t : thread) (M : machine) : machine :=
  let '(c', o) := run_until t M.(m_page) in mkMachine c' (M.(m_pending) ++ option_thread o).

(** The [i]-th request in flight completes and its handler resumes. *)
Definition m_deliver (i : nat) (M : machine) : option machine :=
  match M.(m_pending) !! i with
  | None => None
  | Some t =>
      let '(c', o) := run_until t M.(m_page) in
      Some (mkMachine c' (delete i M.(m_pending) ++ option_thread o))
  end.

(** [can_start c t]: the page [c] offers an event whose handler is [t]. *)
Inductive mstep (can_start : page P S → thread → Prop) : machine → machine → Prop :=
| mstep_start M t : can_start M.(m_page) t → mstep can_start M (m_start t M)
| mstep_deliver M i M' : m_deliver i M = Some M' → mstep can_start M M'.

(** Completing the requests of one handler as soon as they are sent is the
    synchronous run of that handler. *)
Lemma drain can_start (t : thread) c :
  rtc (mstep can_start) (m_start t (mkMachine c [])) (mkMachine (run_state (run_sync t) c) []).
Proof.
  revert c. induction t as [a|e|k IH|f k IH|r k IH]; intros c; try done.
  - apply (IH c c).
  - apply (IH (f c)).
  - unfold m_start, run_state; simpl.
    destruct (axios_request r _) as [o n']. eapply rtc_l; [|apply IH].
    apply (mstep_deliver _ _ 0). unfold m_deliver, m_start; simpl.
    by destruct (run_until (k o) _).
Qed.
(** ** Invariants under every interleaving

    [seg_ok I t c]: run from [c] until its next await, [t] leaves a state
    satisfying [I], and the parked rest of [t] does the same from any state
    satisfying [I].  Only the states between two awaits are checked: the
    updates of one segment run without interruption. *)
Section seg.
Context (I : page P S → Prop).

Fixpoint seg_ok (m : thread) (c : page P S) : Prop :=
  match m with
  | ARet _ | AThrow _ => I c
  | AGet k => seg_ok (k c) c
  | AModify f k => seg_ok k (f c)
  | AAwait r k =>
      let '(o, n') := axios_request r c.(shared).(w_net) in
      I (set_net n' c) ∧ ∀ c', I c' → seg_ok (k o) c'
  end.

Definition akeeps (t : thread) : Prop := ∀ c, I c → seg_ok t c.

Definition minv (M : machine) : Prop := I M.(m_page) ∧ Forall akeeps M.(m_pending).

Lemma run_until_ok t c :
  seg_ok t c → I (run_until t c).1 ∧ Forall akeeps (option_thread (run_until t c).2).
Proof.
  revert c. induction t as [a|e|k IH|f k IH|r k IH]; intros c; simpl; try by auto.
  destruct (axios_request r _) as [o n']. intros [HI Hk]. split; [done|].
  constructor; [exact Hk|constructor].
Qed.

Lemma mstep_minv (can_start : page P S → thread → Prop) M M' :
  (∀ c t, can_start c t → I c → akeeps t) →
  minv M → mstep can_start M M' → minv M'.
Proof.
  intros Hstart [HI Hp] Hs. destruct Hs as [M t Ht|M i M' Hd].
  - unfold m_start. pose proof (run_until_ok t M.(m_page) (Hstart _ _ Ht HI _ HI)) as [HI' Ho].
    destruct (run_until t _) as [c' o]. split; [done|]. by apply Forall_app.
  - unfold m_deliver in Hd. destruct (m_pending M !! i) as [t|] eqn:Hi; [|done].
    pose proof (run_until_ok t M.(m_page)) as Hr.
    destruct (run_until t _) as [c' o]. injection Hd as <-.
    destruct Hr as [HI' Ho]; [by eapply (Forall_lookup_1 _ _ _ _ Hp Hi)|].
    split; [done|]. apply Forall_app; split; [|done]. by apply Forall_delete.
Qed.

Lemma reachable_minv (can_start : page P S → thread → Prop) M M' :
  (∀ c t, can_start c t → I c → akeeps t) →
  minv M → rtc (mstep can_start) M M' → minv M'.
Proof. intros Hstart HM Hr. induction Hr as [|M1 M2 M3 H12 H23 IH]; [done|]. eauto using mstep_minv. Qed.
End seg.

(** Two invariants kept between awaits are kept together. *)
Lemma seg_ok_and (I1 I2 : page P S → Prop) t c :
  seg_ok I1 t c → seg_ok I2 t c → seg_ok (λ c, I1 c ∧ I2 c) t c.
Proof.
  revert c. induction t as [a|e|k IH|f k IH|r k IH]; intros c; simpl; try by auto.
  destruct (axios_request r _) as [o n']. intros [H1 K1] [H2 K2].
  split; [done|]. intros c' [H1' H2']. apply IH; auto.
Qed.

Lemma akeeps_and (I1 I2 : page P S → Prop) t :
  akeeps I1 t → akeeps I2 t → akeeps (λ c, I1 c ∧ I2 c) t.
Proof. intros H1 H2 c [Hc1 Hc2]. apply seg_ok_and; auto. Qed.

End machine.

Arguments machine : clear implicits.

Section await_bound.
Context {P Srv : Type} `{!RemoteService Srv}.

Abbreviation thread := (aprog (page P Srv) unit).
Local Open Scope nat_scope.

(** ** How many awaits a handler has left *)

(** [awaits_within n t]: on every path, [t] awaits at most [n] times. *)
Fixpoint awaits_within (n : nat) (t : thread) : Prop :=
  match t with
  | ARet _ | AThrow _ => True
  | AGet k => ∀ c, awaits_within n (k c)
  | AModify _ k => awaits_within n k
  | AAwait _ k => match n with 0 => False | S n' => ∀ o, awaits_within n' (k o) end
  end.

Lemma awaits_within_mono n m t : n ≤ m → awaits_within n t → awaits_within m t.
Proof.
  revert n m. induction t as [a|e|k IH|f k IH|r k IH]; intros n m Hnm; simpl; eauto.
  destruct n as [|n]; [done|]. destruct m as [|m]; [lia|]. intros H o. apply (IH o n); [lia|done].
Qed.

(** A thread parked by [run_until] has one await less. *)
Lemma run_until_within n t c t' :
  awaits_within n t → (run_until t c).2 = Some t' → ∃ n', n = S n' ∧ awaits_within n' t'.
Proof.
  revert c. induction t as [a|e|k IH|f k IH|r k IH]; intros c; simpl; try done; eauto.
  destruct n as [|n]; [done|]. destruct (axios_request r _) as [o n']. intros H [= <-]. eauto.
Qed.

(** Answers alone: the [i]-th request in flight completes. *)
Definition deliver_rel (M M' : machine P Srv) : Prop := ∃ i, m_deliver i M = Some M'.

(** One more than the awaits left, summed over the requests in flight. *)
Definition await_measure (ns : list nat) : nat := sum_list (map S ns).

Lemma await_measure_delete ns i n :
  ns !! i = Some n → await_measure (delete i ns) + S n = await_measure ns.
Proof.
  unfold await_measure. revert i. induction ns as [|m ns IH]; intros [|i]; simpl; try done.
  - intros [= ->]. lia.
  - intros Hi. rewrite <-(IH i Hi). lia.
Qed.

Lemma await_measure_app ns ms : await_measure (ns ++ ms) = await_measure ns + await_measure ms.
Proof. unfold await_measure. by rewrite map_app, sum_list_with_app. Qed.

Lemma deliver_decreases ns M M' :
  Forall2 awaits_within ns M.(m_pending) → deliver_rel M M' →
  ∃ ns', Forall2 awaits_within ns' M'.(m_pending) ∧ await_measure ns' < await_measure ns.
Proof.
  intros Hns [i Hd]. unfold m_deliver in Hd.
  destruct (m_pending M !! i) as [t|] eqn:Ht; [|done].
  destruct (Forall2_lookup_r _ _ _ _ _ Hns Ht) as (n & Hn & Hw).
  pose proof (run_until_within n t M.(m_page)) as Hr.
  destruct (run_until t _) as [c' [t'|]]; injection Hd as <-; simpl in Hr |- *.
  - destruct (Hr t' Hw eq_refl) as (n' & -> & Hw').
    exists (delete i ns ++ [n']). split.
    + apply Forall2_app; [by apply Forall2_delete|by constructor].
    + rewrite await_measure_app, <-(await_measure_delete ns i (S n')) by done.
      unfold await_measure at 2. simpl. lia.
  - exists (delete i ns). split; [rewrite app_nil_r; by apply Forall2_delete|].
    rewrite <-(await_measure_delete ns i n) by done. lia.
Qed.

(** Without user events, the answers settle the page after at most
    [await_measure ns] deliveries. *)
Lemma deliveries_bounded ns M n M' :
  Forall2 awaits_within ns M.(m_pending) → nsteps deliver_rel n M M' → n ≤ await_measure ns.
Proof.
  intros Hns Hs. revert ns Hns. induction Hs as [M|n M1 M2 M3 H12 H23 IH]; intros ns Hns; [lia|].
  destruct (deliver_decreases ns M1 M2 Hns H12) as (ns' & Hns' & Hlt).
  specialize (IH ns' Hns'). lia.
Qed.

(** Every handler a page starts awaits at most [S n] times: the handlers
    in flight await at most [n] more times. *)
Lemma mstep_within (can_start : page P Srv → thread → Prop) n M M' :
  (∀ c t, can_start c t → awaits_within (S n) t) →
  Forall (awaits_within n) M.(m_pending) → mstep can_start M M' →
  Forall (awaits_within n) M'.(m_pending).
Proof.
  intros Hstart Hp Hs. destruct Hs as [M t Ht|M i M' Hd].
  - unfold m_start. pose proof (run_until_within (S n) t M.(m_page)) as Hr.
    destruct (run_until t _) as [c' [t'|]]; simpl in *; apply Forall_app; (split; [done|]).
    + destruct (Hr t' (Hstart _ _ Ht) eq_refl) as (n' & [= <-] & Hw). by constructor.
    + constructor.
  - unfold m_deliver in Hd. destruct (m_pending M !! i) as [t|] eqn:Ht; [|done].
    pose proof (run_until_within n t M.(m_page)) as Hr.
    destruct (run_until t _) as [c' [t'|]]; injection Hd as <-; simpl in *;
      apply Forall_app; (split; [by apply Forall_delete|]).
    + destruct (Hr t' (Forall_lookup_1 _ _ _ _ Hp Ht) eq_refl) as (n' & -> & Hw).
      constructor; [|done]. eapply awaits_within_mono; [|exact Hw]. lia.
    + constructor.
Qed.

Lemma Forall2_replicate_l {A B} (R : A → B → Prop) (a : A) (l : list B) :
  Forall (R a) l → Forall2 R (replicate (length l) a) l.
Proof. induction 1; simpl; by constructor. Qed.

Lemma await_measure_replicate k n : await_measure (replicate k n) = k * S n.
Proof. unfold await_measure. induction k; simpl; [done|]. rewrite IHk. lia. Qed.
End await_bound.

(** Proves [awaits_within n h] for a handler [h] unfolded to its tree. *)
Ltac within_solve := repeat first [progress intros ? | progress simpl | case_match | done].

(** A simulation lifts along [rtc]: used to run a page's machine inside
    the application's. *)
Lemma rtc_simulation {A B} (R : relation A) (T : relation B) (E : A → B → Prop) :
  (∀ a a' b, R a a' → E a b → ∃ b', T b b' ∧ E a' b') →
  ∀ a a' b, rtc R a a' → E a b → ∃ b', rtc T b b' ∧ E a' b'.
Proof.
  intros Hsim a a' b Hr. revert b. induction Hr as [a|a1 a2 a3 H12 _ IH]; intros b Hb; [by exists b|].
  destruct (Hsim _ _ _ H12 Hb) as (b2 & Hb12 & Hb2). destruct (IH b2 Hb2) as (b3 & ? & ?).
  exists b3. split; [by eapply rtc_l|done].
Qed.

(** ** Pages whose handlers are started by user events *)

(** One step of a schedule: a user event, or the answer to the [i]-th
    request in flight. *)
Inductive sched_step (Ev : Type) := Start (ev : Ev) | Deliver (i : nat).
Arguments Start {Ev} ev.
Arguments Deliver {Ev} i.

Section schedule.
Context {P Srv Ev : Type} `{!RemoteService Srv}.
(** [en c ev]: the page [c] shows the element of event [ev]; [h ev] is the
    handler it starts. *)
Context (en : page P Srv → Ev → bool) (h : Ev → aprog (page P Srv) unit).

Definition event_start (c : page P Srv) (t : aprog (page P Srv) unit) : Prop :=
  ∃ ev, en c ev = true ∧ t = h ev.

Fixpoint run_schedule (l : list (sched_step Ev)) (M : machine P Srv) : option (machine P Srv) :=
  match l with
  | [] => Some M
  | Start ev :: l' => if en M.(m_page) ev then run_schedule l' (m_start (h ev) M) else None
  | Deliver i :: l' => M' ← m_deliver i M; run_schedule l' M'
  end.

Lemma run_schedule_sound l M M' :
  run_schedule l M = Some M' → rtc (mstep event_start) M M'.
Proof.
  revert M. induction l as [|[ev|i] l IH]; intros M; simpl.
  - by intros [= ->].
  - destruct (en _ ev) eqn:He; [|done]. intros H. eapply rtc_l; [|by apply IH].
    apply mstep_start. by exists ev.
  - destruct (m_deliver i M) as [M1|] eqn:Hd; simpl; [|done]. intros H.
    eapply rtc_l; [by eapply mstep_deliver|by apply IH].
Qed.

Lemma run_schedule_deliveries ixs M M' :
  run_schedule (map Deliver ixs) M = Some M' → nsteps deliver_rel (length ixs) M M'.
Proof.
  revert M. induction ixs as [|i ixs IH]; intros M; simpl; [intros [= ->]; constructor|].
  destruct (m_deliver i M) as [M1|] eqn:Hd; simpl; [|done].
  intros H. eapply nsteps_l; [by exists i|by apply IH].
Qed.
End schedule.

(** ** Shared steps of the invariant proofs *)

(** Sending a request keeps the world's invariant, whatever the network
    does with it. *)
Lemma world_ok_set_net {P S} `{!RemoteService S} `{!RemoteLaws S} r (c : page P S) o n' :
  world_ok c → axios_request r c.(shared).(w_net) = (o, n') → world_ok (set_net n' c).
Proof.
  intros [Hs Hn] Ha. pose proof (axios_request_srv_ok r _ Hn) as H. rewrite Ha in H. by split.
Qed.

(** The updates of a segment, innermost first, each kept by [keeps_solve]. *)
Ltac run_keeps I := repeat (eapply (keeps_run I (λ _, True)); [keeps_solve|]).
