(* ===== verification/ListAsync.v ===== *)
(** * The list page under interleaving

    [ProductListPage]'s three async handlers ([loadProducts],
    [handleSubmit], [confirmDelete]) cut at their awaits ([Async]), and the
    page as a machine in which the user may act while requests are in
    flight.  Shown here:
    - each cut handler run without interleaving is the handler of
      [ListPage] ([a_handleSubmit_sync], ...);
    - every state the sequential model ([ListView.list_reachable]) reaches
      is reached by the machine with nothing in flight;
    - the store's ids stay distinct, the backend well formed and the
      confirmation modal tied to a selection, under every interleaving;
    - [list_schedule] runs a concrete schedule of events and deliveries;
      [Scenarios] uses it to show a stale answer overwriting the store. *)

From Stdlib Require Import ZArith Lia.
From stdpp Require Import strings.
From stdpp Require Import base list decidable relations.
From S2P Require Import Prelude Types Remote Service Slice World ListPage ListView Async.
Open Scope Z_scope.

(** ** The list page's async handlers, cut at their awaits *)
Section list_async.
Context {S : Type} `{!RemoteService S}.

Abbreviation LA := (aprog (page list_page S) unit).

Definition a_loadProducts : LA :=
  acatch (alet productsFromServer := a_fetchProducts in
          aupdate (dispatch_action (ProductSlice.setProducts productsFromServer)))
         (λ _, aupdate (console_error "Failed to fetch products:")).

Definition a_handleSubmit : LA :=
  AGet (λ c,
  let fd := c.(local).(formData) in
  let products := ProductSlice.select_products c.(shared).(w_store) in
  if falsy_string fd.(f_name) || falsy_string fd.(f_weight)
     || falsy_string fd.(f_imageUrl)
  then aupdate (alert "Please fill in all required fields!")
  else
    let newId := new_id products in
    acatch (alet _ := a_addProduct (Some newId) (new_product_draft fd) in
            alet updatedProducts := a_fetchProducts in
            alet _ := aupdate (dispatch_action (ProductSlice.setProducts updatedProducts)) in
            alet _ := aupdate (set_local (set_isAddModalOpen false)) in
            aupdate (set_local (set_formData empty_form)))
           (λ _, aupdate (console_error "Failed to add product:"))).

Definition a_confirmDelete : LA :=
  AGet (λ c,
  match c.(local).(selectedProductId) with
  | None => ARet ()
  | Some i =>
      acatch (alet _ := a_deleteProduct i in
              alet _ := aupdate (dispatch_action (ProductSlice.deleteProduct i)) in
              alet _ := aupdate (set_local (set_isDeleteModalOpen false)) in
              aupdate (set_local (set_selectedProductId None)))
             (λ _, aupdate (console_error "Failed to delete product:"))
  end).

Lemma a_loadProducts_sync : run_sync a_loadProducts ≡ loadProducts.
Proof. unfold a_loadProducts, loadProducts. async_sync. Qed.

Lemma a_handleSubmit_sync : run_sync a_handleSubmit ≡ handleSubmit.
Proof.
  unfold a_handleSubmit, handleSubmit. rewrite run_sync_get. f_equiv. intros c.
  async_sync.
Qed.

Lemma a_confirmDelete_sync : run_sync a_confirmDelete ≡ confirmDelete.
Proof.
  unfold a_confirmDelete, confirmDelete. rewrite run_sync_get. f_equiv. intros c.
  async_sync.
Qed.

(** A user event: the two async handlers cut at their awaits, the others
    run to completion at once. *)
Definition a_on_list_event (ev : list_event) : LA :=
  match ev with
  | ConfirmAdd => a_handleSubmit
  | ConfirmDeletion => a_confirmDelete
  | _ => aupdate (on_list_event ev)
  end.

Lemma a_on_list_event_sync ev : run_sync (a_on_list_event ev) ≡ on_list_event ev.
Proof.
  destruct ev; simpl; try apply a_handleSubmit_sync; try apply a_confirmDelete_sync;
    apply run_sync_update; intros c; try done.
  unfold on_input, mbind, St_bind, st_bind, get_st. simpl. by case_match.
Qed.

Section machine.
Context (localeCompare : string → string → Z).

(** The page offers the event whose handler starts. *)
Definition list_can_start : page list_page S → LA → Prop :=
  event_start (enabled localeCompare) a_on_list_event.

(** The page mounts and its effect sends [GET /products]. *)
Definition list_mount (w : world S) : machine list_page S :=
  m_start a_loadProducts (mkMachine (mkPage initial_list_page w) []).

Definition list_mreach (w : world S) (M : machine list_page S) : Prop :=
  rtc (mstep list_can_start) (list_mount w) M.

Definition list_schedule : list (sched_step list_event) → machine list_page S → option (machine list_page S) :=
  run_schedule (enabled localeCompare) a_on_list_event.

(** The mount with its request completed at once is [ListPage]'s mount. *)
Lemma list_mount_drains (w : world S) :
  rtc (mstep list_can_start) (list_mount w)
    (mkMachine (run_state loadProducts (mkPage initial_list_page w)) []).
Proof. unfold list_mount. rewrite <-a_loadProducts_sync. apply drain. Qed.

(** One event of the sequential page: the handler starts, and its requests
    complete before the next event. *)
Lemma list_step_drains c c' :
  list_step localeCompare c c' → rtc (mstep list_can_start) (mkMachine c []) (mkMachine c' []).
Proof.
  intros [ev c0 He]. eapply rtc_l.
  - apply mstep_start. exists ev. by split.
  - rewrite <-a_on_list_event_sync. apply drain.
Qed.
End machine.
End list_async.


(** ** How long the list page keeps requests in flight *)
Section list_bound.
Context {S : Type} `{!RemoteService S}.
Local Open Scope nat_scope.

(** [handleSubmit] awaits twice ([addProduct], then [fetchProducts]); the
    other handlers at most once. *)
Lemma a_on_list_event_within ev : awaits_within 2 (a_on_list_event (S:=S) ev).
Proof.
  destruct ev; simpl; try done.
  - unfold a_handleSubmit, a_addProduct, a_fetchProducts, a_data_products, a_data_product.
    within_solve.
  - unfold a_confirmDelete, a_deleteProduct. within_solve.
Qed.

Lemma a_loadProducts_within : awaits_within 1 (a_loadProducts (S:=S)).
Proof. unfold a_loadProducts, a_fetchProducts, a_data_products. within_solve. Qed.

Lemma list_mreach_within lc w M :
  list_mreach (S:=S) lc w M → Forall (awaits_within 1) M.(m_pending).
Proof.
  unfold list_mreach. revert M. apply rtc_ind_r.
  - unfold list_mount, m_start. pose proof (run_until_within 1 a_loadProducts
      (mkPage initial_list_page w)) as Hw.
    destruct (run_until _ _) as [c' [t'|]]; simpl in *; [|constructor].
    destruct (Hw t' a_loadProducts_within eq_refl) as (n' & Hn & Hw').
    constructor; [|constructor]. eapply awaits_within_mono; [|exact Hw']. lia.
  - intros M2 M3 _ H23 IH. eapply mstep_within; [|exact IH|exact H23]. intros c t [ev [_ ->]].
    apply a_on_list_event_within.
Qed.

(** From any state the list page reaches, answers alone settle it:
    with no further user event, at most two answers per request in
    flight arrive before none is left. *)
Theorem list_deliveries_bounded lc w M n M' :
  list_mreach (S:=S) lc w M → nsteps deliver_rel n M M' → n ≤ 2 * length M.(m_pending).
Proof.
  intros Hr Hs. pose proof (list_mreach_within lc w M Hr) as Hw.
  eapply deliveries_bounded in Hs; [|by apply Forall2_replicate_l].
  rewrite await_measure_replicate in Hs. lia.
Qed.
End list_bound.

(** ** Theorems of the list page under interleaving *)
Section list_theorems.
Context {S : Type} `{!RemoteService S} `{!RemoteLaws S}.
Context (localeCompare : string → string → Z).

(** The invariant of [ListView.list_reachable_ok]. *)
Definition list_inv (c : page list_page S) : Prop := world_ok c ∧ local_ok ui_ok_local c.

Lemma list_inv_set_net r c o n' :
  list_inv c → axios_request r c.(shared).(w_net) = (o, n') → list_inv (set_net n' c).
Proof. intros [Hw Hu] Ha. split; [by eapply world_ok_set_net|exact Hu]. Qed.

(** The list [GET /products] answers with has distinct ids. *)
Lemma axios_products_nodup n r n' l :
  srv_ok (server n) → axios_request (mkRequest GET baseUrl NoBody) n = (Ok r, n') →
  data r = RProducts l → NoDup (ids l).
Proof.
  intros Hok Ha Hd. assert (fetchProducts n = (Ok l, n')) as Hf.
  { unfold fetchProducts, axios_get, mbind, St_bind, st_bind. rewrite Ha.
    unfold data_products. by rewrite Hd. }
  rewrite (fetchProducts_result n n' l Hok Hf). by apply srv_ok_ids.
Qed.


(** A request goes out: the state after sending keeps the invariant, and
    the rest is checked from any state that has it. *)
Ltac seg_await :=
  match goal with
  | |- context [axios_request ?r ?n] =>
      let Ha := fresh "Ha" in
      destruct (axios_request r n) as [?o ?n'] eqn:Ha; split;
        [by eapply list_inv_set_net|intros ?c' ?Hc']
  end.
(** The updates of a segment keep both halves of the invariant. *)
Ltac seg_end :=
  match goal with H : list_inv _ |- _ => destruct H end;
  split; [run_keeps (world_ok (P:=list_page) (S:=S))|run_keeps (local_ok (S:=S) ui_ok_local)]; done.
Ltac seg_products :=
  match goal with
  | Ha : axios_request _ ?n = (Ok ?r, _), Hd : data ?r = RProducts ?l, Hc : list_inv ?c |- _ =>
      assert (NoDup (ids l)) by (eapply axios_products_nodup; [apply (proj2 (proj1 Hc))|exact Ha|exact Hd])
  end; seg_end.

Lemma a_loadProducts_keeps : akeeps list_inv a_loadProducts.
Proof.
  intros c Hc. unfold a_loadProducts, a_fetchProducts, a_data_products. simpl.
  seg_await. destruct o as [r|e]; simpl; [|seg_end].
  destruct (data r) eqn:Hd; simpl; try seg_end. seg_products.
Qed.

Lemma a_handleSubmit_keeps : akeeps list_inv a_handleSubmit.
Proof.
  intros c Hc. unfold a_handleSubmit, a_addProduct, a_fetchProducts, a_data_products, a_data_product.
  simpl. case_match; simpl; [seg_end|].
  seg_await. destruct o as [r|e]; simpl; [|seg_end].
  destruct (data r) eqn:Hd; simpl; try seg_end.
  seg_await. destruct o as [r'|e]; simpl; [|seg_end].
  destruct (data r') eqn:Hd'; simpl; try seg_end. seg_products.
Qed.

(** The confirmation resumes: the modal closes before the selection is
    cleared, in the same segment. *)
Lemma a_confirmDelete_keeps : akeeps list_inv a_confirmDelete.
Proof.
  intros c Hc. simpl. destruct (selectedProductId (local c)) as [i|]; simpl; [|done].
  seg_await. destruct o as [r|e]; simpl; [|seg_end].
  destruct Hc' as [Hw Hu]. split.
  - run_keeps (world_ok (P:=list_page) (S:=S)). done.
  - unfold local_ok, ui_ok_local. simpl. discriminate.
Qed.

Lemma a_on_list_event_keeps ev : akeeps list_inv (a_on_list_event ev).
Proof.
  destruct ev; try apply a_handleSubmit_keeps; try apply a_confirmDelete_keeps;
    intros c [Hw Hu]; (split; [eapply (keeps_run world_ok (λ _, True)); [apply on_list_event_world_ok|done]
                              |by apply on_list_event_ui_ok]).
Qed.

Lemma list_mount_minv w :
  world_ok (mkPage initial_list_page w) → minv list_inv (list_mount w).
Proof.
  intros Hw. unfold list_mount, m_start.
  destruct (run_until_ok list_inv a_loadProducts (mkPage initial_list_page w)) as [HI Ho].
  { apply a_loadProducts_keeps. split; [done|]. unfold local_ok, ui_ok_local. simpl. discriminate. }
  destruct (run_until _ _). by split.
Qed.

(** The sequential model of the list page is the schedule in which
    every request completes before the next user event: each state it
    reaches from the mount is reached by the machine with no request in
    flight. *)
Theorem list_sequential_refines (w : world S) c :
  list_reachable localeCompare w c → list_mreach localeCompare w (mkMachine c []).
Proof.
  unfold list_reachable. revert c. apply rtc_ind_r.
  - apply list_mount_drains.
  - intros y z _ Hyz IH. eapply rtc_trans; [exact IH|]. by apply list_step_drains.
Qed.

(** C30: whatever the order in which answers arrive and the user acts
    while requests are in flight, and whatever the network does, every
    state of the list page after its mount has a store with distinct ids
    and a well-formed backend, and the confirmation modal is only open
    with a product selected. *)
Theorem list_interleaved_ok (w : world S) M :
  world_ok (mkPage initial_list_page w) → list_mreach localeCompare w M →
  world_ok M.(m_page) ∧
  (M.(m_page).(local).(isDeleteModalOpen) = true → is_Some M.(m_page).(local).(selectedProductId)).
Proof.
  intros Hw Hr. eapply (reachable_minv list_inv) in Hr as [HI _].
  - exact HI.
  - intros c t [ev [_ ->]] _. apply a_on_list_event_keeps.
  - by apply list_mount_minv.
Qed.

(** A delivered [GET /products] answers with the backend's list. *)
Lemma axios_list_delivered (n : net S) :
  srv_ok (server n) → next_delivered (schedule n) = true →
  axios_request (mkRequest GET baseUrl NoBody) n =
    (Ok (mkResponse 200 (RProducts (srv_products (server n)))),
     mkNet (server n) (tail (schedule n)) (sent n ++ [mkRequest GET baseUrl NoBody])).
Proof.
  intros Hok Hd. apply axios_delivered_ok; [|done|done].
  erewrite handle_route by apply route_baseUrl. by apply law_list.
Qed.

(** The mount effect parks on its [GET /products] with the answer the
    backend gives at that moment; resumed on any page state, it dispatches
    [setProducts] of that list and ends. *)
Lemma a_loadProducts_parks (w : world S) :
  srv_ok (server w.(w_net)) → next_delivered (schedule w.(w_net)) = true →
  ∃ t0, (∀ l, run_until a_loadProducts (mkPage l w) =
              (set_net (mkNet (server w.(w_net)) (tail (schedule w.(w_net)))
                         (sent w.(w_net) ++ [mkRequest GET baseUrl NoBody])) (mkPage l w), Some t0)) ∧
    ∀ c', run_until t0 c' =
      (run_state (dispatch_action (ProductSlice.setProducts (srv_products (server w.(w_net))))) c', None).
Proof.
  intros Hok Hd. unfold a_loadProducts, a_fetchProducts, aawait. simpl.
  rewrite (axios_list_delivered _ Hok Hd). simpl. eexists. split; [reflexivity|]. done.
Qed.

(** C31: the mount's [GET /products] answer is computed when the request
    is sent and applied without any check when it arrives: in every
    state of the list page in which that request is still in flight,
    whatever the user has created or deleted since, its answer replaces
    the store with the list the backend held at the mount, and changes
    nothing else. *)
Theorem stale_answer_overwrites_store (w : world S) :
  srv_ok (server w.(w_net)) → next_delivered (schedule w.(w_net)) = true →
  ∃ t0, (list_mount w).(m_pending) = [t0] ∧
    ∀ M k, M.(m_pending) !! k = Some t0 →
      m_deliver k M = Some (mkMachine
        (run_state (dispatch_action (ProductSlice.setProducts (srv_products (server w.(w_net)))))
           M.(m_page))
        (delete k M.(m_pending))).
Proof.
  intros Hok Hd. destruct (a_loadProducts_parks w Hok Hd) as (t0 & Hp & Hr). exists t0. split.
  - unfold list_mount, m_start. cbn [m_page]. by rewrite Hp.
  - intros M k Hk. unfold m_deliver. rewrite Hk, Hr. simpl. by rewrite app_nil_r.
Qed.
End list_theorems.
