(* ===== verification/DetailAsync.v ===== *)
(** * The detail page under interleaving

    [ProductDetailPage]'s async code cut at its awaits ([Async]): the mount
    effect [loadProductAndComments] (two awaits: the product, then its
    comments), [handleUpdate], [handleAddComment] and
    [handleDeleteComment] (one each).  Shown here:
    - each cut handler run without interleaving is the handler of
      [DetailPage] ([a_on_detail_event_sync]), so the sequential model
      ([DetailView.detail_reachable]) is the schedule with nothing in
      flight between events ([detail_sequential_refines]);
    - under every interleaving and whatever the network does, the edit
      modal is only open with a product shown and every comment shown
      belongs to the product shown ([detail_interleaved_ok]).  A resumed
      handler applies what it captured (the product of the click) to the
      state it finds, so the invariant is stated against the route's id:
      the product and every comment shown carry the id [Number(id)].
    [Scenarios] runs two schedules: a double click on "Add Comment", and the
    mount's comments arriving after a comment was added. *)

From Stdlib Require Import ZArith Lia.
From stdpp Require Import strings.
From stdpp Require Import base list decidable relations.
From S2P Require Import Prelude Types Remote Service ServiceSpec Slice World ListPage DetailPage DetailView Async.
Open Scope Z_scope.

Section detail_async.
Context {S : Type} `{!RemoteService S}.

Abbreviation DA := (aprog (page detail_page S) unit).

Definition a_fetchProductById_NaN : aprog (page detail_page S) Product :=
  alet r := aawait (mkRequest GET (baseUrl +:+ "/" +:+ "NaN") NoBody) in a_data_product r.
Definition a_fetchComments_NaN : aprog (page detail_page S) (list CommentModel) :=
  alet r := aawait (mkRequest GET ("http://localhost:3001/comments?productId=" +:+ "NaN") NoBody) in
  a_data_comments r.

Definition a_fetch_by_param (i : option Z) : aprog (page detail_page S) Product :=
  match i with Some n => a_fetchProductById n | None => a_fetchProductById_NaN end.
Definition a_fetch_comments_by_param (i : option Z) : aprog (page detail_page S) (list CommentModel) :=
  match i with Some n => a_fetchComments n | None => a_fetchComments_NaN end.

Definition a_loadProductAndComments (param : option string) : DA :=
  match param with
  | None => ARet ()
  | Some s =>
      if falsy_string s then ARet ()
      else
        acatch (alet productData := a_fetch_by_param (js_Number s) in
                alet _ := aupdate (set_local (set_product (Some productData))) in
                alet commentsData := a_fetch_comments_by_param (js_Number s) in
                aupdate (set_local (set_comments (λ _, commentsData))))
               (λ _, aupdate (console_error "Failed to fetch product or comments:"))
  end.

Definition a_handleUpdate : DA :=
  AGet (λ c,
  match c.(local).(product) with
  | None => ARet ()
  | Some p =>
      acatch (alet updatedProductFromServer :=
                a_updateProduct p.(id) (updated_data p c.(local).(d_formData)) in
              alet _ := aupdate (dispatch_action (ProductSlice.updateProduct updatedProductFromServer)) in
              alet _ := aupdate (set_local (set_product (Some updatedProductFromServer))) in
              aupdate (set_local (set_isEditModalOpen false)))
             (λ _, aupdate (console_error "Failed to update product:"))
  end).

Definition a_handleAddComment (now : string) : DA :=
  AGet (λ c,
  match c.(local).(product) with
  | Some p =>
      if falsy_string (js_trim c.(local).(newCommentText)) then ARet ()
      else
        let newComment := mkCommentDraft p.(id) c.(local).(newCommentText) now in
        acatch (alet addedComment := a_addComment newComment in
                alet _ := aupdate (set_local (set_comments (λ prev, prev ++ [addedComment]))) in
                aupdate (set_local (set_newCommentText "")))
               (λ _, aupdate (console_error "Failed to add comment:"))
  | None => ARet ()
  end).

Definition a_handleDeleteComment (commentId : Z) : DA :=
  acatch (alet _ := a_deleteComment commentId in
          aupdate (set_local (set_comments (remove_comment commentId))))
         (λ _, aupdate (console_error "Failed to delete comment:")).

(** A user event: the three async handlers cut at their awaits, the
    others run to completion at once. *)
Definition a_on_detail_event (ev : detail_event) : DA :=
  match ev with
  | ConfirmEdit => a_handleUpdate
  | ClickDeleteComment i => a_handleDeleteComment i
  | ClickAddComment now => a_handleAddComment now
  | _ => aupdate (on_detail_event ev)
  end.

Lemma run_sync_fetch_by_param o :
  run_sync (a_fetch_by_param o) ≡ call (fetch_by_param o).
Proof.
  destruct o; cbn [a_fetch_by_param fetch_by_param]; [apply run_sync_fetchProductById|].
  unfold a_fetchProductById_NaN, fetchProductById_NaN, axios_get.
  rewrite run_sync_bind, call_bind, run_sync_await. f_equiv. intros r. apply run_sync_data_product.
Qed.

Lemma run_sync_fetch_comments_by_param o :
  run_sync (a_fetch_comments_by_param o) ≡ call (fetch_comments_by_param o).
Proof.
  destruct o; cbn [a_fetch_comments_by_param fetch_comments_by_param]; [apply run_sync_fetchComments|].
  unfold a_fetchComments_NaN, fetchComments_NaN, axios_get.
  rewrite run_sync_bind, call_bind, run_sync_await. f_equiv. intros r. apply run_sync_data_comments.
Qed.

Ltac detail_sync :=
  repeat first [ apply run_sync_fetch_by_param | apply run_sync_fetch_comments_by_param
               | progress async_sync ].

Lemma a_on_detail_event_sync ev : run_sync (a_on_detail_event ev) ≡ on_detail_event ev.
Proof.
  destruct ev; cbn [a_on_detail_event on_detail_event].
  - apply run_sync_update. intros c. unfold handleEditClick, mbind, St_bind, st_bind, get_st.
    simpl. by case_match.
  - apply run_sync_update. intros c. unfold on_edit_input, mbind, St_bind, st_bind, get_st.
    simpl. by case_match.
  - unfold a_handleUpdate, handleUpdate. rewrite run_sync_get. f_equiv. intros c. detail_sync.
  - by apply run_sync_update.
  - by apply run_sync_update.
  - unfold a_handleDeleteComment, handleDeleteComment. detail_sync.
  - by apply run_sync_update.
  - unfold a_handleAddComment, handleAddComment. rewrite run_sync_get. f_equiv. intros c. detail_sync.
Qed.

Lemma a_loadProductAndComments_sync param :
  run_sync (a_loadProductAndComments param) ≡ loadProductAndComments param.
Proof. unfold a_loadProductAndComments, loadProductAndComments. detail_sync. Qed.
End detail_async.

(** ** What the backend answers, whatever the network does *)
Section answers.
Context {S : Type} `{!RemoteService S} `{!RemoteLaws S}.

(** An answer read as [response.data] is what the service function
    resolves with. *)
Lemma service_answer {A} req (dataf : response → St (net S) http_error A) n r n' a :
  axios_request req n = (Ok r, n') → dataf r n' = (Ok a, n') →
  (axios_request req ≫= dataf) n = (Ok a, n').
Proof. intros Ha Hd. unfold mbind, St_bind, st_bind. by rewrite Ha. Qed.

Lemma fetchProductById_answer i n r n' p :
  srv_ok (server n) → axios_request (mkRequest GET (product_url i) NoBody) n = (Ok r, n') →
  data r = RProduct p → p.(id) = i.
Proof.
  intros Hok Ha Hd. eapply (wp_ok_inv (fetchProductById i) (λ p _, p.(id) = i) (λ _ _, True));
    [by apply wp_fetchProductById_any|].
  eapply service_answer; [exact Ha|]. unfold data_product. by rewrite Hd.
Qed.

Lemma fetchComments_answer i n r n' cs :
  srv_ok (server n) → axios_request (mkRequest GET (comments_of_url i) NoBody) n = (Ok r, n') →
  data r = RComments cs → Forall (λ cm, cm.(CM.productId) = i) cs.
Proof.
  intros Hok Ha Hd. eapply (wp_ok_inv (fetchComments i) (λ cs _, Forall _ cs) (λ _ _, True));
    [by apply wp_fetchComments_any|].
  eapply service_answer; [exact Ha|]. unfold data_comments. by rewrite Hd.
Qed.

Lemma updateProduct_answer i pa n r n' q :
  srv_ok (server n) → axios_request (mkRequest PATCH (product_url i) (PatchBody pa)) n = (Ok r, n') →
  data r = RProduct q → q.(id) = i.
Proof.
  intros Hok Ha Hd. eapply (wp_ok_inv (updateProduct i pa) (λ q _, q.(id) = i) (λ _ _, True));
    [by apply wp_updateProduct_any|].
  eapply service_answer; [exact Ha|]. unfold data_product. by rewrite Hd.
Qed.

Lemma addComment_answer d n r n' cm :
  srv_ok (server n) → axios_request (mkRequest POST comments_url (CommentBody d)) n = (Ok r, n') →
  data r = RComment cm → cm.(CM.productId) = d.(cd_productId).
Proof.
  intros Hok Ha Hd. eapply (wp_ok_inv (addComment d) (λ cm _, cm.(CM.productId) = _) (λ _ _, True));
    [by apply wp_addComment_any|].
  eapply service_answer; [exact Ha|]. unfold data_comment. by rewrite Hd.
Qed.

(** A [GET] to a URL the backend does not route never resolves. *)
Lemma unrouted_never_ok url n r n' :
  route url = None → axios_request (mkRequest GET url NoBody) n ≠ (Ok r, n').
Proof.
  intros Hu. unfold axios_request, handle. simpl. rewrite Hu.
  destruct (schedule n) as [|[] rest]; simpl; discriminate.
Qed.
End answers.

(** ** The detail page as a machine *)
Section detail_machine.
Context {S : Type} `{!RemoteService S}.

Definition detail_can_start : page detail_page S → aprog (page detail_page S) unit → Prop :=
  event_start (λ c, detail_enabled c.(local)) a_on_detail_event.

(** Mounted on [/product/:id] with parameter [param]: the effect sends
    its first [GET]. *)
Definition detail_mount (param : option string) (w : world S) : machine detail_page S :=
  m_start (a_loadProductAndComments param) (mkMachine (mkPage initial_detail_page w) []).

Definition detail_mreach (param : option string) (w : world S) (M : machine detail_page S) : Prop :=
  rtc (mstep detail_can_start) (detail_mount param w) M.

Definition detail_schedule
  : list (sched_step detail_event) → machine detail_page S → option (machine detail_page S) :=
  run_schedule (λ c, detail_enabled c.(local)) a_on_detail_event.

Lemma detail_mount_drains param (w : world S) :
  rtc (mstep detail_can_start) (detail_mount param w)
    (mkMachine (run_state (loadProductAndComments param) (mkPage initial_detail_page w)) []).
Proof. unfold detail_mount. rewrite <-a_loadProductAndComments_sync. apply drain. Qed.

Lemma detail_step_drains c c' :
  detail_step c c' → rtc (mstep detail_can_start) (mkMachine c []) (mkMachine c' []).
Proof.
  intros [ev c0 He]. eapply rtc_l.
  - apply mstep_start. exists ev. by split.
  - rewrite <-a_on_detail_event_sync. apply drain.
Qed.

(** The sequential model of the detail page is the schedule with no
    request in flight between events. *)
Lemma detail_sequential_refines param (w : world S) c :
  detail_reachable param w c → detail_mreach param w (mkMachine c []).
Proof.
  unfold detail_reachable. revert c. apply rtc_ind_r.
  - apply detail_mount_drains.
  - intros y z _ Hyz IH. eapply rtc_trans; [exact IH|]. by apply detail_step_drains.
Qed.
End detail_machine.

(** ** The detail page's invariant under every interleaving *)
Section detail_theorems.
Context {S : Type} `{!RemoteService S} `{!RemoteLaws S}.

(** The id of the route [/product/:id]: [Number(id)]. *)
Definition route_id (param : option string) : option Z := param ≫= js_Number.
(** The edit modal needs a product; the product and every comment shown
    carry the route's id. *)
Definition dlocal_inv (o : option Z) (d : detail_page) : Prop :=
  (d.(isEditModalOpen) = true → is_Some d.(product)) ∧
  (∀ p, d.(product) = Some p → o = Some p.(id)) ∧
  Forall (λ cm, o = Some cm.(CM.productId)) d.(comments_st).
Definition detail_inv (o : option Z) (c : page detail_page S) : Prop :=
  srv_ok (server c.(shared).(w_net)) ∧ dlocal_inv o c.(local).

Lemma detail_inv_set_net o r c o' n' :
  detail_inv o c → axios_request r c.(shared).(w_net) = (o', n') → detail_inv o (set_net n' c).
Proof.
  intros [Hn Hl] Ha. pose proof (axios_request_srv_ok r _ Hn) as H. rewrite Ha in H. by split.
Qed.
Lemma detail_inv_set_local o c f :
  detail_inv o c → (dlocal_inv o c.(local) → dlocal_inv o (f c.(local))) →
  detail_inv o (run_state (set_local f) c).
Proof. intros [Hn Hl] Hf. split; [done|by apply Hf]. Qed.
Lemma detail_inv_emit o c e : detail_inv o c → detail_inv o (run_state (emit e) c).
Proof. done. Qed.
Lemma detail_inv_dispatch o c a : detail_inv o c → detail_inv o (run_state (dispatch_action a) c).
Proof. done. Qed.

Lemma dlocal_set_comments o d f :
  (Forall (λ cm, o = Some cm.(CM.productId)) d.(comments_st) →
   Forall (λ cm, o = Some cm.(CM.productId)) (f d.(comments_st))) →
  dlocal_inv o d → dlocal_inv o (set_comments f d).
Proof. intros Hf (He & Hp & Hcs). split_and!; [done|done|by apply Hf]. Qed.
Lemma dlocal_set_product o d p : o = Some p.(id) → dlocal_inv o d → dlocal_inv o (set_product (Some p) d).
Proof. intros Ho (He & Hp & Hcs). split_and!; simpl; [by eauto|by intros ? [= <-]|done]. Qed.
Lemma dlocal_close_edit o d : dlocal_inv o d → dlocal_inv o (set_isEditModalOpen false d).
Proof. intros (He & Hp & Hcs). split_and!; simpl; [discriminate|done|done]. Qed.
Lemma dlocal_set_text o d t : dlocal_inv o d → dlocal_inv o (set_newCommentText t d).
Proof. done. Qed.
Lemma dlocal_set_form o d f : dlocal_inv o d → dlocal_inv o (set_d_formData f d).
Proof. done. Qed.

(** A request goes out: the state it leaves keeps the invariant, and the
    rest is checked from any state that has it. *)
Ltac seg_await :=
  match goal with
  | |- context [axios_request ?r ?n] =>
      let Ha := fresh "Ha" in
      destruct (axios_request r n) as [?o ?n'] eqn:Ha; split;
        [eapply detail_inv_set_net; [try assumption|exact Ha]|intros ?c' ?Hc']
  end.
(** The updates of a segment: outputs and dispatches leave the page's
    own state alone; each [setState] is checked on its own. *)
Ltac seg_update :=
  repeat first
    [ apply detail_inv_emit | apply detail_inv_dispatch
    | apply detail_inv_set_local; [|intros ?]
    | apply dlocal_close_edit | apply dlocal_set_text | apply dlocal_set_form
    | assumption ].

Lemma a_handleDeleteComment_keeps o i : akeeps (detail_inv o) (a_handleDeleteComment (S:=S) i).
Proof.
  intros c Hc. unfold a_handleDeleteComment, a_deleteComment. simpl. seg_await.
  destruct o0; simpl; seg_update.
  apply dlocal_set_comments; [|done]. apply Forall_remove_comment.
Qed.

Lemma a_handleAddComment_keeps o now : akeeps (detail_inv o) (a_handleAddComment (S:=S) now).
Proof.
  intros c Hc. unfold a_handleAddComment, a_addComment, a_data_comment. simpl.
  destruct (product (local c)) as [p|] eqn:Hp; simpl; [|done].
  destruct (falsy_string _); simpl; [done|].
  seg_await. destruct o0 as [r|e]; simpl; [|seg_update].
  destruct (data r) eqn:Hd; simpl; seg_update.
  apply dlocal_set_comments; [|done]. intros Hcs. apply Forall_app. split; [done|].
  constructor; [|done]. rewrite (addComment_answer _ _ _ _ _ (proj1 Hc) Ha Hd). simpl.
  destruct Hc as [_ (_ & Hpid & _)]. by apply Hpid.
Qed.

Lemma a_handleUpdate_keeps o : akeeps (detail_inv o) (a_handleUpdate (S:=S)).
Proof.
  intros c Hc. unfold a_handleUpdate, a_updateProduct, a_data_product. simpl.
  destruct (product (local c)) as [p|] eqn:Hp; simpl; [|done].
  seg_await. destruct o0 as [r|e]; simpl; [|seg_update].
  destruct (data r) eqn:Hd; simpl; seg_update.
  apply dlocal_set_product; [|done]. rewrite (updateProduct_answer _ _ _ _ _ _ (proj1 Hc) Ha Hd).
  destruct Hc as [_ (_ & Hpid & _)]. by apply Hpid.
Qed.

Lemma a_loadProductAndComments_keeps param : akeeps (detail_inv (route_id param)) (a_loadProductAndComments (S:=S) param).
Proof.
  intros c Hc. destruct param as [s|]; simpl; [|done]. destruct (falsy_string s); simpl; [done|].
  unfold route_id in *; simpl in *.
  destruct (js_Number s) as [i|] eqn:Hi; simpl.
  - unfold a_fetchProductById, a_fetchComments, a_data_product, a_data_comments. simpl.
    seg_await. destruct o as [r|e]; simpl; [|seg_update].
    destruct (data r) eqn:Hd; simpl; try seg_update.
    assert (p.(id) = i) as Hpi by exact (fetchProductById_answer _ _ _ _ _ (proj1 Hc) Ha Hd).
    seg_await.
    + seg_update. apply dlocal_set_product; [by rewrite Hpi|done].
    + destruct o as [r'|e]; simpl; [|seg_update].
      destruct (data r') eqn:Hd'; simpl; seg_update.
      apply dlocal_set_comments; [|done]. intros _.
      pose proof (fetchComments_answer _ _ _ _ _ (proj1 Hc') Ha0 Hd') as Hcs.
      eapply Forall_impl; [exact Hcs|]. by intros ? ->.
  - unfold a_fetchProductById_NaN, a_data_product. simpl.
    seg_await. destruct o as [r|e]; simpl; [|seg_update].
    exfalso. eapply unrouted_never_ok; [|exact Ha]. reflexivity.
Qed.

Lemma a_on_detail_event_keeps o ev : akeeps (detail_inv o) (a_on_detail_event (S:=S) ev).
Proof.
  destruct ev; cbn [a_on_detail_event]; [| | by apply a_handleUpdate_keeps| | |by apply a_handleDeleteComment_keeps| |by apply a_handleAddComment_keeps];
    intros c Hc; simpl.
  - unfold handleEditClick, run_state, mbind, St_bind, st_bind, get_st. simpl.
    destruct (product (local c)) as [p|] eqn:Hp; simpl; [|done].
    destruct Hc as [Hn (He & Hpid & Hcs)]. split; [done|]. split_and!; simpl; [|done|done].
    rewrite Hp. by eauto.
  - unfold on_edit_input, run_state, mbind, St_bind, st_bind, get_st. simpl.
    destruct (handleInputChange _ _ _); simpl; [|done]. seg_update.
  - seg_update.
  - seg_update.
  - seg_update.
Qed.

(** The route-indexed invariant gives the page's [detail_ok]: the comments
    and the product carry the same id. *)
Lemma dlocal_detail_ok o d : dlocal_inv o d → detail_ok d.
Proof.
  intros (He & Hp & Hcs). split; [done|]. intros p Hpp. specialize (Hp p Hpp).
  eapply Forall_impl; [exact Hcs|]. intros cm Hcm. rewrite Hp in Hcm. by injection Hcm.
Qed.

Lemma detail_mount_minv param (w : world S) :
  srv_ok (server w.(w_net)) → minv (detail_inv (route_id param)) (detail_mount param w).
Proof.
  intros Hw. unfold detail_mount, m_start.
  destruct (run_until_ok (detail_inv (route_id param)) (a_loadProductAndComments param)
              (mkPage initial_detail_page w)) as [HI Ho].
  { apply a_loadProductAndComments_keeps. split; [done|]. split_and!; [discriminate|done|constructor]. }
  destruct (run_until _ _). by split.
Qed.

(** C33: whatever the order in which answers arrive and the user acts
    while requests are in flight, and whatever the network does, in every
    state of the detail page after its mount the backend keeps its laws,
    the edit modal is only open with a product shown, and every comment
    shown belongs to the product shown. *)
Theorem detail_interleaved_ok param (w : world S) M :
  srv_ok (server w.(w_net)) → detail_mreach param w M →
  srv_ok (server M.(m_page).(shared).(w_net)) ∧
  (M.(m_page).(local).(isEditModalOpen) = true → is_Some M.(m_page).(local).(product)) ∧
  (∀ p, M.(m_page).(local).(product) = Some p →
     Forall (λ cm, cm.(CM.productId) = p.(id)) M.(m_page).(local).(comments_st)).
Proof.
  intros Hw Hr. eapply (reachable_minv (detail_inv (route_id param))) in Hr as [[Hn Hd] _].
  - split; [done|]. by eapply dlocal_detail_ok.
  - intros c t [ev [_ ->]] _. apply a_on_detail_event_keeps.
  - by apply detail_mount_minv.
Qed.
End detail_theorems.

(** ** The world's invariant between the awaits of the detail page

    The detail page's own invariant ([detail_inv]) does not speak of the
    store; [handleUpdate] writes to it ([dispatch(updateProduct)]), which
    keeps its ids distinct. *)
Section detail_world.
Context {S : Type} `{!RemoteService S} `{!RemoteLaws S}.

Ltac wseg_await :=
  match goal with
  | |- context [axios_request ?r ?n] =>
      let Ha := fresh "Ha" in
      destruct (axios_request r n) as [?o ?n'] eqn:Ha; split;
        [eapply world_ok_set_net; [|exact Ha]|intros ?c' ?Hc']
  end.
Ltac wseg_end := run_keeps (world_ok (P:=detail_page) (S:=S)); assumption.

Lemma a_loadProductAndComments_world param :
  akeeps world_ok (a_loadProductAndComments (S:=S) param).
Proof.
  intros c Hc. destruct param as [s|]; simpl; [|done]. destruct (falsy_string s); simpl; [done|].
  destruct (js_Number s) as [i|]; simpl;
    unfold a_fetchProductById, a_fetchComments, a_fetchProductById_NaN, a_fetchComments_NaN,
      a_data_product, a_data_comments; simpl;
    wseg_await; [done| |done|]; (destruct o as [r|e]; simpl; [|wseg_end]);
    (destruct (data r); simpl; try wseg_end);
    (wseg_await; [wseg_end|]); (destruct o as [r'|e]; simpl; [|wseg_end]);
    destruct (data r'); simpl; wseg_end.
Qed.

Lemma a_on_detail_event_world ev : akeeps world_ok (a_on_detail_event (S:=S) ev).
Proof.
  destruct ev; cbn [a_on_detail_event]; intros c Hc.
  - simpl. eapply (keeps_run world_ok (λ _, True)); [|exact Hc].
    unfold handleEditClick. keeps_solve.
  - simpl. eapply (keeps_run world_ok (λ _, True)); [|exact Hc].
    unfold on_edit_input. keeps_solve.
  - unfold a_handleUpdate, a_updateProduct, a_data_product. simpl.
    case_match; simpl; [|done]. wseg_await; [done|]. repeat (case_match; simpl); wseg_end.
  - simpl. run_keeps (world_ok (P:=detail_page) (S:=S)). done.
  - simpl. run_keeps (world_ok (P:=detail_page) (S:=S)). done.
  - unfold a_handleDeleteComment, a_deleteComment. simpl.
    wseg_await; [done|]. repeat (case_match; simpl); wseg_end.
  - simpl. run_keeps (world_ok (P:=detail_page) (S:=S)). done.
  - unfold a_handleAddComment, a_addComment, a_data_comment. simpl.
    destruct (product (local c)); simpl; [|done]. destruct (falsy_string _); simpl; [done|].
    wseg_await; [done|]. repeat (case_match; simpl); wseg_end.
Qed.
End detail_world.

(** ** How long the detail page keeps requests in flight *)
Section detail_bound.
Context {S : Type} `{!RemoteService S}.
Local Open Scope nat_scope.

Local Ltac unfold_detail_requests :=
  unfold a_fetch_by_param, a_fetch_comments_by_param, a_fetchProductById, a_fetchComments,
    a_fetchProductById_NaN, a_fetchComments_NaN, a_updateProduct, a_addComment,
    a_deleteComment, a_data_product, a_data_comments, a_data_comment.

(** The mount effect awaits twice (product, then comments). *)
Lemma a_loadProductAndComments_within param :
  awaits_within 2 (a_loadProductAndComments (S:=S) param).
Proof.
  unfold a_loadProductAndComments. destruct param as [s|]; [|done].
  destruct (falsy_string s); [done|]. destruct (js_Number s); unfold_detail_requests; within_solve.
Qed.

(** Every handler a user event starts awaits at most once. *)
Lemma a_on_detail_event_within ev : awaits_within 1 (a_on_detail_event (S:=S) ev).
Proof.
  destruct ev; simpl; try done.
  - unfold a_handleUpdate; unfold_detail_requests; within_solve.
  - unfold a_handleDeleteComment; unfold_detail_requests; within_solve.
  - unfold a_handleAddComment; unfold_detail_requests; within_solve.
Qed.
End detail_bound.

(** ** Answers applied whatever happened since they were sent *)
Section detail_races.
Context {S : Type} `{!RemoteService S} `{!RemoteLaws S}.

Lemma axios_get_product_delivered (n : net S) i p :
  srv_ok (server n) → next_delivered (schedule n) = true →
  find_product i (srv_products (server n)) = Some p →
  axios_request (mkRequest GET (product_url i) NoBody) n =
    (Ok (mkResponse 200 (RProduct p)),
     mkNet (server n) (tail (schedule n)) (sent n ++ [mkRequest GET (product_url i) NoBody])).
Proof.
  intros Hok Hd Hf. apply axios_delivered_ok; [|done|done].
  erewrite handle_route by apply route_product_url. rewrite law_get by done. by rewrite Hf.
Qed.

Lemma axios_get_comments_delivered (n : net S) i :
  srv_ok (server n) → next_delivered (schedule n) = true →
  axios_request (mkRequest GET (comments_of_url i) NoBody) n =
    (Ok (mkResponse 200 (RComments (comments_of i (srv_comments (server n))))),
     mkNet (server n) (tail (schedule n)) (sent n ++ [mkRequest GET (comments_of_url i) NoBody])).
Proof.
  intros Hok Hd. apply axios_delivered_ok; [|done|done].
  erewrite handle_route by apply route_comments_of_url. by rewrite law_comments_of.
Qed.

(** C35: the mount's [GET /comments] answer is computed when the request
    is sent (when the product arrives, on whatever state the page is then
    in) and, when it arrives, replaces the comments shown by that list
    whatever the page shows by then: a comment added in between, which
    the backend holds, disappears from the page. *)
Theorem late_comments_hide_new_comment (w : world S) i p :
  srv_ok (server w.(w_net)) → next_delivered (schedule w.(w_net)) = true →
  find_product i (srv_products (server w.(w_net))) = Some p →
  ∃ t1, (detail_mount (Some (js_String i)) w).(m_pending) = [t1] ∧
    ∀ c, srv_ok (server c.(shared).(w_net)) → next_delivered (schedule c.(shared).(w_net)) = true →
      ∃ t2, run_until t1 c =
          (set_net (mkNet (server c.(shared).(w_net)) (tail (schedule c.(shared).(w_net)))
                      (sent c.(shared).(w_net) ++ [mkRequest GET (comments_of_url i) NoBody]))
             (mkPage (set_product (Some p) c.(local)) c.(shared)), Some t2) ∧
        ∀ c', run_until t2 c' =
          (mkPage (set_comments (λ _, comments_of i (srv_comments (server c.(shared).(w_net)))) c'.(local))
             c'.(shared), None).
Proof.
  intros Hok Hd Hf. unfold detail_mount, m_start, a_loadProductAndComments.
  rewrite falsy_js_String, js_Number_js_String.
  unfold a_fetch_by_param, a_fetch_comments_by_param, a_fetchProductById, a_fetchComments, aawait.
  cbn [m_page run_until abind acatch shared]. rewrite (axios_get_product_delivered _ i p Hok Hd Hf).
  eexists. split; [reflexivity|]. intros c Hok' Hd'. simpl.
  rewrite (axios_get_comments_delivered _ i Hok' Hd'). eexists. split; [reflexivity|]. done.
Qed.

(** "Add Comment" sends its [POST] and parks without touching the page:
    the text is only cleared when the answer arrives. *)
Lemma a_handleAddComment_sends now (c : page detail_page S) p :
  c.(local).(product) = Some p → falsy_string (js_trim c.(local).(newCommentText)) = false →
  ∃ t', run_until (a_handleAddComment now) c =
    (set_net ((axios_request (mkRequest POST comments_url
               (CommentBody (mkCommentDraft p.(id) c.(local).(newCommentText) now)))
               c.(shared).(w_net)).2) c, Some t').
Proof.
  intros Hp Ht. unfold a_handleAddComment. cbn [run_until]. rewrite Hp, Ht.
  unfold a_addComment, aawait. cbn [run_until abind acatch].
  destruct (axios_request _ _) as [o n']. by eexists.
Qed.

Lemma axios_post_comment_delivered (n : net S) d :
  srv_ok (server n) → next_delivered (schedule n) = true →
  ∃ i s', (i ∉ comment_ids (srv_comments (server n))) ∧
    (axios_request (mkRequest POST comments_url (CommentBody d)) n).2 =
      mkNet s' (tail (schedule n)) (sent n ++ [mkRequest POST comments_url (CommentBody d)]) ∧
    srv_comments s' = srv_comments (server n) ++ [comment_with_id i d] ∧ srv_ok s'.
Proof.
  intros Hok Hd. destruct (law_comment_create d (server n) Hok) as (i & s' & Hi & Hdisp & Hcs & _).
  exists i, s'. split_and!; [done| |done|by eapply dispatch_ok_after].
  rewrite (axios_delivered_ok _ _ (mkResponse 201 (RComment (comment_with_id i d))) s'); [done| |done|done].
  erewrite handle_route by apply route_comments_url. exact Hdisp.
Qed.

Lemma m_start_addComment now (M : machine detail_page S) p :
  M.(m_page).(local).(product) = Some p →
  falsy_string (js_trim M.(m_page).(local).(newCommentText)) = false →
  ∃ t', m_start (a_on_detail_event (ClickAddComment now)) M =
    mkMachine (set_net ((axios_request (mkRequest POST comments_url
                 (CommentBody (mkCommentDraft p.(id) M.(m_page).(local).(newCommentText) now)))
                 M.(m_page).(shared).(w_net)).2) M.(m_page))
      (M.(m_pending) ++ [t']).
Proof.
  intros Hp Ht. unfold m_start. cbn [a_on_detail_event].
  destruct (a_handleAddComment_sends now _ p Hp Ht) as [t' ->]. by exists t'.
Qed.

(** C34: "Add Comment" clicked twice before the first [POST] answers:
    the first click leaves the page as it was (the text is only cleared
    when the answer arrives), so the button is still there with the same
    text, and the second click sends the same comment again; on a network
    that delivers both, the backend stores two comments with the same
    product, text and date. *)
Theorem double_click_adds_twice (M : machine detail_page S) p now :
  M.(m_page).(local).(product) = Some p →
  falsy_string (js_trim M.(m_page).(local).(newCommentText)) = false →
  srv_ok (server M.(m_page).(shared).(w_net)) →
  take 2 (schedule M.(m_page).(shared).(w_net)) = [Delivered; Delivered] →
  let t := a_on_detail_event (ClickAddComment now) in
  let d := mkCommentDraft p.(id) M.(m_page).(local).(newCommentText) now in
  let M2 := m_start t (m_start t M) in
  (m_start t M).(m_page).(local) = M.(m_page).(local) ∧
  M2.(m_page).(local) = M.(m_page).(local) ∧
  sent M2.(m_page).(shared).(w_net) = sent M.(m_page).(shared).(w_net) ++
    [mkRequest POST comments_url (CommentBody d); mkRequest POST comments_url (CommentBody d)] ∧
  ∃ i1 i2, i1 ≠ i2 ∧
    srv_comments (server M2.(m_page).(shared).(w_net)) =
      srv_comments (server M.(m_page).(shared).(w_net)) ++ [comment_with_id i1 d; comment_with_id i2 d].
Proof.
  intros Hp Ht Hok Hs. cbv zeta.
  destruct M as [[l [n st lg]] ps]. cbn [m_page local shared w_net] in Hp, Ht, Hok, Hs |- *.
  destruct n as [s0 [|[] [|[] rest]] sn]; simpl in Hs; try discriminate.
  set (d := mkCommentDraft p.(id) (newCommentText l) now).
  destruct (axios_post_comment_delivered (mkNet s0 (Delivered :: Delivered :: rest) sn) d Hok eq_refl)
    as (i1 & s1 & Hi1 & Hn1 & Hc1 & Hok1).
  destruct (axios_post_comment_delivered
              (mkNet s1 (Delivered :: rest) (sn ++ [mkRequest POST comments_url (CommentBody d)])) d Hok1 eq_refl)
    as (i2 & s2 & Hi2 & Hn2 & Hc2 & _).
  destruct (m_start_addComment now (mkMachine (mkPage l (mkWorld (mkNet s0 (Delivered :: Delivered :: rest) sn) st lg)) ps) p Hp Ht)
    as [t1 E1]. rewrite E1. cbn [m_page m_pending local shared w_net]. fold d. rewrite Hn1. cbn [tail schedule sent].
  destruct (m_start_addComment now
              (mkMachine (set_net (mkNet s1 (Delivered :: rest) (sn ++ [mkRequest POST comments_url (CommentBody d)]))
                 (mkPage l (mkWorld (mkNet s0 (Delivered :: Delivered :: rest) sn) st lg))) (ps ++ [t1])) p Hp Ht)
    as [t2 E2]. rewrite E2. cbn [m_page local shared w_net set_net]. fold d. rewrite Hn2. simpl.
  split_and!; [done|done|by rewrite <-app_assoc|].
  exists i1, i2. split.
  - intros ->. apply Hi2. simpl. rewrite Hc1. unfold comment_ids. rewrite map_app. apply elem_of_app.
    right. simpl. by left.
  - rewrite Hc2. simpl. by rewrite Hc1, <-app_assoc.
Qed.
End detail_races.
