(* ===== verification/Sync.v ===== *)
(** * The Catalog Store as a cache of the server

    Spec §4.2 makes the Catalog Store a snapshot of the server's products
    that every mutation keeps "consistent with remote state".  [synced]
    states it: the network is reliable, the store holds exactly the
    server's list, and ids are positive (the server assigns them from 1).
    On a reliable network every handler of both pages keeps [synced],
    whether its calls succeed or the server refuses them: a create
    re-fetches, a delete and an edit apply to the store what the server
    applied, and the other handlers touch neither list.  The proofs go
    through the weakest-precondition rules of [ServiceSpec] and [World].
    [Scenarios.lost_reply_blocks_resubmit] shows that a lost reply breaks
    the invariant. *)

From Stdlib Require Import ZArith Lia.
From stdpp Require Import strings.
From stdpp Require Import base list decidable.
From S2P Require Import Prelude Types Remote Service ServiceSpec Slice World ListPage DetailPage.
Open Scope Z_scope.

(** Ids are positive. *)
Definition ids_pos (l : list Product) : Prop := Forall (λ i, 0 < i) (ids l).

Lemma ids_pos_remove i l : ids_pos l → ids_pos (remove_product i l).
Proof.
  unfold ids_pos, ids, remove_product. induction l as [|p l IH]; simpl; [done|].
  intros Hl. inversion Hl; subst. destruct (negb _); simpl; auto.
Qed.

Lemma ids_pos_snoc l p : ids_pos l → 0 < p.(id) → ids_pos (l ++ [p]).
Proof. unfold ids_pos. rewrite ids_app. intros H Hp. apply Forall_app. by repeat constructor. Qed.

Lemma replace_product_absent q l : q.(id) ∉ ids l → replace_product q l = l.
Proof.
  induction l as [|p l IH]; simpl; [done|]. intros Hq.
  rewrite bool_decide_false; [f_equal; apply IH|]; intros ?; apply Hq; [by right|].
  rewrite H; by left.
Qed.

(** With distinct ids, the store's in-place update ([findIndex], first
    match) and the server's ([PATCH], every match) agree. *)
Lemma replace_first_replace_product q l :
  NoDup (ids l) → ProductSlice.replace_first q l = replace_product q l.
Proof.
  induction l as [|p l IH]; simpl; [done|]. intros [Hp Hl]%list.NoDup_cons.
  case_bool_decide as Heq; [|by rewrite IH]. f_equal.
  symmetry. apply replace_product_absent. by rewrite <-Heq.
Qed.

Section sync.
Context {S : Type} `{!RemoteService S} `{!RemoteLaws S}.

(** The store is the server's list, on a reliable network. *)
Definition synced_world (w : world S) : Prop :=
  reliable w.(w_net) ∧
  ProductSlice.select_products w.(w_store) = srv_products (server w.(w_net)) ∧
  ids_pos (srv_products (server w.(w_net))).

Definition synced {P} (c : page P S) : Prop := synced_world c.(shared).

Lemma synced_set_net {P} (c : page P S) n' cs :
  synced c → net_after c.(shared).(w_net) n' (srv_products (server c.(shared).(w_net))) cs →
  synced (set_net n' c).
Proof. intros (_ & Hst & Hpos) (Hr & Hps & _). split_and!; simpl; by rewrite ?Hps. Qed.

Lemma synced_emit {P} (c : page P S) e : synced c → synced (run_state (emit e) c).
Proof. done. Qed.

(** A handler keeps [synced] whatever its outcome. *)
Definition keeps_synced {P} (h : St (page P S) http_error unit) : Prop :=
  ∀ c, synced c → wp h (λ _, synced) (λ _, synced) c.

(** The re-fetch after a successful create: the store becomes the list. *)
Lemma wp_refetch {P} (c : page P S) (k : St (page P S) http_error unit) Q R :
  reliable c.(shared).(w_net) → ids_pos (srv_products (server c.(shared).(w_net))) →
  (∀ c', synced c' → c'.(local) = c.(local) → wp k Q R c') →
  wp (l ← call fetchProducts; _ ← dispatch_action (ProductSlice.setProducts l); k) Q R c.
Proof.
  intros Hr Hpos Hk. wp_step. wp_step. apply wp_fetchProducts; [done|].
  intros n' (Hr' & Hps & _). simpl. wp_step. wp_step. apply Hk; [|done].
  split_and!; simpl; by rewrite ?Hps.
Qed.

Lemma new_id_pos l : ids_pos l → 0 < new_id l.
Proof. intros H. apply js_round_pos. pose proof (max_id_nonneg l H). lia. Qed.

Lemma loadProducts_synced : keeps_synced (loadProducts (S:=S)).
Proof.
  intros c (Hr & Hst & Hpos). unfold loadProducts. wp_step. wp_step. wp_step.
  apply wp_fetchProducts; [done|]. intros n' (Hr' & Hps & _). simpl. wp_step.
  split_and!; simpl; by rewrite ?Hps.
Qed.

Lemma handleSubmit_synced : keeps_synced (handleSubmit (S:=S)).
Proof.
  intros [lp [n st lg]] Hc. pose proof Hc as (Hr & Hst & Hpos). simpl in *.
  unfold handleSubmit. wp_step. wp_step. cbv beta zeta. simpl.
  destruct (_ || _ || _); [by wp_step|].
  wp_step. wp_step. wp_step. rewrite Hst.
  apply wp_addProduct; [done|pose proof (new_id_pos _ Hpos); lia| |].
  - intros n' Hfresh (Hr' & Hps & _). simpl. apply wp_refetch; simpl.
    { done. }
    { rewrite Hps. apply ids_pos_snoc; [done|apply new_id_pos, Hpos]. }
    intros c' Hc' Hl. by do 3 wp_step.
  - intros e n' Hin Hna. simpl. wp_step.
    apply (synced_set_net (mkPage lp (mkWorld n st lg)) n' _ Hc Hna).
Qed.

Lemma confirmDelete_synced : keeps_synced (confirmDelete (S:=S)).
Proof.
  intros [lp [n st lg]] Hc. pose proof Hc as (Hr & Hst & Hpos). simpl in *.
  unfold confirmDelete. wp_step. wp_step. simpl.
  destruct (selectedProductId lp) as [i|]; [|by wp_step].
  wp_step. wp_step. wp_step. apply wp_deleteProduct; [done| |].
  - intros n' Hin Hr' Hps. simpl. wp_step. wp_step. do 3 wp_step.
    split_and!; simpl; rewrite ?Hps; [done| |by apply ids_pos_remove].
    cbn. by rewrite Hst.
  - intros e n' Hin Hna. simpl. wp_step.
    apply (synced_set_net (mkPage lp (mkWorld n st lg)) n' _ Hc Hna).
Qed.
(** A [GET] of a URL the backend does not route ([Number(id)] was [NaN]):
    a 404, the backend unchanged. *)
Lemma wp_get_unrouted {A} url (k : response → St (net S) http_error A) Q R (n : net S) :
  reliable n → route url = None →
  (∀ e n', net_after n n' (srv_products (server n)) (srv_comments (server n)) → R e n') →
  wp (axios_get url ≫= k) Q R n.
Proof.
  intros [Hok Hs] Hu HR. unfold axios_get.
  erewrite wp_axios_delivered; [|by rewrite Hs|unfold handle; simpl; by rewrite Hu].
  simpl. apply HR, reliable_same; simpl; rewrite ?Hs; done.
Qed.

Lemma wp_fetch_by_param o Q R (n : net S) :
  reliable n →
  (∀ p n', net_after n n' (srv_products (server n)) (srv_comments (server n)) → Q p n') →
  (∀ e n', net_after n n' (srv_products (server n)) (srv_comments (server n)) → R e n') →
  wp (fetch_by_param o) Q R n.
Proof.
  intros Hr HQ HR. destruct o as [i|]; simpl.
  - apply wp_fetchProductById; eauto.
  - by apply wp_get_unrouted.
Qed.

Lemma wp_fetch_comments_by_param o Q R (n : net S) :
  reliable n →
  (∀ cs n', net_after n n' (srv_products (server n)) (srv_comments (server n)) → Q cs n') →
  (∀ e n', net_after n n' (srv_products (server n)) (srv_comments (server n)) → R e n') →
  wp (fetch_comments_by_param o) Q R n.
Proof.
  intros Hr HQ HR. destruct o as [i|]; simpl.
  - apply wp_fetchComments; eauto.
  - by apply wp_get_unrouted.
Qed.

Lemma synced_reliable {P} (c : page P S) : synced c → reliable c.(shared).(w_net).
Proof. by intros []. Qed.

Lemma loadProductAndComments_synced param :
  keeps_synced (loadProductAndComments (S:=S) param).
Proof.
  intros c Hc. unfold loadProductAndComments.
  destruct param as [s|]; [|by wp_step]. destruct (falsy_string s); [by wp_step|].
  wp_step. wp_step. wp_step. apply wp_fetch_by_param; [by apply synced_reliable| |].
  - intros p n' Hna. pose proof (synced_set_net c n' _ Hc Hna) as Hc'. simpl.
    wp_step. wp_step. wp_step. wp_step.
    apply wp_fetch_comments_by_param; [apply (synced_reliable _ Hc')| |].
    + intros cs n'' Hna'. simpl. wp_step. eapply synced_set_net; [exact Hc'|exact Hna'].
    + intros e n'' Hna'. simpl. wp_step. eapply synced_set_net; [exact Hc'|exact Hna'].
  - intros e n' Hna. simpl. wp_step. eapply synced_set_net; [exact Hc|exact Hna].
Qed.

Lemma handleEditClick_synced : keeps_synced (handleEditClick (S:=S)).
Proof.
  intros c Hc. unfold handleEditClick. wp_step. wp_step. simpl.
  destruct (product _); [by do 3 wp_step|by wp_step].
Qed.

Lemma handleUpdate_synced : keeps_synced (handleUpdate (S:=S)).
Proof.
  intros [dp [n st lg]] Hc. pose proof Hc as (Hr & Hst & Hpos). simpl in *.
  unfold handleUpdate. wp_step. wp_step. simpl.
  destruct (product dp) as [p|]; [|by wp_step].
  wp_step. wp_step. wp_step. apply wp_updateProduct; [done| |].
  - intros q n' Hf (Hr' & Hps & _). simpl. wp_step. wp_step. do 3 wp_step.
    split_and!; simpl; rewrite ?Hps; [done| |by unfold ids_pos; rewrite ids_replace_product].
    cbn. rewrite Hst. apply replace_first_replace_product, srv_ok_ids, Hr.
  - intros e n' Hf Hna. simpl. wp_step.
    apply (synced_set_net (mkPage dp (mkWorld n st lg)) n' _ Hc Hna).
Qed.

Lemma handleAddComment_synced now : keeps_synced (handleAddComment (S:=S) now).
Proof.
  intros c Hc. unfold handleAddComment. wp_step. wp_step. simpl.
  destruct (product _) as [p|]; [|by wp_step]. destruct (falsy_string _); [by wp_step|].
  wp_step. wp_step. wp_step. apply wp_addComment; [by apply synced_reliable|].
  intros i n' _ Hna. simpl. do 3 wp_step. eapply synced_set_net; [exact Hc|exact Hna].
Qed.

Lemma handleDeleteComment_synced i : keeps_synced (handleDeleteComment (S:=S) i).
Proof.
  intros c Hc. unfold handleDeleteComment. wp_step. wp_step. wp_step.
  apply wp_deleteComment; [by apply synced_reliable| |].
  - intros n' Hna. simpl. wp_step. eapply synced_set_net; [exact Hc|exact Hna].
  - intros e n' _ Hna. simpl. wp_step. eapply synced_set_net; [exact Hc|exact Hna].
Qed.
Lemma keeps_synced_run {P} (h : St (page P S) http_error unit) c :
  keeps_synced h → synced c → synced (run_state h c).
Proof. intros Hh Hc. eapply wp_run_state; [by apply Hh|done|done]. Qed.

(** C25: on a reliable network the Catalog Store stays the server's list:
    from a state where the store holds the server's products, every
    handler of the list page and of the detail page ends in such a state,
    whether the server accepts or refuses its requests (a create whose
    computed id is taken, a delete or an edit of a product that is gone,
    a missing comment). *)
Theorem handlers_keep_synced :
  (∀ c : page list_page S, synced c →
     synced (run_state loadProducts c) ∧ synced (run_state handleSubmit c) ∧
     synced (run_state confirmDelete c)) ∧
  (∀ (c : page detail_page S) param now i, synced c →
     synced (run_state (loadProductAndComments param) c) ∧
     synced (run_state handleEditClick c) ∧ synced (run_state handleUpdate c) ∧
     synced (run_state (handleAddComment now) c) ∧
     synced (run_state (handleDeleteComment i) c)).
Proof.
  split.
  - intros c Hc. split_and!; apply keeps_synced_run; auto using loadProducts_synced,
      handleSubmit_synced, confirmDelete_synced.
  - intros c param now i Hc. split_and!; apply keeps_synced_run;
      auto using loadProductAndComments_synced, handleEditClick_synced,
      handleUpdate_synced, handleAddComment_synced, handleDeleteComment_synced.
Qed.
End sync.

