(* ===== verification/App.v ===== *)
(** * The two pages together: navigation over one world

    The application routes [/] to [ProductListPage] and [/product/:id] to
    [ProductDetailPage] (the router is not in the sources; spec §2).  The
    list's product [Link] opens the detail page on its route, and the
    detail page's "← Back" button ([navigate(-1)]) returns to the list,
    the page it came from.  Each navigation unmounts one page and mounts
    the other with fresh local state on the same world: the network, the
    Catalog Store and the output log carry over, and the new page's mount
    effect runs.  Shown here: along any session of events and navigations,
    the world invariant and each page's own invariant hold
    ([app_reachable_ok]), and on a reliable network the store stays the
    server's list ([app_synced]). *)

From Stdlib Require Import ZArith Lia.
From stdpp Require Import strings.
From stdpp Require Import base list decidable relations.
From S2P Require Import Prelude Types Remote Service ServiceSpec Slice World ListPage ListView DetailPage DetailView Sync.
Open Scope Z_scope.

Section app.
Context {S : Type} `{!RemoteService S}.
Context (localeCompare : string → string → Z).

Inductive screen :=
| OnList (c : page list_page S)
| OnDetail (param : option string) (c : page detail_page S).

Definition screen_world (s : screen) : world S :=
  match s with OnList c => c.(shared) | OnDetail _ c => c.(shared) end.

(** [<Route path="/">]: the list page mounts and loads the products. *)
Definition mount_list (w : world S) : page list_page S :=
  run_state loadProducts (mkPage initial_list_page w).

(** [<Route path="/product/:id">]: the detail page mounts on [param]. *)
Definition mount_detail (param : option string) (w : world S) : page detail_page S :=
  run_state (loadProductAndComments param) (mkPage initial_detail_page w).

Inductive app_step : screen → screen → Prop :=
| app_list_event c c' :
    list_step localeCompare c c' → app_step (OnList c) (OnList c')
| app_open_product c items it :
    (render_list_page localeCompare c).(lv_items) = Some items → it ∈ items →
    app_step (OnList c)
      (OnDetail (product_route_param it.(item_to))
         (mount_detail (product_route_param it.(item_to)) c.(shared)))
| app_detail_event param c c' :
    detail_step c c' → app_step (OnDetail param c) (OnDetail param c')
| app_back param c :
    is_Some (render_detail_page c.(local)) →
    app_step (OnDetail param c) (OnList (mount_list c.(shared))).

(** The session starts on [/]. *)
Definition app_reachable (w : world S) (s : screen) : Prop :=
  rtc app_step (OnList (mount_list w)) s.
End app.

(** ** Invariants across navigation *)
Section app_theorems.
Context {S : Type} `{!RemoteService S} `{!RemoteLaws S}.
Context (localeCompare : string → string → Z).

#[local] Hint Resolve keeps_fetch_by_param keeps_fetch_comments_by_param : shop.

Lemma on_detail_event_world_ok ev : keeps world_ok (λ _, True) (on_detail_event (S:=S) ev).
Proof.
  destruct ev; simpl; unfold handleEditClick, on_edit_input, handleUpdate, handleAddComment,
    handleDeleteComment; keeps_solve.
Qed.

(** [world_ok] only looks at the world: it carries over to the next page. *)
Lemma world_ok_remount {P Q} (l : P) (l' : Q) (w : world S) :
  world_ok (mkPage l w) → world_ok (mkPage l' w).
Proof. done. Qed.

Lemma mount_list_ok (w : world S) :
  world_ok (mkPage initial_list_page w) →
  world_ok (mount_list w) ∧ local_ok ui_ok_local (mount_list w).
Proof.
  intros Hw. unfold mount_list. split.
  - eapply (keeps_run world_ok (λ _, True)); [unfold loadProducts; keeps_solve|exact Hw].
  - eapply (keeps_run (local_ok ui_ok_local) (λ _, True)); [unfold loadProducts; keeps_solve|].
    unfold local_ok, ui_ok_local. simpl. discriminate.
Qed.

Lemma mount_detail_ok param (w : world S) :
  world_ok (mkPage initial_detail_page w) →
  world_ok (mount_detail param w) ∧ dok (mount_detail param w).
Proof.
  intros Hw. split; [|apply mount_dok, Hw].
  eapply (keeps_run world_ok (λ _, True)); [|exact Hw].
  unfold loadProductAndComments. keeps_solve.
Qed.

(** The world's invariant, and the invariant of the page on screen. *)
Definition app_ok (s : screen (S:=S)) : Prop :=
  match s with
  | OnList c => world_ok c ∧ local_ok ui_ok_local c
  | OnDetail _ c => world_ok c ∧ dok c
  end.

Lemma app_step_ok s s' : app_ok s → app_step localeCompare s s' → app_ok s'.
Proof.
  intros Hs Hst. destruct Hst as [c c' Hl|c items it _ _|param c c' Hd|param c _]; simpl in *.
  - destruct Hl as [ev c He], Hs as [Hw Hu]. split.
    + eapply (keeps_run world_ok (λ _, True)); [apply on_list_event_world_ok|exact Hw].
    + by apply on_list_event_ui_ok.
  - destruct c as [l w]. apply mount_detail_ok, (world_ok_remount l), Hs.
  - destruct Hd as [ev c He], Hs as [Hw Hd]. split.
    + eapply (keeps_run world_ok (λ _, True)); [apply on_detail_event_world_ok|exact Hw].
    + by apply on_detail_event_dok.
  - destruct c as [l w]. apply mount_list_ok, (world_ok_remount l), Hs.
Qed.

(** Along any session that starts on the list and moves between the
    two pages through the product links and "← Back", whatever the
    network does, the Catalog Store keeps distinct ids and the backend its
    laws; on the list the confirmation modal is only open with a product
    selected; on the detail page the edit modal needs a product and every
    comment shown belongs to the product shown. *)
Theorem app_reachable_ok (w : world S) s :
  world_ok (mkPage initial_list_page w) → app_reachable localeCompare w s →
  world_ok (mkPage () (screen_world s)) ∧
  match s with
  | OnList c => c.(local).(isDeleteModalOpen) = true → is_Some c.(local).(selectedProductId)
  | OnDetail _ c => detail_ok c.(local)
  end.
Proof.
  intros Hw Hr. cut (app_ok s).
  { destruct s as [c|param c]; simpl; intros [Hs Hl]; split; try done. apply Hl. }
  unfold app_reachable in Hr. revert s Hr. apply rtc_ind_r; [by apply mount_list_ok|].
  intros s1 s2 _ H12 IH. by eapply app_step_ok.
Qed.
End app_theorems.

(** ** The store as a cache of the server, across navigation *)
Section app_sync.
Context {S : Type} `{!RemoteService S} `{!RemoteLaws S}.
Context (localeCompare : string → string → Z).

Lemma set_local_synced {P} (f : P → P) : keeps_synced (set_local (S:=S) f).
Proof. intros c Hc. wp_step. exact Hc. Qed.

Lemma on_list_event_synced ev : keeps_synced (on_list_event (S:=S) ev).
Proof.
  destruct ev; cbn [on_list_event]; try apply set_local_synced; try apply handleSubmit_synced;
    try apply confirmDelete_synced; intros c Hc.
  unfold on_input. wp_step. wp_step. simpl. case_match; wp_step; exact Hc.
Qed.

Lemma on_detail_event_synced ev : keeps_synced (on_detail_event (S:=S) ev).
Proof.
  destruct ev; cbn [on_detail_event]; try apply set_local_synced; try apply handleEditClick_synced;
    try apply handleUpdate_synced; try apply handleAddComment_synced;
    try apply handleDeleteComment_synced.
  intros c Hc. unfold on_edit_input. wp_step. wp_step. simpl. case_match; wp_step; exact Hc.
Qed.

Definition app_synced_screen (s : screen (S:=S)) : Prop := synced_world (screen_world s).

Lemma app_step_synced s s' :
  app_synced_screen s → app_step localeCompare s s' → app_synced_screen s'.
Proof.
  intros Hs Hst. destruct Hst as [c c' Hl|c items it _ _|param c c' Hd|param c _];
    unfold app_synced_screen in *; simpl in *.
  - destruct Hl as [ev c He]. apply (keeps_synced_run _ c); [apply on_list_event_synced|exact Hs].
  - apply (keeps_synced_run _ (mkPage initial_detail_page c.(shared)));
      [apply loadProductAndComments_synced|exact Hs].
  - destruct Hd as [ev c He]. apply (keeps_synced_run _ c); [apply on_detail_event_synced|exact Hs].
  - apply (keeps_synced_run _ (mkPage initial_list_page c.(shared))); [apply loadProducts_synced|exact Hs].
Qed.

(** C7: on a reliable network, when the session starts with the Catalog
    Store equal to the server's product list (positive ids), the store
    stays the server's list along any session of events and navigations
    between the two pages: each page's handlers refresh or patch it in
    step with the server, and each mount re-fetches the list or leaves the
    store alone. *)
Theorem app_synced (w : world S) s :
  synced_world w → app_reachable localeCompare w s →
  ProductSlice.select_products (screen_world s).(w_store) =
    srv_products (server (screen_world s).(w_net)).
Proof.
  intros Hw Hr. cut (app_synced_screen s); [by intros (_ & Hst & _)|].
  unfold app_reachable in Hr. revert s Hr. apply rtc_ind_r.
  - apply (keeps_synced_run _ (mkPage initial_list_page w)); [apply loadProducts_synced|exact Hw].
  - intros s1 s2 _ H12 IH. by eapply app_step_synced.
Qed.
End app_sync.
