(* ===== verification/AppAsync.v ===== *)
(** * Navigation while requests are in flight

    [App] runs each handler to completion; here the two pages and the
    navigation between them run on the interleaving machine of [Async].
    A page is mounted as an instance ([view]); the handlers parked on a
    request remember the instance that started them ([athread]).  When an
    answer arrives for a handler whose page is still mounted, it resumes
    on the page's state; when its page has been unmounted, it still
    resumes, and its [dispatch] and [console.error] calls reach the store
    and the log, but its [setState] calls are dropped (React ignores a
    state update of an unmounted component): it runs on the state it left
    ([ghost]) and that state is thrown away.  Following the product link
    or "← Back" unmounts the page on screen and mounts the other as a new
    instance, whose mount effect starts at once.

    Shown here: under every interleaving of events, answers and
    navigations the store keeps distinct ids, the backend its laws, and
    the page on screen its own invariant ([app_interleaved_ok]); and
    [app_schedule] runs a concrete schedule, which [Scenarios] uses to
    show an answer to the unmounted list overwriting an edit made on the
    detail page. *)

From Stdlib Require Import ZArith Lia.
From stdpp Require Import strings.
From stdpp Require Import base list decidable relations.
From S2P Require Import Prelude Types Remote Service ServiceSpec Slice World ListPage ListView DetailPage DetailView Async ListAsync DetailAsync App.
Open Scope Z_scope.

Section app_async.
Context {Srv : Type} `{!RemoteService Srv}.

Abbreviation LA := (aprog (page list_page Srv) unit).
Abbreviation DA := (aprog (page detail_page Srv) unit).

(** The page instance on screen; each mount is a new instance. *)
Inductive view :=
| VList (inst : nat) (l : list_page)
| VDetail (inst : nat) (param : option string) (d : detail_page).

(** A handler parked on a request: the instance that started it, the page
    state it left, and the rest of the handler. *)
Inductive athread :=
| TList (inst : nat) (ghost : list_page) (t : LA)
| TDetail (inst : nat) (param : option string) (ghost : detail_page) (t : DA).

Record app_machine := mkApp {
  am_world : world Srv;
  am_view : view;
  am_next : nat;
  am_pending : list athread
}.

Definition view_inst (v : view) : nat := match v with VList i _ => i | VDetail i _ _ => i end.
Definition th_inst (th : athread) : nat := match th with TList i _ _ => i | TDetail i _ _ _ => i end.

(** Run a handler of list instance [i] on the page state [l] until it
    awaits. *)
Definition run_list_on (i : nat) (t : LA) (l : list_page) (w : world Srv)
  : world Srv * list_page * list athread :=
  let '(c', o) := run_until t (mkPage l w) in
  (c'.(shared), c'.(local), match o with Some t' => [TList i c'.(local) t'] | None => [] end).

Definition run_detail_on (i : nat) (p : option string) (t : DA) (d : detail_page) (w : world Srv)
  : world Srv * detail_page * list athread :=
  let '(c', o) := run_until t (mkPage d w) in
  (c'.(shared), c'.(local), match o with Some t' => [TDetail i p c'.(local) t'] | None => [] end).

(** A parked handler resumes: on the page on screen when it belongs to it,
    on its ghost state otherwise. *)
Definition resume (th : athread) (w : world Srv) (v : view) : world Srv * view * list athread :=
  match th, v with
  | TList i g t, VList j l =>
      if decide (i = j) then let '(w', l', ps) := run_list_on i t l w in (w', VList j l', ps)
      else let '(w', _, ps) := run_list_on i t g w in (w', v, ps)
  | TList i g t, _ => let '(w', _, ps) := run_list_on i t g w in (w', v, ps)
  | TDetail i p g t, VDetail j p' d =>
      if decide (i = j) then let '(w', d', ps) := run_detail_on i p t d w in (w', VDetail j p' d', ps)
      else let '(w', _, ps) := run_detail_on i p t g w in (w', v, ps)
  | TDetail i p g t, _ => let '(w', _, ps) := run_detail_on i p t g w in (w', v, ps)
  end.

(** A handler of the list instance [i] on screen starts. *)
Definition start_list (i : nat) (l : list_page) (t : LA) (M : app_machine) : app_machine :=
  let '(w', l', ps) := run_list_on i t l M.(am_world) in
  mkApp w' (VList i l') M.(am_next) (M.(am_pending) ++ ps).

Definition start_detail (i : nat) (p : option string) (d : detail_page) (t : DA) (M : app_machine)
  : app_machine :=
  let '(w', d', ps) := run_detail_on i p t d M.(am_world) in
  mkApp w' (VDetail i p d') M.(am_next) (M.(am_pending) ++ ps).

(** Navigation: a new instance of the other page, with its mount effect. *)
Definition mount_list_app (M : app_machine) : app_machine :=
  start_list M.(am_next) initial_list_page a_loadProducts
    (mkApp M.(am_world) (VList M.(am_next) initial_list_page) (S M.(am_next)) M.(am_pending)).

Definition mount_detail_app (p : option string) (M : app_machine) : app_machine :=
  start_detail M.(am_next) p initial_detail_page (a_loadProductAndComments p)
    (mkApp M.(am_world) (VDetail M.(am_next) p initial_detail_page) (S M.(am_next)) M.(am_pending)).

Definition deliver_app (k : nat) (M : app_machine) : option app_machine :=
  th ← M.(am_pending) !! k;
  let '(w', v', ps) := resume th M.(am_world) M.(am_view) in
  Some (mkApp w' v' M.(am_next) (delete k M.(am_pending) ++ ps)).

(** The session starts on [/]. *)
Definition app_init (w : world Srv) : app_machine :=
  start_list 0 initial_list_page a_loadProducts (mkApp w (VList 0 initial_list_page) 1 []).

Section steps.
Context (localeCompare : string → string → Z).

Inductive app_mstep : app_machine → app_machine → Prop :=
| am_list_event M i l ev :
    M.(am_view) = VList i l → enabled localeCompare (mkPage l M.(am_world)) ev = true →
    app_mstep M (start_list i l (a_on_list_event ev) M)
| am_detail_event M i p d ev :
    M.(am_view) = VDetail i p d → detail_enabled d ev = true →
    app_mstep M (start_detail i p d (a_on_detail_event ev) M)
| am_deliver M k M' :
    deliver_app k M = Some M' → app_mstep M M'
| am_open M i l items n it :
    M.(am_view) = VList i l →
    (render_list_page localeCompare (mkPage l M.(am_world))).(lv_items) = Some items →
    items !! n = Some it →
    app_mstep M (mount_detail_app (product_route_param it.(item_to)) M)
| am_back M i p d :
    M.(am_view) = VDetail i p d → is_Some (render_detail_page d) →
    app_mstep M (mount_list_app M).

Definition app_mreach (w : world Srv) (M : app_machine) : Prop := rtc app_mstep (app_init w) M.

(** A schedule: an event on the list or on the detail page, the answer to
    the [k]-th request in flight, the link of the [n]-th product shown, or
    "← Back". *)
Inductive app_action :=
| AList (ev : list_event)
| ADetail (ev : detail_event)
| AAnswer (k : nat)
| AOpen (n : nat)
| ABack.

Fixpoint app_schedule (l : list app_action) (M : app_machine) : option app_machine :=
  match l, M.(am_view) with
  | [], _ => Some M
  | AList ev :: l', VList i lp =>
      if enabled localeCompare (mkPage lp M.(am_world)) ev
      then app_schedule l' (start_list i lp (a_on_list_event ev) M) else None
  | ADetail ev :: l', VDetail i p d =>
      if detail_enabled d ev then app_schedule l' (start_detail i p d (a_on_detail_event ev) M)
      else None
  | AAnswer k :: l', _ => M' ← deliver_app k M; app_schedule l' M'
  | AOpen n :: l', VList i lp =>
      items ← (render_list_page localeCompare (mkPage lp M.(am_world))).(lv_items);
      it ← items !! n;
      app_schedule l' (mount_detail_app (product_route_param it.(item_to)) M)
  | ABack :: l', VDetail i p d =>
      if bool_decide (is_Some (render_detail_page d)) then app_schedule l' (mount_list_app M)
      else None
  | _, _ => None
  end.

Lemma app_schedule_sound l M M' : app_schedule l M = Some M' → rtc app_mstep M M'.
Proof.
  revert M. induction l as [|a l IH]; intros M; simpl; [by intros [= ->]|].
  destruct a as [ev|ev|k|n|]; destruct (am_view M) as [i lp|i p d] eqn:Hv; try done.
  - destruct (enabled _ _ ev) eqn:He; [|done]. intros H. eapply rtc_l; [|by apply IH].
    by eapply am_list_event.
  - destruct (detail_enabled _ ev) eqn:He; [|done]. intros H. eapply rtc_l; [|by apply IH].
    by eapply am_detail_event.
  - destruct (deliver_app k M) as [M1|] eqn:Hd; simpl; [|done]. intros H.
    eapply rtc_l; [by eapply am_deliver|by apply IH].
  - destruct (deliver_app k M) as [M1|] eqn:Hd; simpl; [|done]. intros H.
    eapply rtc_l; [by eapply am_deliver|by apply IH].
  - destruct (render_items localeCompare (sortType lp)
               (ProductSlice.select_products (w_store (am_world M)))) as [items|] eqn:Hi;
      simpl; [|done].
    destruct (items !! n) as [it|] eqn:Hn; simpl; [|done]. intros H.
    eapply rtc_l; [|by apply IH]. eapply am_open; [exact Hv| |exact Hn]. exact Hi.
  - case_bool_decide as Hs; [|done]. intros H. eapply rtc_l; [|by apply IH].
    by eapply am_back.
Qed.
End steps.
End app_async.

Arguments app_machine Srv : clear implicits.

(** ** The invariant across pages, under every interleaving *)
Section app_async_theorems.
Context {Srv : Type} `{!RemoteService Srv} `{!RemoteLaws Srv}.
Context (localeCompare : string → string → Z).
Local Open Scope nat_scope.

Definition world_wf (w : world Srv) : Prop := world_ok (mkPage () w).

(** The detail page's handlers keep the world's invariant together with
    the page's own. *)
Definition dinv (p : option string) (c : page detail_page Srv) : Prop :=
  world_ok c ∧ detail_inv (route_id p) c.

Definition thread_ok (th : athread (Srv:=Srv)) : Prop :=
  match th with
  | TList _ g t => ui_ok_local g ∧ akeeps list_inv t
  | TDetail _ p g t => dlocal_inv (route_id p) g ∧ akeeps (dinv p) t
  end.

Definition view_ok (v : view) : Prop :=
  match v with VList _ l => ui_ok_local l | VDetail _ p d => dlocal_inv (route_id p) d end.

(** The instance on screen and, for the detail page, its route. *)
Definition view_key (v : view) : nat * option (option string) :=
  match v with VList i _ => (i, None) | VDetail i p _ => (i, Some p) end.

(** A handler of the instance on screen was started on a page of the same
    kind and route. *)
Definition th_matches (th : athread (Srv:=Srv)) (v : view) : Prop :=
  th_inst th = view_inst v →
  match th, v with
  | TList _ _ _, VList _ _ => True
  | TDetail _ p _ _, VDetail _ p' _ => p = p'
  | _, _ => False
  end.

Definition pending_ok (n : nat) (v : view) (th : athread (Srv:=Srv)) : Prop :=
  thread_ok th ∧ th_inst th < n ∧ th_matches th v.

Definition am_inv (M : app_machine Srv) : Prop :=
  world_wf M.(am_world) ∧ view_ok M.(am_view) ∧ view_inst M.(am_view) < M.(am_next) ∧
  Forall (pending_ok M.(am_next) M.(am_view)) M.(am_pending).

Lemma th_matches_key th v v' : view_key v = view_key v' → th_matches th v → th_matches th v'.
Proof. unfold th_matches. destruct th, v, v'; simpl; intros Hk Hm Hi; inversion Hk; subst; auto. Qed.

Lemma pending_ok_key n v v' th : view_key v = view_key v' → pending_ok n v th → pending_ok n v' th.
Proof. intros Hk (? & ? & ?). split_and!; [done|done|by eapply th_matches_key]. Qed.

(** A new instance: no handler in flight belongs to it. *)
Lemma pending_ok_fresh n v v' th :
  view_inst v' = n → pending_ok n v th → pending_ok (S n) v' th.
Proof. intros Hv (? & Hlt & _). split_and!; [done|lia|]. intros Heq. lia. Qed.

(** The handlers a list instance parks are its own. *)
Definition list_thread (i : nat) (th : athread (Srv:=Srv)) : Prop :=
  thread_ok th ∧ ∃ g t, th = TList i g t.
Definition detail_thread (i : nat) (p : option string) (th : athread (Srv:=Srv)) : Prop :=
  thread_ok th ∧ ∃ g t, th = TDetail i p g t.

Lemma run_list_on_ok i t l w :
  akeeps list_inv t → ui_ok_local l → world_wf w →
  let '(w', l', ps) := run_list_on i t l w in
  world_wf w' ∧ ui_ok_local l' ∧ Forall (list_thread i) ps.
Proof.
  intros Ht Hl Hw. unfold run_list_on.
  destruct (run_until_ok list_inv t (mkPage l w) (Ht (mkPage l w) (conj Hw Hl))) as [[Hw' Hl'] Ho].
  destruct (run_until t _) as [c' [t'|]]; simpl in *; split_and!; try done.
  inversion Ho as [|? ? Ht' _]; subst. constructor; [|constructor]. split; [split; done|eauto].
Qed.

Lemma run_detail_on_ok i p t d w :
  akeeps (dinv p) t → dlocal_inv (route_id p) d → world_wf w →
  let '(w', d', ps) := run_detail_on i p t d w in
  world_wf w' ∧ dlocal_inv (route_id p) d' ∧ Forall (detail_thread i p) ps.
Proof.
  intros Ht Hd Hw. unfold run_detail_on.
  destruct (run_until_ok (dinv p) t (mkPage d w) (Ht (mkPage d w) (conj Hw (conj (proj2 Hw) Hd))))
    as [[Hw' [_ Hd']] Ho].
  destruct (run_until t _) as [c' [t'|]]; simpl in *; split_and!; try done.
  inversion Ho as [|? ? Ht' _]; subst. constructor; [|constructor]. split; [split; done|eauto].
Qed.

Lemma list_thread_pending n i l th : i < n → list_thread i th → pending_ok n (VList i l) th.
Proof. intros Hi [Hok (g & t & ->)]. split_and!; [done|simpl; lia|by intros _]. Qed.

Lemma detail_thread_pending n i p d th : i < n → detail_thread i p th → pending_ok n (VDetail i p d) th.
Proof. intros Hi [Hok (g & t & ->)]. split_and!; [done|simpl; lia|by intros _]. Qed.

(** A handler of an unmounted instance. *)
Lemma ghost_pending n v i th :
  i < n → i ≠ view_inst v → thread_ok th → th_inst th = i → pending_ok n v th.
Proof. intros Hi Hne Hok Hth. split_and!; [done|lia|intros Heq; lia]. Qed.

Lemma list_thread_ghost n v i th :
  i < n → i ≠ view_inst v → list_thread i th → pending_ok n v th.
Proof. intros Hi Hne [Hok (g & t & ->)]. by eapply ghost_pending. Qed.

Lemma detail_thread_ghost n v i p th :
  i < n → i ≠ view_inst v → detail_thread i p th → pending_ok n v th.
Proof. intros Hi Hne [Hok (g & t & ->)]. by eapply ghost_pending. Qed.

Lemma resume_ok n th w v :
  pending_ok n v th → view_ok v → world_wf w →
  let '(w', v', ps) := resume th w v in
  world_wf w' ∧ view_ok v' ∧ view_key v' = view_key v ∧ Forall (pending_ok n v') ps.
Proof.
  intros Hpo Hv Hw.
  destruct th as [i g t|i p g t], v as [j l|j p' d]; destruct Hpo as ([Hg Ht] & Hlt & Hm);
    unfold th_matches in Hm; simpl in *.
  - case_decide as Hij.
    + subst j. pose proof (run_list_on_ok i t l w Ht Hv Hw) as Hr.
      destruct (run_list_on i t l w) as [[w' l'] ps]. destruct Hr as (? & ? & Hps).
      split_and!; [done|done|done|]. eapply Forall_impl; [exact Hps|]. intros th.
      by apply list_thread_pending.
    + pose proof (run_list_on_ok i t g w Ht Hg Hw) as Hr.
      destruct (run_list_on i t g w) as [[w' g'] ps]. destruct Hr as (? & ? & Hps).
      split_and!; [done|done|done|]. eapply Forall_impl; [exact Hps|]. intros th.
      by apply list_thread_ghost.
  - pose proof (run_list_on_ok i t g w Ht Hg Hw) as Hr.
    destruct (run_list_on i t g w) as [[w' g'] ps]. destruct Hr as (? & ? & Hps).
    split_and!; [done|done|done|]. eapply Forall_impl; [exact Hps|]. intros th.
    apply list_thread_ghost; [done|]. simpl. intros ->. by apply Hm.
  - pose proof (run_detail_on_ok i p t g w Ht Hg Hw) as Hr.
    destruct (run_detail_on i p t g w) as [[w' g'] ps]. destruct Hr as (? & ? & Hps).
    split_and!; [done|done|done|]. eapply Forall_impl; [exact Hps|]. intros th.
    apply detail_thread_ghost; [done|]. simpl. intros ->. by apply Hm.
  - case_decide as Hij.
    + subst j. specialize (Hm eq_refl). subst p'.
      pose proof (run_detail_on_ok i p t d w Ht Hv Hw) as Hr.
      destruct (run_detail_on i p t d w) as [[w' d'] ps]. destruct Hr as (? & ? & Hps).
      split_and!; [done|done|done|]. eapply Forall_impl; [exact Hps|]. intros th.
      by apply detail_thread_pending.
    + pose proof (run_detail_on_ok i p t g w Ht Hg Hw) as Hr.
      destruct (run_detail_on i p t g w) as [[w' g'] ps]. destruct Hr as (? & ? & Hps).
      split_and!; [done|done|done|]. eapply Forall_impl; [exact Hps|]. intros th.
      by apply detail_thread_ghost.
Qed.

Lemma start_list_inv M i l t :
  am_inv M → M.(am_view) = VList i l → akeeps list_inv t → am_inv (start_list i l t M).
Proof.
  intros (Hw & Hv & Hlt & Hp) Hview Ht. rewrite Hview in Hv, Hlt, Hp. unfold start_list.
  pose proof (run_list_on_ok i t l _ Ht Hv Hw) as Hr.
  destruct (run_list_on i t l _) as [[w' l'] ps]. destruct Hr as (? & ? & Hps).
  split_and!; simpl; [done|done|done|]. apply Forall_app. split.
  - eapply Forall_impl; [exact Hp|]. intros th. by apply pending_ok_key.
  - eapply Forall_impl; [exact Hps|]. intros th. by apply list_thread_pending.
Qed.

Lemma start_detail_inv M i p d t :
  am_inv M → M.(am_view) = VDetail i p d → akeeps (dinv p) t → am_inv (start_detail i p d t M).
Proof.
  intros (Hw & Hv & Hlt & Hp) Hview Ht. rewrite Hview in Hv, Hlt, Hp. unfold start_detail.
  pose proof (run_detail_on_ok i p t d _ Ht Hv Hw) as Hr.
  destruct (run_detail_on i p t d _) as [[w' d'] ps]. destruct Hr as (? & ? & Hps).
  split_and!; simpl; [done|done|done|]. apply Forall_app. split.
  - eapply Forall_impl; [exact Hp|]. intros th. by apply pending_ok_key.
  - eapply Forall_impl; [exact Hps|]. intros th. by apply detail_thread_pending.
Qed.

Lemma deliver_inv M k M' : am_inv M → deliver_app k M = Some M' → am_inv M'.
Proof.
  intros (Hw & Hv & Hlt & Hp) Hd. unfold deliver_app in Hd.
  destruct (am_pending M !! k) as [th|] eqn:Hk; simpl in Hd; [|done].
  pose proof (resume_ok _ th _ _ (Forall_lookup_1 _ _ _ _ Hp Hk) Hv Hw) as Hr.
  destruct (resume th _ _) as [[w' v'] ps]. injection Hd as <-.
  destruct Hr as (? & ? & Hkey & Hps). split_and!; simpl; [done|done| |].
  - destruct v', (am_view M); simpl in *; inversion Hkey; subst; done.
  - apply Forall_app. split; [|done]. apply Forall_delete.
    eapply Forall_impl; [exact Hp|]. intros th'. apply pending_ok_key. by rewrite Hkey.
Qed.

(** A fresh instance of a page mounts: no handler in flight is its own. *)
Lemma fresh_view_inv M v :
  am_inv M → view_ok v → view_inst v = M.(am_next) →
  am_inv (mkApp M.(am_world) v (S M.(am_next)) M.(am_pending)).
Proof.
  intros (Hw & _ & _ & Hp) Hv Hi. split_and!; simpl; [done|done|lia|].
  eapply Forall_impl; [exact Hp|]. intros th. by apply pending_ok_fresh.
Qed.

Lemma mount_list_inv M : am_inv M → am_inv (mount_list_app M).
Proof.
  intros HM. unfold mount_list_app. eapply start_list_inv; [|done|apply a_loadProducts_keeps].
  apply fresh_view_inv; [done| |done]. simpl. discriminate.
Qed.

Lemma mount_detail_inv p M : am_inv M → am_inv (mount_detail_app p M).
Proof.
  intros HM. unfold mount_detail_app. eapply start_detail_inv; [| done |].
  - apply fresh_view_inv; [done| |done]. split_and!; [discriminate|done|constructor].
  - apply akeeps_and; [apply a_loadProductAndComments_world|apply a_loadProductAndComments_keeps].
Qed.

Lemma app_mstep_inv M M' : am_inv M → app_mstep localeCompare M M' → am_inv M'.
Proof.
  intros HM Hs. destruct Hs as [M i l ev Hv _|M i p d ev Hv _|M k M' Hd|M i l items n it Hv _ _|M i p d Hv _].
  - eapply start_list_inv; [done|done|apply a_on_list_event_keeps].
  - eapply start_detail_inv; [done|done|].
    apply akeeps_and; [apply a_on_detail_event_world|apply a_on_detail_event_keeps].
  - by eapply deliver_inv.
  - by apply mount_detail_inv.
  - by apply mount_list_inv.
Qed.

(** C10: whatever the order in which answers arrive, the user acts and
    navigates between the two pages while requests are in flight, and
    whatever the network does, the Catalog Store keeps distinct ids and
    the backend its laws; handlers of an unmounted page still reach the
    store, and this holds all the same.  The page on screen keeps its own
    invariant: on the list the confirmation modal needs a selection; on the
    detail page the edit modal needs a product and every comment shown
    belongs to the product shown. *)
Theorem app_interleaved_ok (w : world Srv) M :
  world_wf w → app_mreach localeCompare w M →
  world_wf M.(am_world) ∧
  match M.(am_view) with
  | VList _ l => l.(isDeleteModalOpen) = true → is_Some l.(selectedProductId)
  | VDetail _ _ d => detail_ok d
  end.
Proof.
  intros Hw Hr. cut (am_inv M).
  { intros (HwM & Hv & _). split; [done|]. destruct (am_view M); simpl in *; [done|].
    by eapply dlocal_detail_ok. }
  unfold app_mreach in Hr. revert M Hr. apply rtc_ind_r.
  - eapply start_list_inv; [|done|apply a_loadProducts_keeps].
    split_and!; simpl; [done|discriminate|lia|constructor].
  - intros M1 M2 _ H12 IH. by eapply app_mstep_inv.
Qed.
End app_async_theorems.

(** ** Answers to a page the user has left *)
Section unmounted.
Context {Srv : Type} `{!RemoteService Srv} `{!RemoteLaws Srv}.

(** C21: the two pages share the Catalog Store, and leaving the list does
    not cancel its mount request: every list mounted on a world parks the
    same answer, computed when the [GET /products] is sent, and in any
    state of the application in which that list instance is no longer on
    screen, the answer still arrives.  It replaces the store with the
    list the backend held at that mount, undoing whatever was changed
    since (an edit made on the detail page, a product created by the new
    list), and it leaves the page on screen as it is. *)
Theorem unmounted_answer_reverts_edit (w : world Srv) :
  srv_ok (server w.(w_net)) → next_delivered (schedule w.(w_net)) = true →
  ∃ t0, (∀ i l, (run_list_on i a_loadProducts l w).2 = [TList i l t0]) ∧
    ∀ A k i g, A.(am_pending) !! k = Some (TList i g t0) → view_inst A.(am_view) ≠ i →
      deliver_app k A = Some (mkApp
        (run_state (dispatch_action (ProductSlice.setProducts (srv_products (server w.(w_net)))))
           (mkPage g A.(am_world))).(shared)
        A.(am_view) A.(am_next) (delete k A.(am_pending))).
Proof.
  intros Hok Hd. destruct (a_loadProducts_parks w Hok Hd) as (t0 & Hp & Hr). exists t0. split.
  - intros i l. unfold run_list_on. by rewrite Hp.
  - intros A k i g Hk Hi. unfold deliver_app. rewrite Hk. simpl.
    assert (run_list_on i t0 g A.(am_world) =
      ((run_state (dispatch_action (ProductSlice.setProducts (srv_products (server w.(w_net)))))
          (mkPage g A.(am_world))).(shared), _, [])) as Hrun
      by (unfold run_list_on; by rewrite Hr).
    destruct (am_view A) as [j l|j p d] eqn:Hv; simpl in Hi;
      [rewrite decide_False by done|]; rewrite Hrun; simpl; by rewrite app_nil_r.
Qed.
End unmounted.
