(* ===== verification/AppRefine.v ===== *)
(** * The application machine refines the page machines and the sequential app

    [AppAsync] runs both pages on one machine.  This file relates it to
    the models it extends:
    - while a page is mounted, its own machine ([ListAsync], [DetailAsync])
      is simulated step by step by the application's: the page's state is
      the one on screen and its requests in flight are the application's,
      tagged with the page's instance ([list_embed_step],
      [detail_embed_step]);
    - the sequential application of [App], where every request completes
      before the next event or navigation, is the schedule of [AppAsync]
      with nothing in flight between steps ([app_sequential_refines]);
    - answers alone settle the application: every handler parked on a
      request, of a mounted page or of an unmounted one, awaits at most
      once more, so at most two answers per request in flight arrive, and
      delivering them reaches a state with none left
      ([app_answers_settle]). *)

From Stdlib Require Import ZArith Lia.
From stdpp Require Import strings.
From stdpp Require Import base list decidable relations.
From S2P Require Import Prelude Types Remote Service Slice World ListPage ListView DetailPage DetailView Async ListAsync DetailAsync App AppAsync.
Open Scope Z_scope.

Lemma page_eta {P S} (c : page P S) : mkPage c.(local) c.(shared) = c.
Proof. by destruct c. Qed.

(** ** A mounted page inside the application *)
Section embed.
Context {Srv : Type} `{!RemoteService Srv}.
Context (localeCompare : string → string → Z).

(** The list page's machine [M] is instance [i] on screen in [A]. *)
Definition list_embed (i : nat) (M : machine list_page Srv) (A : app_machine Srv) : Prop :=
  A.(am_world) = M.(m_page).(shared) ∧ A.(am_view) = VList i M.(m_page).(local) ∧
  Forall2 (λ t th, ∃ g, th = TList i g t) M.(m_pending) A.(am_pending).

Definition detail_embed (i : nat) (p : option string) (M : machine detail_page Srv)
  (A : app_machine Srv) : Prop :=
  A.(am_world) = M.(m_page).(shared) ∧ A.(am_view) = VDetail i p M.(m_page).(local) ∧
  Forall2 (λ t th, ∃ g, th = TDetail i p g t) M.(m_pending) A.(am_pending).

Lemma list_embed_start i t M A :
  list_embed i M A → list_embed i (m_start t M) (start_list i M.(m_page).(local) t A).
Proof.
  destruct M as [[l w] ps], A as [w' v nx ps']. intros (Hw & Hv & Hps); simpl in *; subst.
  unfold m_start, start_list, run_list_on; simpl.
  destruct (run_until t _) as [c' [t'|]]; (split; [done|split; [done|]]); simpl;
    apply Forall2_app; eauto.
Qed.

Lemma detail_embed_start i p t M A :
  detail_embed i p M A → detail_embed i p (m_start t M) (start_detail i p M.(m_page).(local) t A).
Proof.
  destruct M as [[d w] ps], A as [w' v nx ps']. intros (Hw & Hv & Hps); simpl in *; subst.
  unfold m_start, start_detail, run_detail_on; simpl.
  destruct (run_until t _) as [c' [t'|]]; (split; [done|split; [done|]]); simpl;
    apply Forall2_app; eauto.
Qed.

(** An answer to a request of the mounted page resumes on the page's
    state, as in the page's own machine. *)
Lemma list_embed_deliver i k M M' A :
  list_embed i M A → m_deliver k M = Some M' → ∃ A', deliver_app k A = Some A' ∧ list_embed i M' A'.
Proof.
  destruct M as [[l w] ps], A as [w' v nx ps']. intros (Hw & Hv & Hps); simpl in *; subst.
  unfold m_deliver, deliver_app; simpl. destruct (ps !! k) as [t|] eqn:Hk; [|done].
  destruct (Forall2_lookup_l _ _ _ _ _ Hps Hk) as (th & Hth & g & ->). rewrite Hth. simpl.
  rewrite decide_True by done. unfold run_list_on.
  destruct (run_until t _) as [c' [t'|]]; intros [= <-]; eexists; (split; [done|]);
    (split; [done|split; [done|]]); simpl; apply Forall2_app; eauto using Forall2_delete.
Qed.

Lemma detail_embed_deliver i p k M M' A :
  detail_embed i p M A → m_deliver k M = Some M' →
  ∃ A', deliver_app k A = Some A' ∧ detail_embed i p M' A'.
Proof.
  destruct M as [[d w] ps], A as [w' v nx ps']. intros (Hw & Hv & Hps); simpl in *; subst.
  unfold m_deliver, deliver_app; simpl. destruct (ps !! k) as [t|] eqn:Hk; [|done].
  destruct (Forall2_lookup_l _ _ _ _ _ Hps Hk) as (th & Hth & g & ->). rewrite Hth. simpl.
  rewrite decide_True by done. unfold run_detail_on.
  destruct (run_until t _) as [c' [t'|]]; intros [= <-]; eexists; (split; [done|]);
    (split; [done|split; [done|]]); simpl; apply Forall2_app; eauto using Forall2_delete.
Qed.

(** While the list page is mounted, each step of its machine is a step
    of the application's. *)
Lemma list_embed_step i M M' A :
  mstep (list_can_start localeCompare) M M' → list_embed i M A →
  ∃ A', app_mstep localeCompare A A' ∧ list_embed i M' A'.
Proof.
  intros [M0 t [ev [He ->]]|M0 k M1 Hd] HE.
  - eexists. split; [|by apply list_embed_start].
    destruct HE as (Hw & Hv & _). apply (am_list_event _ _ _ _ _ Hv). by rewrite Hw, page_eta.
  - destruct (list_embed_deliver i k M0 M1 A HE Hd) as (A' & ? & ?).
    exists A'. split; [by eapply am_deliver|done].
Qed.

Lemma detail_embed_step i p M M' A :
  mstep detail_can_start M M' → detail_embed i p M A →
  ∃ A', app_mstep localeCompare A A' ∧ detail_embed i p M' A'.
Proof.
  intros [M0 t [ev [He ->]]|M0 k M1 Hd] HE.
  - eexists. split; [|by apply detail_embed_start].
    destruct HE as (Hw & Hv & _). by apply (am_detail_event _ _ _ _ _ _ Hv).
  - destruct (detail_embed_deliver i p k M0 M1 A HE Hd) as (A' & ? & ?).
    exists A'. split; [by eapply am_deliver|done].
Qed.

(** Navigation with nothing in flight mounts the page's own machine. *)
Lemma app_init_embed w : list_embed 0 (list_mount w) (app_init w).
Proof. unfold list_mount, app_init. apply (list_embed_start 0 _ (mkMachine (mkPage _ w) [])). done. Qed.

Lemma mount_list_embed A :
  A.(am_pending) = [] → list_embed A.(am_next) (list_mount A.(am_world)) (mount_list_app A).
Proof.
  destruct A as [w v nx ps]. simpl. intros ->.
  apply (list_embed_start _ _ (mkMachine (mkPage _ w) [])). done.
Qed.

Lemma mount_detail_embed p A :
  A.(am_pending) = [] →
  detail_embed A.(am_next) p (detail_mount p A.(am_world)) (mount_detail_app p A).
Proof.
  destruct A as [w v nx ps]. simpl. intros ->.
  apply (detail_embed_start _ _ _ (mkMachine (mkPage _ w) [])). done.
Qed.
End embed.

(** ** The sequential application is the schedule with nothing in flight *)
Section refine.
Context {Srv : Type} `{!RemoteService Srv}.
Context (localeCompare : string → string → Z).

(** The application machine shows the screen [s] of [App], with no
    request in flight. *)
Definition screen_matches (s : screen (S:=Srv)) (A : app_machine Srv) : Prop :=
  A.(am_pending) = [] ∧ A.(am_world) = screen_world s ∧
  match s with
  | OnList c => ∃ i, A.(am_view) = VList i c.(local)
  | OnDetail p c => ∃ i, A.(am_view) = VDetail i p c.(local)
  end.

Lemma matches_list_embed c A : screen_matches (OnList c) A → ∃ i, list_embed i (mkMachine c []) A.
Proof. intros (Hp & Hw & i & Hv). exists i. unfold list_embed; rewrite Hp. by repeat split. Qed.

Lemma matches_detail_embed p c A :
  screen_matches (OnDetail p c) A → ∃ i, detail_embed i p (mkMachine c []) A.
Proof. intros (Hp & Hw & i & Hv). exists i. unfold detail_embed; rewrite Hp. by repeat split. Qed.

(** A run of the mounted page's machine that ends with nothing in flight
    is a run of the application's. *)
Lemma list_run_lifts i M c A :
  rtc (mstep (list_can_start localeCompare)) M (mkMachine c []) → list_embed i M A →
  ∃ A', rtc (app_mstep localeCompare) A A' ∧ screen_matches (OnList c) A'.
Proof.
  intros Hr HE. destruct (rtc_simulation _ _ _ (list_embed_step localeCompare i) _ _ _ Hr HE)
    as (A' & ? & Hw & Hv & Hps). exists A'. split; [done|].
  apply Forall2_nil_inv_l in Hps. split_and!; eauto.
Qed.

Lemma detail_run_lifts i p M c A :
  rtc (mstep detail_can_start) M (mkMachine c []) → detail_embed i p M A →
  ∃ A', rtc (app_mstep localeCompare) A A' ∧ screen_matches (OnDetail p c) A'.
Proof.
  intros Hr HE. destruct (rtc_simulation _ _ _ (detail_embed_step localeCompare i p) _ _ _ Hr HE)
    as (A' & ? & Hw & Hv & Hps). exists A'. split; [done|].
  apply Forall2_nil_inv_l in Hps. split_and!; eauto.
Qed.

(** One step of the sequential application, from a matching state. *)
Lemma app_step_refines s s' A :
  app_step localeCompare s s' → screen_matches s A →
  ∃ A', rtc (app_mstep localeCompare) A A' ∧ screen_matches s' A'.
Proof.
  intros [c c' Hc|c items it Hi Hit|p c c' Hc|p c Hr] Hm.
  - destruct (matches_list_embed c A Hm) as [i HE]. eapply list_run_lifts; [|exact HE].
    by apply list_step_drains.
  - destruct Hm as (Hp & Hw & i & Hv). apply list_elem_of_lookup_1 in Hit as [n Hn].
    destruct (detail_run_lifts _ _ _ _ _ (detail_mount_drains (product_route_param it.(item_to)) A.(am_world))
      (mount_detail_embed _ A Hp))
      as (A' & ? & HA'). exists A'. simpl in Hw. unfold mount_detail; rewrite <-Hw. split; [|done].
    eapply rtc_l; [|done]. eapply am_open; [exact Hv| |exact Hn]. by rewrite Hw, page_eta.
  - destruct (matches_detail_embed p c A Hm) as [i HE]. eapply detail_run_lifts; [|exact HE].
    by apply detail_step_drains.
  - destruct Hm as (Hp & Hw & i & Hv).
    destruct (list_run_lifts _ _ _ _ (list_mount_drains localeCompare A.(am_world)) (mount_list_embed A Hp))
      as (A' & ? & HA'). exists A'. simpl in Hw. unfold mount_list; rewrite <-Hw. split; [|done].
    eapply rtc_l; [|done]. by eapply am_back.
Qed.

(** The sequential application of [App] (every request completes
    before the next event or navigation) is a schedule of the
    interleaving machine: every screen a session reaches is reached by
    the machine with the same world, the same page state on screen, and
    no request in flight. *)
Theorem app_sequential_refines (w : world Srv) s :
  app_reachable localeCompare w s →
  ∃ A, app_mreach localeCompare w A ∧ screen_matches s A.
Proof.
  unfold app_reachable. revert s. apply rtc_ind_r.
  - exact (list_run_lifts 0 _ _ _ (list_mount_drains localeCompare w) (app_init_embed w)).
  - intros s s' _ Hs (A & HA & Hm). destruct (app_step_refines s s' A Hs Hm) as (A' & ? & ?).
    exists A'. split; [by eapply rtc_trans|done].
Qed.
End refine.

(** ** Answers alone settle the application *)
Section settle.
Context {Srv : Type} `{!RemoteService Srv}.
Context (localeCompare : string → string → Z).
Local Open Scope nat_scope.

Abbreviation thread := (athread (Srv:=Srv)).

(** The handler parked in [th] awaits at most [n] more times. *)
Definition th_within (n : nat) (th : thread) : Prop :=
  match th with TList _ _ t => awaits_within n t | TDetail _ _ _ t => awaits_within n t end.

(** Answers alone: the [k]-th request in flight completes. *)
Definition app_deliver_rel (A A' : app_machine Srv) : Prop := ∃ k, deliver_app k A = Some A'.

(** What a handler with at most [n] awaits left parks when it runs: nothing,
    or one handler with one await less. *)
Definition parked_within (n : nat) (ps : list thread) : Prop :=
  ps = [] ∨ ∃ n' th, n = S n' ∧ ps = [th] ∧ th_within n' th.

Lemma parked_within_forall n m ps : parked_within n ps → n ≤ S m → Forall (th_within m) ps.
Proof.
  intros [->|(n' & th & -> & -> & Hw)] Hle; [done|]. constructor; [|done].
  destruct th; simpl in *; (eapply awaits_within_mono; [|exact Hw]); lia.
Qed.

Lemma parked_within_measure n ps :
  parked_within n ps → ∃ ns, Forall2 th_within ns ps ∧ await_measure ns ≤ n.
Proof.
  intros [->|(n' & th & -> & -> & Hw)]; [exists []; split; [done|apply Nat.le_0_l]|].
  exists [n']. split; [by constructor|]. unfold await_measure. simpl. lia.
Qed.

Lemma run_list_on_parked n i t l w :
  awaits_within n t → parked_within n (run_list_on i t l w).2.
Proof.
  intros Hw. unfold run_list_on. pose proof (run_until_within n t (mkPage l w) ) as Hr.
  destruct (run_until t _) as [c' [t'|]]; simpl in *; [right|by left].
  destruct (Hr t' Hw eq_refl) as (n' & -> & ?). eauto.
Qed.

Lemma run_detail_on_parked n i p t d w :
  awaits_within n t → parked_within n (run_detail_on i p t d w).2.
Proof.
  intros Hw. unfold run_detail_on. pose proof (run_until_within n t (mkPage d w) ) as Hr.
  destruct (run_until t _) as [c' [t'|]]; simpl in *; [right|by left].
  destruct (Hr t' Hw eq_refl) as (n' & -> & ?). eauto.
Qed.

(** A handler resumes on the page on screen or on its ghost state: either
    way it parks at most one handler, with one await less. *)
Lemma resume_parked n th w v : th_within n th → parked_within n (resume th w v).2.
Proof.
  intros Hw. destruct th as [i g t|i p g t], v as [j l|j p' d]; simpl in Hw |- *;
    repeat case_decide;
    match goal with
    | |- context [run_list_on ?i ?t ?l ?w] =>
        pose proof (run_list_on_parked n i t l w Hw); destruct (run_list_on i t l w) as [[??]?]
    | |- context [run_detail_on ?i ?p ?t ?d ?w] =>
        pose proof (run_detail_on_parked n i p t d w Hw); destruct (run_detail_on i p t d w) as [[??]?]
    end; done.
Qed.

Lemma start_list_pending i l t A :
  (start_list i l t A).(am_pending) = A.(am_pending) ++ (run_list_on i t l A.(am_world)).2.
Proof. unfold start_list. by destruct (run_list_on _ _ _ _) as [[??]?]. Qed.

Lemma start_detail_pending i p d t A :
  (start_detail i p d t A).(am_pending) = A.(am_pending) ++ (run_detail_on i p t d A.(am_world)).2.
Proof. unfold start_detail. by destruct (run_detail_on _ _ _ _ _) as [[??]?]. Qed.

Lemma deliver_app_pending k A A' :
  deliver_app k A = Some A' →
  ∃ th, A.(am_pending) !! k = Some th ∧
        A'.(am_pending) = delete k A.(am_pending) ++ (resume th A.(am_world) A.(am_view)).2.
Proof.
  unfold deliver_app. destruct (A.(am_pending) !! k) as [th|]; cbn; [|discriminate].
  intros H. exists th. split; [done|]. destruct (resume th _ _) as [[??]?]. by injection H as <-.
Qed.

(** Any request in flight may be answered next. *)
Lemma deliver_app_total k A : is_Some (A.(am_pending) !! k) → ∃ A', deliver_app k A = Some A'.
Proof.
  unfold deliver_app. intros [th ->]. simpl. destruct (resume th _ _) as [[??]?]. by eexists.
Qed.
End settle.

Section settle_theorems.
Context {Srv : Type} `{!RemoteService Srv}.
Context (localeCompare : string → string → Z).
Local Open Scope nat_scope.

(** Every handler a step starts awaits at most twice, so every handler in
    flight, of a mounted page or of an unmounted one, awaits at most once
    more. *)
Lemma app_mreach_within (w : world Srv) A :
  app_mreach localeCompare w A → Forall (th_within 1) A.(am_pending).
Proof.
  unfold app_mreach. revert A. apply rtc_ind_r.
  - unfold app_init. rewrite start_list_pending. apply Forall_app. split; [done|].
    eapply parked_within_forall; [apply run_list_on_parked, a_loadProducts_within|lia].
  - intros A1 A2 _ Hs IH. destruct Hs as [A i l ev _ _|A i p d ev _ _|A k A' Hd|A i l items n it _ _ _|A i p d _ _].
    + rewrite start_list_pending. apply Forall_app. split; [done|].
      eapply parked_within_forall; [apply run_list_on_parked, a_on_list_event_within|lia].
    + rewrite start_detail_pending. apply Forall_app. split; [done|].
      eapply parked_within_forall; [apply run_detail_on_parked, a_on_detail_event_within|lia].
    + destruct (deliver_app_pending k A A' Hd) as (th & Hk & ->). apply Forall_app.
      split; [by apply Forall_delete|].
      eapply parked_within_forall; [apply resume_parked, (Forall_lookup_1 _ _ _ _ IH Hk)|lia].
    + unfold mount_detail_app. rewrite start_detail_pending. apply Forall_app. split; [done|].
      eapply parked_within_forall; [apply run_detail_on_parked, a_loadProductAndComments_within|lia].
    + unfold mount_list_app. rewrite start_list_pending. apply Forall_app. split; [done|].
      eapply parked_within_forall; [apply run_list_on_parked, a_loadProducts_within|lia].
Qed.

(** Each answer lowers the number of awaits left, counted with one more
    per request in flight. *)
Lemma app_deliver_decreases ns A A' :
  Forall2 th_within ns A.(am_pending) → app_deliver_rel A A' →
  ∃ ns', Forall2 th_within ns' A'.(am_pending) ∧ await_measure ns' < await_measure ns.
Proof.
  intros Hns [k Hd]. destruct (deliver_app_pending k A A' Hd) as (th & Hk & ->).
  destruct (Forall2_lookup_r _ _ _ _ _ Hns Hk) as (n & Hn & Hw).
  destruct (parked_within_measure n _ (resume_parked n th A.(am_world) A.(am_view) Hw)) as (ms & Hms & Hle).
  exists (delete k ns ++ ms). split; [apply Forall2_app; [by apply Forall2_delete|done]|].
  rewrite await_measure_app, <-(await_measure_delete ns k n) by done. lia.
Qed.

Lemma app_deliveries_le ns A n A' :
  Forall2 th_within ns A.(am_pending) → nsteps app_deliver_rel n A A' → n ≤ await_measure ns.
Proof.
  intros Hns Hs. revert ns Hns. induction Hs as [A|n A1 A2 A3 H12 H23 IH]; intros ns Hns; [lia|].
  destruct (app_deliver_decreases ns A1 A2 Hns H12) as (ns' & Hns' & Hlt).
  specialize (IH ns' Hns'). lia.
Qed.

(** Answering the first request in flight, again and again, leaves none:
    by induction on a bound of the measure. *)
Lemma app_settles ns A :
  Forall2 th_within ns A.(am_pending) →
  ∃ A', rtc app_deliver_rel A A' ∧ A'.(am_pending) = [].
Proof.
  remember (await_measure ns) as m eqn:Hm. assert (await_measure ns ≤ m) as Hle by lia. clear Hm.
  revert ns A Hle. induction m as [|m IH]; intros ns A Hle Hns.
  - destruct (am_pending A) as [|th ps] eqn:Hp; [by exists A|].
    inversion Hns; subst. unfold await_measure in Hle. simpl in Hle. lia.
  - destruct (am_pending A) as [|th ps] eqn:Hp; [by exists A|].
    destruct (deliver_app_total 0 A) as [A1 Hd]; [rewrite Hp; by eexists|].
    rewrite <-Hp in Hns. destruct (app_deliver_decreases ns A A1 Hns (ex_intro _ 0 Hd)) as (ns' & Hns' & Hlt).
    destruct (IH ns' A1 ltac:(lia) Hns') as (A' & ? & ?).
    exists A'. split; [eapply rtc_l; [by exists 0|done]|done].
Qed.

Lemma app_deliver_mreach w A A' :
  app_mreach localeCompare w A → rtc app_deliver_rel A A' → app_mreach localeCompare w A'.
Proof.
  intros HA Hd. induction Hd as [|A1 A2 A3 [k Hk] _ IH]; [done|].
  apply IH. eapply rtc_r; [exact HA|]. by eapply am_deliver.
Qed.

(** C32: in every state the application reaches, whatever the pages on
    screen and off screen have in flight, answers alone settle it: with
    no further user event or navigation at most two answers per request
    in flight arrive, and answering them reaches a state, still reachable,
    with no request in flight. *)
Theorem app_answers_settle (w : world Srv) A :
  app_mreach localeCompare w A →
  (∀ n A', nsteps app_deliver_rel n A A' → n ≤ 2 * length A.(am_pending)) ∧
  ∃ A', rtc app_deliver_rel A A' ∧ A'.(am_pending) = [] ∧ app_mreach localeCompare w A'.
Proof.
  intros Hr. pose proof (Forall2_replicate_l _ 1 _ (app_mreach_within w A Hr)) as Hns. split.
  - intros n A' Hs. pose proof (app_deliveries_le _ _ _ _ Hns Hs) as Hle.
    rewrite await_measure_replicate in Hle. lia.
  - destruct (app_settles _ _ Hns) as (A' & Hd & Hp). exists A'.
    split_and!; [done|done|by eapply app_deliver_mreach].
Qed.
End settle_theorems.
