(* ===== verification/Scenarios.v ===== *)
(** * Concrete runs on the json-server backend

    This file runs the model on concrete data: one instance of each
    theorem with hypotheses (the [_witness] lemmas), user sessions on
    both pages, and schedules in which answers arrive out of order (one
    of them across a navigation, answering a list page that has already
    been unmounted), all on the [JsonServer] backend.  For
    [localeCompare] it uses [codepoint_compare], the comparison of
    strings by character codes, and proves it consistent. *)

From Stdlib Require Import ZArith Lia Sorting.Sorted.
From stdpp Require Import strings.
From stdpp Require Import base list decidable relations.
From S2P Require Import Prelude Types Remote JsonServer Service ServiceSpec Slice Sort World ListPage ListView DetailPage DetailView Async ListAsync DetailAsync Sync App AppAsync AppRefine.
Import JsonServer.
Open Scope Z_scope.

(** ** A consistent string comparison *)

Definition codepoint_compare (a b : string) : Z :=
  match String.compare a b with Lt => -1 | Eq => 0 | Gt => 1 end.

Lemma string_compare_le_trans a b c :
  String.compare a b ≠ Gt → String.compare b c ≠ Gt → String.compare a c ≠ Gt.
Proof.
  revert b c. induction a as [|x a IH]; intros [|y b] [|z c]; simpl; try congruence.
  unfold Ascii.compare.
  destruct (N.compare_spec (Ascii.N_of_ascii x) (Ascii.N_of_ascii y)) as [Hxy|Hxy|Hxy];
  destruct (N.compare_spec (Ascii.N_of_ascii y) (Ascii.N_of_ascii z)) as [Hyz|Hyz|Hyz];
  destruct (N.compare_spec (Ascii.N_of_ascii x) (Ascii.N_of_ascii z)) as [Hxz|Hxz|Hxz];
  try congruence; try lia. apply IH.
Qed.

Lemma codepoint_antisym a b :
  Z.sgn (codepoint_compare b a) = - Z.sgn (codepoint_compare a b).
Proof.
  unfold codepoint_compare. rewrite (String.compare_antisym b a).
  by destruct (String.compare a b).
Qed.

Lemma codepoint_le a b : codepoint_compare a b ≤ 0 ↔ String.compare a b ≠ Gt.
Proof. unfold codepoint_compare. destruct (String.compare a b); split; try lia; congruence. Qed.

Lemma codepoint_trans a b c :
  codepoint_compare a b ≤ 0 → codepoint_compare b c ≤ 0 → codepoint_compare a c ≤ 0.
Proof. rewrite !codepoint_le. apply string_compare_le_trans. Qed.

(** ** Data *)

Definition pB : Product := mkProduct 1 "b.png" "B" 5 (mkSize 10 20) "1kg" [].
Definition pA : Product := mkProduct 2 "a.png" "A" 3 (mkSize 10 20) "2kg" [].

Definition db0 : db := mkDb [pB; pA] [].

Definition store_of (l : list Product) : ProductSlice.RootState :=
  ProductSlice.mkRootState (ProductSlice.mkProductsState l).

Definition filled_form : form_data := mkForm "C" 7 1 2 "3kg" "c.png".

(** The list page with the add form filled in, the store showing [ps],
    the server holding [s], and the network behaving as [sched]. *)
Definition list_cfg (s : db) (ps : list Product) (sched : list delivery)
  : page list_page db :=
  mkPage (set_formData filled_form (set_isAddModalOpen true initial_list_page))
         (mkWorld (mkNet s sched []) (store_of ps) []).

(** ** Instances of the theorems *)

Definition pC : Product := mkProduct 3 "c.png" "C" 7 (mkSize 1 2) "3kg" [].
Definition cm1 : CommentModel := CM.mkComment 1 1 "first" "1/1/2025".
Definition db1 : db := mkDb [pB; pA] [cm1].
Definition db3 : db := mkDb [pB; pA; pC] [].

Definition detail_cfg (s : db) (d : detail_page) (sched : list delivery)
  : page detail_page db :=
  mkPage d (mkWorld (mkNet s sched []) (store_of (db_products s)) []).

Definition loaded (p : Product) (cs : list CommentModel) (text : string) : detail_page :=
  mkDetail (Some p) cs text false (form_of_product p).

Lemma handleSubmit_creates_witness :
  let c := list_cfg db0 [pB; pA] [] in
  let c' := run_state handleSubmit c in
  let newId := max_id (srv_products (server c.(shared).(w_net))) + 1 in
  srv_products (server c'.(shared).(w_net)) =
    srv_products (server c.(shared).(w_net)) ++ [with_id newId (new_product_draft c.(local).(formData))] ∧
  ProductSlice.select_products c'.(shared).(w_store) = srv_products (server c'.(shared).(w_net)) ∧
  id_count newId (ProductSlice.select_products c'.(shared).(w_store)) = 1%nat ∧
  c'.(local).(isAddModalOpen) = false ∧ c'.(local).(formData) = empty_form.
Proof.
  apply (handleSubmit_creates (list_cfg db0 [pB; pA] []));
    try reflexivity; try (apply (bool_decide_unpack _); vm_compute; reflexivity).
Defined.

Ltac discharge :=
  try reflexivity; try discriminate;
  try (apply (bool_decide_unpack _); vm_compute; reflexivity).

Lemma confirmDelete_removes_witness :
  let c := mkPage (set_selectedProductId (Some 1) initial_list_page)
             (mkWorld (mkNet db0 [] []) (store_of [pB; pA]) []) in
  let c' := run_state confirmDelete c in
  (1 ∉ ids (srv_products (server c'.(shared).(w_net)))) ∧
  ProductSlice.select_products c'.(shared).(w_store) =
    remove_product 1 (ProductSlice.select_products c.(shared).(w_store)) ∧
  (1 ∉ ids (ProductSlice.select_products c'.(shared).(w_store))) ∧
  c'.(local).(isDeleteModalOpen) = false ∧ c'.(local).(selectedProductId) = None.
Proof. apply (confirmDelete_removes _ 1 pB); discharge. Defined.

Definition rename_patch : ProductPatch :=
  mkPatch None None (Some "B2") (Some 9) None None None.

Lemma update_then_get_witness :
  run_res (updateProduct 1 rename_patch ≫= λ _, fetchProductById 1)
          (mkNet db0 [] []) = Ok (patched rename_patch pB).
Proof. apply (update_then_get (mkNet db0 [] []) 1 rename_patch pB); discharge. Defined.

Lemma handleSubmit_rejects_invalid_witness :
  let c := mkPage (set_formData (mkForm "" 1 1 1 "1kg" "x.png") initial_list_page)
             (mkWorld (mkNet db0 [] []) (store_of [pB; pA]) []) in
  handleSubmit c =
    (Ok (), mkPage c.(local) (mkWorld c.(shared).(w_net) c.(shared).(w_store)
               (c.(shared).(w_log) ++ [Alert "Please fill in all required fields!"]))).
Proof. apply handleSubmit_rejects_invalid; discharge. Defined.

Lemma sortedProducts_sorted_perm_witness :
  Sorted (sort_le codepoint_compare SortCount) (sortedProducts codepoint_compare SortCount [pB; pA]) ∧
  sortedProducts codepoint_compare SortCount [pB; pA] ≡ₚ [pB; pA].
Proof. apply (sortedProducts_sorted_perm codepoint_compare codepoint_antisym). Defined.

Lemma sortedProducts_stable_witness :
  List.filter (same_key codepoint_compare SortName pA)
              (sortedProducts codepoint_compare SortName [pB; pA]) =
  List.filter (same_key codepoint_compare SortName pA) [pB; pA].
Proof.
  apply (sortedProducts_stable codepoint_compare codepoint_antisym codepoint_trans).
Defined.

(** The store holds [B (count 5); A (count 3)]; the list [A; B] is in
    ascending count and ties nothing, so it is what the page shows. *)
Lemma sortedProducts_unique_witness :
  [pA; pB] = sortedProducts codepoint_compare SortCount [pB; pA].
Proof.
  apply (sortedProducts_unique codepoint_compare codepoint_antisym codepoint_trans).
  - repeat constructor; simpl; lia.
  - intros k. simpl. destruct (Z.eqb_spec (count k) 3), (Z.eqb_spec (count k) 5); simpl; lia || reflexivity.
Defined.

Lemma handleAddComment_appends_witness :
  let c := detail_cfg db1 (loaded pB [cm1] "nice") [] in
  let c' := run_state (handleAddComment "2/1/2025") c in
  ∃ added, c'.(local).(comments_st) = c.(local).(comments_st) ++ [added] ∧
    added.(CM.description) = c.(local).(newCommentText) ∧
    added.(CM.productId) = pB.(id) ∧ added.(CM.date) = "2/1/2025" ∧
    c'.(local).(newCommentText) = "".
Proof. apply (handleAddComment_appends _ pB); discharge. Defined.

(** The scenario of spec §8: deleting comment 5, which the list does not
    hold, leaves the list as it was. *)
Lemma invoke_transport_error_witness :
  invoke CFetchProducts (mkNet db0 [LostRequest] []) =
    (Err TransportError,
     mkNet (if decide (LostRequest = LostRequest) then db0
            else snd (handle (call_request CFetchProducts) db0))
           [] ([] ++ [call_request CFetchProducts])).
Proof. apply (invoke_transport_error CFetchProducts (mkNet db0 [LostRequest] [])); discharge. Defined.

Lemma load_shows_product_witness :
  let c := detail_cfg db1 initial_detail_page [] in
  let c' := run_state (loadProductAndComments (Some (js_String 1))) c in
  render_detail c'.(local) = ViewReady pB (comments_of 1 (srv_comments (server c.(shared).(w_net)))) ∧
  c'.(shared).(w_log) = c.(shared).(w_log).
Proof. apply (load_shows_product _ 1 pB); discharge. Defined.

Lemma load_missing_stays_loading_witness :
  let c := detail_cfg db1 initial_detail_page [] in
  let c' := run_state (loadProductAndComments (Some (js_String 9))) c in
  render_detail c'.(local) = ViewLoading ∧
  c'.(shared).(w_log) = c.(shared).(w_log) ++ [ConsoleError "Failed to fetch product or comments:"].
Proof. apply (load_missing_stays_loading _ 9); discharge. Defined.

Lemma load_comments_lost_shows_product_witness :
  let c := detail_cfg db1 initial_detail_page [Delivered; LostRequest] in
  let c' := run_state (loadProductAndComments (Some (js_String 1))) c in
  render_detail c'.(local) = ViewReady pB c.(local).(comments_st) ∧
  c'.(shared).(w_log) = c.(shared).(w_log) ++ [ConsoleError "Failed to fetch product or comments:"].
Proof. apply (load_comments_lost_shows_product _ 1 pB); discharge. Defined.

Lemma handleUpdate_shows_server_record_witness :
  let c := detail_cfg db1 (loaded pB [cm1] "") [] in
  let c' := run_state handleUpdate c in
  let q' := patched (updated_data pB c.(local).(d_formData)) pB in
  c'.(local).(product) = Some q' ∧
  ProductSlice.select_products c'.(shared).(w_store) =
    ProductSlice.replace_first q' (ProductSlice.select_products c.(shared).(w_store)) ∧
  c'.(local).(isEditModalOpen) = false.
Proof. apply (handleUpdate_shows_server_record _ pB pB); discharge. Defined.

Lemma handleSubmit_stale_collision_witness :
  let c := list_cfg db3 [pB; pA] [] in
  let c' := run_state handleSubmit c in
  server c'.(shared).(w_net) = server c.(shared).(w_net) ∧
  c'.(shared).(w_store) = c.(shared).(w_store) ∧
  c'.(local) = c.(local) ∧
  c'.(shared).(w_log) = c.(shared).(w_log) ++ [ConsoleError "Failed to add product:"].
Proof. apply handleSubmit_stale_collision; discharge. Defined.

(** The store and the server hold [B; A]; the reply to the [POST] of
    product 3 is lost, and the same form is submitted again. *)
Lemma lost_reply_blocks_resubmit_witness :
  let c := list_cfg db0 [pB; pA] [LostResponse] in
  let c2 := run_state handleSubmit (run_state handleSubmit c) in
  srv_products (server c2.(shared).(w_net)) = srv_products (server c.(shared).(w_net)) ++
    [with_id (max_id (srv_products (server c.(shared).(w_net))) + 1)
             (new_product_draft c.(local).(formData))] ∧
  c2.(shared).(w_store) = c.(shared).(w_store) ∧ c2.(local) = c.(local) ∧
  c2.(shared).(w_log) = c.(shared).(w_log) ++
    [ConsoleError "Failed to add product:"; ConsoleError "Failed to add product:"].
Proof. apply lost_reply_blocks_resubmit; discharge. Defined.

Lemma reduce_wf_witness :
  ProductSlice.store_wf (ProductSlice.reduce (ProductSlice.addProduct pC) (store_of [pB; pA])).
Proof. apply ProductSlice.reduce_wf; discharge. Defined.

(** The invariant before and after an add whose first reply is lost and
    whose re-fetch is answered. *)
Lemma list_handlers_keep_world_ok_witness :
  let c := list_cfg db0 [pB; pA] [LostResponse; Delivered] in
  world_ok c ∧ world_ok (run_state handleSubmit c).
Proof.
  assert (world_ok (list_cfg db0 [pB; pA] [LostResponse; Delivered])) as Hc.
  { split; [|split]; apply (bool_decide_unpack _); vm_compute; reflexivity. }
  split; [exact Hc|].
  exact (proj1 (proj1 (proj2 list_handlers_keep_world_ok) _ Hc)).
Defined.

(** The invariant before and after an edit on a reliable network. *)
Lemma detail_handlers_keep_world_ok_witness :
  let c := detail_cfg db1 (loaded pC [cm1] "") [] in
  world_ok c ∧ world_ok (run_state handleUpdate c).
Proof.
  assert (world_ok (detail_cfg db1 (loaded pC [cm1] "") [])) as Hc.
  { split; [|split]; apply (bool_decide_unpack _); vm_compute; reflexivity. }
  split; [exact Hc|].
  exact (proj1 (proj1 (proj2 (proj2 (detail_handlers_keep_world_ok None "" 0))) _ Hc)).
Defined.

(** The store in step with the server before and after a submission on a
    reliable network. *)
Lemma handlers_keep_synced_witness :
  let c := list_cfg db0 [pB; pA] [] in
  synced c ∧ synced (run_state handleSubmit c).
Proof.
  assert (synced (list_cfg db0 [pB; pA] [])) as Hc.
  { split_and!; [split; [split|]| |]; try reflexivity;
      apply (bool_decide_unpack _); vm_compute; reflexivity. }
  split; [exact Hc|]. exact (proj1 (proj2 (proj1 handlers_keep_synced _ Hc))).
Defined.

(** The id computed for the store of spec §8. *)
Lemma new_id_bounds_witness :
  new_id [pB; pA] = max_id [pB; pA] + 1 ∧ max_id [pB; pA] = 2.
Proof.
  split; [|reflexivity].
  refine (proj1 (proj1 (new_id_bounds [pB; pA] _) _)).
  - apply (bool_decide_unpack _); vm_compute; reflexivity.
  - vm_compute; reflexivity.
Defined.

(** ** A session on the list page *)

(** The page mounted on the server of spec §8 with an empty store, then
    the user clicks the "Delete" of product 1. *)
Definition w0 : world db := mkWorld (mkNet db0 [] []) (store_of []) [].
Definition mounted : page list_page db := run_state loadProducts (mkPage initial_list_page w0).
Definition after_click : page list_page db := run_state (on_list_event (ClickDelete 1)) mounted.

Lemma after_click_reachable : list_reachable codepoint_compare w0 after_click.
Proof.
  unfold list_reachable. apply rtc_once.
  apply (list_step_event _ (ClickDelete 1)). vm_compute. reflexivity.
Qed.

Lemma w0_ok : world_ok (mkPage initial_list_page w0).
Proof. split; [|split]; apply (bool_decide_unpack _); vm_compute; reflexivity. Qed.

Lemma confirm_sends_delete_witness :
  enabled codepoint_compare after_click ConfirmDeletion = true ∧
  ∃ i, after_click.(local).(selectedProductId) = Some i ∧
    sent (run_state (on_list_event ConfirmDeletion) after_click).(shared).(w_net) =
      sent after_click.(shared).(w_net) ++ [call_request (CDeleteProduct i)].
Proof.
  assert (enabled codepoint_compare after_click ConfirmDeletion = true) as He
    by (vm_compute; reflexivity).
  split; [exact He|]. exact (confirm_sends_delete codepoint_compare w0 after_click after_click_reachable He).
Defined.

(** ** A session on the detail page *)

(** Mounted on [/product/1] against [db1]; the user types a comment and
    adds it. *)
Definition wd : world db := mkWorld (mkNet db1 [] []) (store_of [pB; pA]) [].
Definition d_mounted : page detail_page db :=
  run_state (loadProductAndComments (Some "1")) (mkPage initial_detail_page wd).
Definition d_typed : page detail_page db := run_state (on_detail_event (CommentInput "nice")) d_mounted.
Definition d_added : page detail_page db :=
  run_state (on_detail_event (ClickAddComment "2/1/2025")) d_typed.

Lemma d_added_reachable : detail_reachable (Some "1") wd d_added.
Proof.
  unfold detail_reachable. eapply rtc_l; [apply (detail_step_event (CommentInput "nice"))|].
  { vm_compute. reflexivity. }
  apply rtc_once. apply (detail_step_event (ClickAddComment "2/1/2025")). vm_compute. reflexivity.
Qed.

Lemma detail_reachable_ok_witness :
  (∀ p, d_added.(local).(product) = Some p →
     Forall (λ cm, cm.(CM.productId) = p.(id)) d_added.(local).(comments_st)) ∧
  length d_added.(local).(comments_st) = 2%nat.
Proof.
  split; [|vm_compute; reflexivity].
  refine (proj2 (proj2 (detail_reachable_ok (Some "1") wd d_added _ d_added_reachable))).
  apply (bool_decide_unpack _); vm_compute; reflexivity.
Defined.

(** The mount effect re-runs when the route's [id] changes ([[id]]
    dependency) on the page's current state: it sets the new product
    before fetching its comments and never clears the old ones.  When the
    comments request for product 2 is lost, the page shows product 2 with
    the comment of product 1. *)
Example id_change_keeps_old_comments :
  let c := run_state (loadProductAndComments (Some "2"))
             (detail_cfg db1 (loaded pB [cm1] "") [Delivered; LostRequest]) in
  c.(local).(product) = Some pA ∧ c.(local).(comments_st) = [cm1] ∧
  cm1.(CM.productId) = 1 ∧ pA.(id) = 2.
Proof. vm_compute. repeat split. Qed.

Lemma list_render_keys_unique_witness :
  (render_list_page codepoint_compare after_click).(lv_items) = Some [item_of pA; item_of pB] ∧
  NoDup (map item_key [item_of pA; item_of pB]).
Proof.
  assert ((render_list_page codepoint_compare after_click).(lv_items) =
            Some [item_of pA; item_of pB]) as Hi by (vm_compute; reflexivity).
  split; [exact Hi|].
  exact (proj1 (list_render_keys_unique codepoint_compare w0 after_click _ w0_ok
                  after_click_reachable Hi)).
Defined.

(** ** Answers arriving out of order on the list page *)

(** Back on the list page: the store still holds the backend's list. *)
Definition w_back : world db := mkWorld (mkNet db0 [] []) (store_of [pB; pA]) [].

(** The mount's [GET /products] is in flight; the user fills in the add
    form and confirms; the [POST] and the refetch answer, then the mount's
    answer arrives. *)
Definition race_steps : list (sched_step list_event) :=
  [Start ClickAddProduct; Start (InputChange "name" "C"); Start (InputChange "weight" "3kg");
   Start (InputChange "imageUrl" "c.png"); Start ConfirmAdd; Deliver 1; Deliver 1; Deliver 0].

(** On a network that delivers everything, the list page can still end
    with a store that is not the backend's list: the mount's answer, sent
    before the product was created, arrives last and [setProducts] puts
    the old list back. *)
Example race_session_overwrites_store :
  ProductSlice.select_products w_back.(w_store) = db_products w_back.(w_net).(server) ∧
  ∃ M, list_mreach codepoint_compare w_back M ∧ M.(m_pending) = [] ∧
    ids (ProductSlice.select_products M.(m_page).(shared).(w_store)) = [1; 2] ∧
    ids (db_products M.(m_page).(shared).(w_net).(server)) = [1; 2; 3].
Proof.
  split; [reflexivity|].
  destruct (list_schedule codepoint_compare race_steps (list_mount w_back)) as [M|] eqn:E;
    [|vm_compute in E; discriminate].
  exists M. split; [exact (run_schedule_sound _ _ _ _ _ E)|].
  vm_compute in E. injection E as <-. vm_compute. auto.
Qed.

Definition race_machine : machine list_page db :=
  default (list_mount w_back) (list_schedule codepoint_compare race_steps (list_mount w_back)).

Lemma race_machine_reach : list_mreach codepoint_compare w_back race_machine.
Proof. apply (run_schedule_sound _ _ race_steps). vm_compute. reflexivity. Qed.

Lemma w_back_ok : world_ok (mkPage initial_list_page w_back).
Proof. split; [|split]; apply (bool_decide_unpack _); vm_compute; reflexivity. Qed.

Lemma list_sequential_refines_witness : list_mreach codepoint_compare w0 (mkMachine after_click []).
Proof. exact (list_sequential_refines codepoint_compare w0 after_click after_click_reachable). Defined.

Lemma list_interleaved_ok_witness :
  world_ok race_machine.(m_page) ∧
  (race_machine.(m_page).(local).(isDeleteModalOpen) = true →
   is_Some race_machine.(m_page).(local).(selectedProductId)).
Proof. exact (list_interleaved_ok codepoint_compare w_back race_machine w_back_ok race_machine_reach). Defined.

(** The moment the user confirms: the mount's [GET] and the [POST] are in
    flight. *)
Definition race_mid : machine list_page db :=
  default (list_mount w_back) (list_schedule codepoint_compare (take 5 race_steps) (list_mount w_back)).

Lemma race_mid_reach : list_mreach codepoint_compare w_back race_mid.
Proof. apply (run_schedule_sound _ _ (take 5 race_steps)). vm_compute. reflexivity. Qed.

Lemma race_mid_settles : nsteps deliver_rel 3 race_mid race_machine.
Proof. apply (run_schedule_deliveries (enabled codepoint_compare) a_on_list_event [1; 1; 0]%nat). vm_compute. reflexivity. Qed.

Lemma list_deliveries_bounded_witness : (3 ≤ 2 * length race_mid.(m_pending))%nat.
Proof. exact (list_deliveries_bounded codepoint_compare w_back race_mid 3 race_machine race_mid_reach race_mid_settles). Defined.

(** ** Answers arriving out of order on the detail page *)

(** The mount's two [GET]s answer; the user types a comment. *)
Definition d_ready_steps : list (sched_step detail_event) :=
  [Deliver 0; Deliver 0; Start (CommentInput "nice")].

(** "Add Comment" clicked twice before the first [POST] answers: the page
    ends with two identical new comments, on the backend as on screen. *)
Example double_click_session :
  ∃ M, detail_mreach (Some "1") wd M ∧ M.(m_pending) = [] ∧
    map CM.description M.(m_page).(local).(comments_st) = ["first"; "nice"; "nice"] ∧
    map CM.description (db_comments M.(m_page).(shared).(w_net).(server)) = ["first"; "nice"; "nice"].
Proof.
  destruct (detail_schedule (d_ready_steps ++ [Start (ClickAddComment "t"); Start (ClickAddComment "t");
                                             Deliver 0; Deliver 0])
              (detail_mount (Some "1") wd)) as [M|] eqn:E; [|vm_compute in E; discriminate].
  exists M. split; [exact (run_schedule_sound _ _ _ _ _ E)|].
  vm_compute in E. injection E as <-. vm_compute. auto.
Qed.

(** A comment added while the mount's [GET /comments] is in flight is
    wiped from the page when that answer arrives; it stays on the
    backend. *)
Example late_comments_session :
  ∃ M, detail_mreach (Some "1") wd M ∧ M.(m_pending) = [] ∧
    map CM.description M.(m_page).(local).(comments_st) = ["first"] ∧
    map CM.description (db_comments M.(m_page).(shared).(w_net).(server)) = ["first"; "nice"].
Proof.
  destruct (detail_schedule [Deliver 0; Start (CommentInput "nice"); Start (ClickAddComment "t");
                           Deliver 1; Deliver 0]
              (detail_mount (Some "1") wd)) as [M|] eqn:E; [|vm_compute in E; discriminate].
  exists M. split; [exact (run_schedule_sound _ _ _ _ _ E)|].
  vm_compute in E. injection E as <-. vm_compute. auto.
Qed.

Definition d_double : machine detail_page db :=
  default (detail_mount (Some "1") wd)
    (detail_schedule (d_ready_steps ++ [Start (ClickAddComment "t"); Start (ClickAddComment "t")])
       (detail_mount (Some "1") wd)).

Lemma d_double_reach : detail_mreach (Some "1") wd d_double.
Proof.
  apply (run_schedule_sound _ _ (d_ready_steps ++ [Start (ClickAddComment "t"); Start (ClickAddComment "t")])).
  vm_compute. reflexivity.
Qed.

Lemma wd_srv_ok : srv_ok (server wd.(w_net)).
Proof. split; apply (bool_decide_unpack _); vm_compute; reflexivity. Qed.

Lemma detail_interleaved_ok_witness :
  srv_ok (server d_double.(m_page).(shared).(w_net)) ∧
  (d_double.(m_page).(local).(isEditModalOpen) = true → is_Some d_double.(m_page).(local).(product)) ∧
  (∀ p, d_double.(m_page).(local).(product) = Some p →
     Forall (λ cm, cm.(CM.productId) = p.(id)) d_double.(m_page).(local).(comments_st)).
Proof. exact (detail_interleaved_ok (Some "1") wd d_double wd_srv_ok d_double_reach). Defined.

(** ** A session across both pages *)

(** From the list (store in step with the server), the user opens
    product B through its link, then goes back. *)
Definition app_detail_B : screen :=
  OnDetail (product_route_param (item_of pB).(item_to))
    (mount_detail (product_route_param (item_of pB).(item_to)) (mount_list w_back).(shared)).

Definition app_back_list : screen := OnList (mount_list (screen_world app_detail_B)).

Lemma app_session_reach : app_reachable codepoint_compare w_back app_back_list.
Proof.
  eapply rtc_l.
  { apply (app_open_product _ _ [item_of pA; item_of pB] (item_of pB));
      [vm_compute; reflexivity|apply list_elem_of_In; simpl; tauto]. }
  eapply rtc_l; [apply app_back; vm_compute; eexists; reflexivity|apply rtc_refl].
Qed.

Lemma w_back_synced : synced_world w_back.
Proof.
  split_and!.
  - split; [apply w_back_ok|reflexivity].
  - reflexivity.
  - repeat constructor.
Qed.

Lemma app_reachable_ok_witness :
  world_ok (mkPage () (screen_world app_back_list)) ∧
  ((mount_list (screen_world app_detail_B)).(local).(isDeleteModalOpen) = true →
   is_Some (mount_list (screen_world app_detail_B)).(local).(selectedProductId)).
Proof. exact (app_reachable_ok codepoint_compare w_back app_back_list w_back_ok app_session_reach). Defined.

Lemma app_synced_witness :
  ProductSlice.select_products (screen_world app_back_list).(w_store) =
    srv_products (server (screen_world app_back_list).(w_net)).
Proof. exact (app_synced codepoint_compare w_back app_back_list w_back_synced app_session_reach). Defined.

(** ** An answer to an unmounted page *)

(** The list's mount [GET] is in flight; the user opens product B, renames
    it to "B2" and goes back; the new list's [GET] answers, then the first
    one. *)
Definition cross_steps : list app_action :=
  [AOpen 1; AAnswer 1; AAnswer 1;
   ADetail ClickEdit; ADetail (EditInput "name" "B2"); ADetail ConfirmEdit; AAnswer 1;
   ABack; AAnswer 1; AAnswer 0].

(** The list's first [GET /products], sent before the edit, arrives after
    the edit and after the new list's own [GET], and [setProducts] puts
    the old record back: the list on screen shows "B" while the backend
    holds "B2", on a network that delivers everything. *)
Example cross_session_reverts_edit :
  ∃ M, app_mreach codepoint_compare w_back M ∧ M.(am_pending) = [] ∧
    (∃ i l, M.(am_view) = VList i l) ∧
    map name (ProductSlice.select_products M.(am_world).(w_store)) = ["B"; "A"] ∧
    map name (db_products M.(am_world).(w_net).(server)) = ["B2"; "A"].
Proof.
  destruct (app_schedule codepoint_compare cross_steps (app_init w_back)) as [M|] eqn:E;
    [|vm_compute in E; discriminate].
  exists M. split; [exact (app_schedule_sound _ _ _ _ E)|].
  vm_compute in E. injection E as <-. vm_compute. split_and!; [done|by eexists _, _|done|done].
Qed.

Definition cross_machine : app_machine db :=
  default (app_init w_back) (app_schedule codepoint_compare cross_steps (app_init w_back)).

Lemma cross_machine_reach : app_mreach codepoint_compare w_back cross_machine.
Proof. apply (app_schedule_sound _ cross_steps). vm_compute. reflexivity. Qed.

Lemma app_interleaved_ok_witness :
  world_wf cross_machine.(am_world) ∧
  match cross_machine.(am_view) with
  | VList _ l => l.(isDeleteModalOpen) = true → is_Some l.(selectedProductId)
  | VDetail _ _ d => detail_ok d
  end.
Proof. exact (app_interleaved_ok codepoint_compare w_back cross_machine w_back_ok cross_machine_reach). Defined.

(** The session of [app_back_list] (open product B, edit it, go back) is
    a schedule of the interleaving machine with nothing in flight. *)
Lemma app_sequential_refines_witness :
  ∃ A, app_mreach codepoint_compare w_back A ∧ screen_matches app_back_list A.
Proof. exact (app_sequential_refines codepoint_compare w_back app_back_list app_session_reach). Defined.

(** After "← Back" in [cross_steps], two [GET /products] are in flight:
    the new list's and the unmounted one's. *)
Definition cross_mid : app_machine db :=
  default (app_init w_back) (app_schedule codepoint_compare (take 8 cross_steps) (app_init w_back)).

Lemma cross_mid_reach : app_mreach codepoint_compare w_back cross_mid.
Proof. apply (app_schedule_sound _ (take 8 cross_steps)). vm_compute. reflexivity. Qed.

Lemma cross_mid_in_flight : length cross_mid.(am_pending) = 2%nat.
Proof. vm_compute. reflexivity. Qed.

Lemma app_answers_settle_witness :
  (∀ n A', nsteps app_deliver_rel n cross_mid A' → (n ≤ 2 * length cross_mid.(am_pending))%nat) ∧
  ∃ A', rtc app_deliver_rel cross_mid A' ∧ A'.(am_pending) = [] ∧
        app_mreach codepoint_compare w_back A'.
Proof. exact (app_answers_settle codepoint_compare w_back cross_mid cross_mid_reach). Defined.

Lemma w_back_srv_ok : srv_ok (server w_back.(w_net)).
Proof. apply (bool_decide_unpack _). vm_compute. reflexivity. Qed.

Lemma stale_answer_overwrites_store_witness :
  ∃ t0, (list_mount w_back).(m_pending) = [t0] ∧
    ∀ M k, M.(m_pending) !! k = Some t0 →
      m_deliver k M = Some (mkMachine
        (run_state (dispatch_action (ProductSlice.setProducts (srv_products (server w_back.(w_net)))))
           M.(m_page))
        (delete k M.(m_pending))).
Proof. exact (stale_answer_overwrites_store w_back w_back_srv_ok eq_refl). Defined.

Lemma unmounted_answer_reverts_edit_witness :
  ∃ t0, (∀ i l, (run_list_on i a_loadProducts l w_back).2 = [TList i l t0]) ∧
    ∀ A k i g, A.(am_pending) !! k = Some (TList i g t0) → view_inst A.(am_view) ≠ i →
      deliver_app k A = Some (mkApp
        (run_state (dispatch_action (ProductSlice.setProducts (srv_products (server w_back.(w_net)))))
           (mkPage g A.(am_world))).(shared)
        A.(am_view) A.(am_next) (delete k A.(am_pending))).
Proof. exact (unmounted_answer_reverts_edit w_back w_back_srv_ok eq_refl). Defined.

Lemma late_comments_hide_new_comment_witness :
  ∃ t1, (detail_mount (Some (js_String 1)) wd).(m_pending) = [t1] ∧
    ∀ c, srv_ok (server c.(shared).(w_net)) → next_delivered (schedule c.(shared).(w_net)) = true →
      ∃ t2, run_until t1 c =
          (set_net (mkNet (server c.(shared).(w_net)) (tail (schedule c.(shared).(w_net)))
                      (sent c.(shared).(w_net) ++ [mkRequest GET (comments_of_url 1) NoBody]))
             (mkPage (set_product (Some pB) c.(local)) c.(shared)), Some t2) ∧
        ∀ c', run_until t2 c' =
          (mkPage (set_comments (λ _, comments_of 1 (srv_comments (server c.(shared).(w_net)))) c'.(local))
             c'.(shared), None).
Proof.
  apply (late_comments_hide_new_comment wd 1 pB);
    [apply (bool_decide_unpack _); vm_compute|..]; reflexivity.
Defined.

(** Product B is shown with the text "nice" typed; the network delivers
    the next two requests. *)
Definition dc_machine : machine detail_page db :=
  mkMachine (detail_cfg db1 (loaded pB [cm1] "nice") [Delivered; Delivered]) [].

Lemma double_click_adds_twice_witness :
  let t := a_on_detail_event (ClickAddComment "t") in
  let d := mkCommentDraft pB.(id) dc_machine.(m_page).(local).(newCommentText) "t" in
  let M2 := m_start t (m_start t dc_machine) in
  (m_start t dc_machine).(m_page).(local) = dc_machine.(m_page).(local) ∧
  M2.(m_page).(local) = dc_machine.(m_page).(local) ∧
  sent M2.(m_page).(shared).(w_net) = sent dc_machine.(m_page).(shared).(w_net) ++
    [mkRequest POST comments_url (CommentBody d); mkRequest POST comments_url (CommentBody d)] ∧
  ∃ i1 i2, i1 ≠ i2 ∧
    srv_comments (server M2.(m_page).(shared).(w_net)) =
      srv_comments (server dc_machine.(m_page).(shared).(w_net)) ++ [comment_with_id i1 d; comment_with_id i2 d].
Proof.
  apply (double_click_adds_twice dc_machine pB "t");
    [reflexivity|vm_compute; reflexivity|apply (bool_decide_unpack _); vm_compute; reflexivity|reflexivity].
Defined.
